(** * Listing lifecycle and bump engine of the marketplace backend

    A shallow embedding of the listing services (listing-service,
    bump-service, admin-service), of the two browse handlers of
    api/listings.ts and of the pieces of the database schema and of the
    shared constants they use, followed by the properties of the
    lifecycle: expiry sweep, bump cooldown and bump effect, archive,
    default visibility and banned-user filtering.

    Conventions of the model.
    - Integer columns and [Date.now()] readings are [Z] (milliseconds since
      the epoch); the integers involved are far below 2^53, where the
      arithmetic of JavaScript numbers is exact.
    - The one quotient of the source, [hoursSinceLastBump], is computed in
      [Q]; a double differs from the rational by a relative error of 2^-53,
      which cannot move the comparison with 24 or the ceiling for
      differences of timestamps of any realistic size. Where the source
      returns the result of further floating-point operations
      ([getTimeUntilNextBump] of the bump service), each operation is
      followed by the rounding to a double, a parameter of the model.
    - [getListingImageCount] reads the first row of a query without
      ORDER BY that can have several rows: the order in which the store
      answers it is a parameter of the model.
    - Every [Date.now()] and [new Date().toISOString()] of a function is a
      parameter of its model, in the order of the calls.
    - The store performs no I/O failure: a [StorageError] is outside the
      model. *)

From Stdlib Require Import ZArith QArith Qround String Ascii List DecimalString Lia Lqa.
From stdpp Require Import base decidable option list sorting strings.

Local Open Scope Z_scope.
Local Open Scope string_scope.

(** ** shared/constants.ts *)

Module Constants.

(** [ListingStatus], the union of the values of [LISTING_STATUS]. *)
Inductive ListingStatus : Set := active | expired | archived.

#[global] Instance ListingStatus_eq_dec : EqDecision ListingStatus.
Proof. solve_decision. Defined.

Module LISTING_STATUS.
Definition ACTIVE : ListingStatus := active.
Definition EXPIRED : ListingStatus := expired.
Definition ARCHIVED : ListingStatus := archived.
End LISTING_STATUS.

Definition PRICE_MIN : Z := 0.
Definition PRICE_MAX : Z := 100000000.

Definition EXPIRY_DEFAULT_DAYS : Z := 3.
Definition EXPIRY_FREE_BUMP_DAYS : Z := 3.
Definition EXPIRY_PAID_BUMP_DAYS : Z := 7.
Definition BUMP_COOLDOWN_HOURS : Z := 24.

End Constants.
Export Constants.

(** ** db/schema.ts: the rows of the tables *)

Module Listing.
Record t : Type := mk {
  id : Z;
  userId : Z;
  username : string;
  displayName : string;
  title : string;
  content : string;
  price : Z;
  category : string;
  status : ListingStatus;
  expiresAt : Z;
  lastBumpedAt : option Z;
  bumpCount : Z;
  starCount : Z;
  paymentId : option string;
  isPaymentPending : Z;
  createdAt : string;
  updatedAt : string
}.
End Listing.

Module UserProfile.
Record t : Type := mk {
  id : Z;
  telegramId : Z;
  username : option string;
  displayName : option string;
  bio : option string;
  phoneNumber : option string;
  contactLinks : option string;
  profileImageKey : option string;
  isBanned : Z;
  createdAt : string;
  updatedAt : string
}.
End UserProfile.

Module ListingImage.
Record t : Type := mk {
  id : Z;
  listingId : Z;
  originalName : string;
  imageKey : string;
  thumbnailKey : string;
  mimeType : string;
  fileSize : Z;
  width : Z;
  height : Z;
  uploadOrder : Z;
  createdAt : string
}.
End ListingImage.

(** The database: one list of rows per table, in rowid order. *)
Record Database : Type := mkDatabase {
  listings : list Listing.t;
  userProfiles : list UserProfile.t;
  listingImages : list ListingImage.t
}.

(** ** The query operators of drizzle-orm over SQLite

    A condition evaluates on a row to an SQL truth value, [None] being
    NULL; a row passes a WHERE clause when the condition is TRUE. *)

Module Sql.

Definition SQL (R : Type) : Type := R -> option bool.

Definition and3 (a b : option bool) : option bool :=
  match a, b with
  | Some false, _ | _, Some false => Some false
  | Some true, Some true => Some true
  | _, _ => None
  end.

Definition or3 (a b : option bool) : option bool :=
  match a, b with
  | Some true, _ | _, Some true => Some true
  | Some false, Some false => Some false
  | _, _ => None
  end.

(** ASCII lower case, the only case folding of SQLite's LIKE. *)
Definition lower (c : ascii) : ascii :=
  let n := N_of_ascii c in
  if ((65 <=? n) && (n <=? 90))%N then ascii_of_N (n + 32) else c.

(** LIKE with the wildcards [%] and [_], on the bytes of the strings. *)
Fixpoint like_match (p s : list ascii) : bool :=
  match p with
  | [] => match s with [] => true | _ :: _ => false end
  | c :: p' =>
      if Ascii.eqb c "%"%char then
        (fix star (s : list ascii) : bool :=
           like_match p' s
           || match s with [] => false | _ :: s' => star s' end) s
      else
        match s with
        | [] => false
        | d :: s' =>
            (Ascii.eqb c "_"%char || Ascii.eqb (lower c) (lower d))
            && like_match p' s'
        end
  end.

Section Operators.
Context {R : Type}.

Definition eq {A : Type} `{EqDecision A} (col : R -> option A) (v : A) : SQL R :=
  fun r => x ← col r; Some (bool_decide (x = v)).

(** [eq] between two columns, as in a join condition. *)
Definition eq_col {A : Type} `{EqDecision A} (c1 c2 : R -> option A) : SQL R :=
  fun r => x ← c1 r; y ← c2 r; Some (bool_decide (x = y)).

Definition gte (col : R -> option Z) (v : Z) : SQL R :=
  fun r => x ← col r; Some (v <=? x)%Z.

Definition lte (col : R -> option Z) (v : Z) : SQL R :=
  fun r => x ← col r; Some (x <=? v)%Z.

Definition like (col : R -> option string) (pat : string) : SQL R :=
  fun r => x ← col r;
    Some (like_match (list_ascii_of_string pat) (list_ascii_of_string x)).

(** [and(...cs)]; without conditions there is no constraint. *)
Definition and_ (cs : list (SQL R)) : SQL R :=
  fun r => foldr (fun c acc => and3 (c r) acc) (Some true) cs.

(** [or(...cs)]; drizzle drops an [or()] without conditions. *)
Definition or_ (cs : list (SQL R)) : SQL R :=
  fun r =>
    match cs with
    | [] => Some true
    | _ :: _ => foldr (fun c acc => or3 (c r) acc) (Some false) cs
    end.

Definition holds (c : SQL R) (r : R) : Prop := c r = Some true.

#[global] Instance holds_dec (c : SQL R) (r : R) : Decision (holds c r).
Proof. unfold holds. apply _. Defined.

(** [select().from(t).where(c)] *)
Definition where_ (c : SQL R) (t : list R) : list R := filter (holds c) t.

(** [update(t).set(f).where(c).returning()]: the table after the
    statement and the rows it rewrote, in table order. *)
Definition update (f : R -> R) (c : SQL R) (t : list R) : list R * list R :=
  ((fun r => if decide (holds c r) then f r else r) <$> t,
   f <$> filter (holds c) t).

(** [delete(t).where(c).returning()]: the table without the rows that
    pass the condition, and those rows. *)
Definition delete (c : SQL R) (t : list R) : list R * list R :=
  (filter (fun r => ¬ holds c r) t, filter (holds c) t).

(** [insert(t).values(r).returning()]: the new row comes last. *)
Definition insert (r : R) (t : list R) : list R * list R := ((t ++ [r])%list, [r]).

(** [.limit(n)]: a negative LIMIT is no limit. *)
Definition limit (n : Z) (t : list R) : list R :=
  if (n <? 0)%Z then t else take (Z.to_nat n) t.

(** [.offset(n)]: a negative OFFSET is no offset. *)
Definition offset (n : Z) (t : list R) : list R := drop (Z.to_nat n) t.

(** [.limit(n).offset(m)], that is LIMIT n OFFSET m: the first [m]
    rows are skipped, then at most [n] are returned. *)
Definition limit_offset (n m : Z) (t : list R) : list R :=
  limit n (offset m t).

(** [.orderBy(...)] on a key with a decidable order; rows with equal
    keys come in the order the merge leaves them. *)
Definition orderBy (le : relation R) `{∀ x y, Decision (le x y)}
    (t : list R) : list R :=
  merge_sort le t.

End Operators.

(** [a.leftJoin(b, on)] *)
Definition leftJoin {A B : Type} (on : SQL (A * option B))
    (ta : list A) (tb : list B) : list (A * option B) :=
  a ← ta;
  match filter (fun b => holds on (a, Some b)) tb with
  | [] => [(a, None)]
  | bs => (fun b => (a, Some b)) <$> bs
  end.

End Sql.

(** ** The world of a request: database, log and network

    [statements] keeps the database as each write statement left it, newest
    first: what another reader of the store can have observed. [console]
    keeps the first argument of each [console.error]. [network] is the
    answer of the Telegram endpoint to a request, [outbox] the requests
    made. *)

Inductive JsError : Type := Error (message : string).

Definition message_of (e : JsError) : string := let 'Error m := e in m.

Record Request : Type := mkRequest {
  url : string;
  chat_id : Z;
  text : string;
  parse_mode : string
}.

(** What [fetch] followed by [response.json()] comes to. *)
Inductive FetchOutcome : Type :=
| Rejects (e : JsError)
| Json (ok : bool).

Record World : Type := mkWorld {
  db : Database;
  statements : list Database;
  console : list string;
  network : Request -> FetchOutcome;
  outbox : list Request
}.

(** An async function: from a world to a thrown error or a value, and the
    world it leaves. *)
Definition Promise (A : Type) : Type := World -> (JsError + A) * World.

Module Promise.

Definition ret {A : Type} (a : A) : Promise A := fun w => (inr a, w).

Definition bind {A B : Type} (m : Promise A) (k : A -> Promise B) : Promise B :=
  fun w =>
    match m w with
    | (inl e, w') => (inl e, w')
    | (inr a, w') => k a w'
    end.

Definition throw {A : Type} (e : JsError) : Promise A := fun w => (inl e, w).

(** [try { m } catch (error) { h error }] *)
Definition try_catch {A : Type} (m : Promise A) (h : JsError -> Promise A) : Promise A :=
  fun w =>
    match m w with
    | (inl e, w') => h e w'
    | (inr a, w') => (inr a, w')
    end.

(** A read of the database. *)
Definition query {A : Type} (q : Database -> A) : Promise A :=
  fun w => (inr (q (db w)), w).

(** One write statement: the database changes in one step. *)
Definition execute {A : Type} (s : Database -> Database * A) : Promise A :=
  fun w =>
    let '(d, a) := s (db w) in
    (inr a,
     mkWorld d (d :: statements w) (console w) (network w) (outbox w)).

Definition console_error (line : string) : Promise unit :=
  fun w =>
    (inr tt,
     mkWorld (db w) (statements w) (line :: console w) (network w) (outbox w)).

(** [fetch(url, {body})] and the decoding of the answer. *)
Definition fetch (r : Request) : Promise bool :=
  fun w =>
    let w' := mkWorld (db w) (statements w) (console w) (network w) (r :: outbox w) in
    match network w r with
    | Rejects e => (inl e, w')
    | Json ok => (inr ok, w')
    end.

End Promise.

#[global] Instance Promise_ret : MRet Promise := @Promise.ret.
#[global] Instance Promise_bind : MBind Promise := fun A B k m => Promise.bind m k.

(** JavaScript truthiness of a nullable string and of a nullable number. *)
Definition truthy_string (s : option string) : option string :=
  match s with
  | Some "" | None => None
  | Some x => Some x
  end.

Definition truthy_number (n : option Z) : option Z :=
  match n with
  | Some 0 | None => None
  | Some x => Some x
  end.

(** [a || b] on strings. *)
Definition or_else (a : option string) (b : string) : string :=
  default b (truthy_string a).

(** The columns of the tables, as the query operators read them. *)
Module listings_.
Definition id (r : Listing.t) : option Z := Some (Listing.id r).
Definition userId (r : Listing.t) : option Z := Some (Listing.userId r).
Definition title (r : Listing.t) : option string := Some (Listing.title r).
Definition content (r : Listing.t) : option string := Some (Listing.content r).
Definition price (r : Listing.t) : option Z := Some (Listing.price r).
Definition category (r : Listing.t) : option string := Some (Listing.category r).
Definition status (r : Listing.t) : option ListingStatus := Some (Listing.status r).
Definition expiresAt (r : Listing.t) : option Z := Some (Listing.expiresAt r).
End listings_.

Module userProfiles_.
Definition telegramId (r : UserProfile.t) : option Z := Some (UserProfile.telegramId r).
Definition isBanned (r : UserProfile.t) : option Z := Some (UserProfile.isBanned r).
End userProfiles_.

Module listingImages_.
Definition listingId (r : ListingImage.t) : option Z := Some (ListingImage.listingId r).
End listingImages_.

(** A column of the left table and of the right table of a left join; the
    right columns are NULL on a row without a match. *)
Definition left_col {A B C : Type} (col : A -> option C) : A * option B -> option C :=
  fun r => col r.1.

Definition right_col {A B C : Type} (col : B -> option C) : A * option B -> option C :=
  fun r => r.2 ≫= col.

(** ** services/listing-service.ts *)

Inductive SortBy : Set := price | date.
Inductive SortOrder : Set := asc | desc.

#[global] Instance SortBy_eq_dec : EqDecision SortBy.
Proof. solve_decision. Defined.
#[global] Instance SortOrder_eq_dec : EqDecision SortOrder.
Proof. solve_decision. Defined.

Record UpdateListingInput : Type := mkUpdateListingInput {
  u_title : option string;
  u_description : option string;
  u_price : option Z;
  u_category : option string
}.

Record GetListingsInput : Type := mkGetListingsInput {
  limit : Z;
  offset : Z;
  category : option string;
  priceMin : option Z;
  priceMax : option Z;
  search : option string;
  sortBy : option SortBy;
  sortOrder : option SortOrder;
  status : option (list ListingStatus);
  userId : option Z
}.

(** [ImageUrlData] of image-service.ts. *)
Record ImageUrlData : Type := mkImageUrlData {
  i_id : Z;
  i_imageKey : string;
  i_thumbnailKey : string;
  i_width : Z;
  i_height : Z;
  i_originalName : string;
  i_fileSize : Z;
  i_uploadOrder : Z
}.

Record ProfileInfo : Type := mkProfileInfo {
  p_displayName : option string;
  p_bio : option string;
  p_profileImageKey : option string;
  p_username : option string
}.

(** A row of [getListingsWithImages]: the selected listing columns (the
    column [content] under the name [description]) with [displayName]
    overridden, the profile and the images. *)
Record ListingWithImages : Type := mkListingWithImages {
  listing : Listing.t;
  profile : option ProfileInfo;
  images : list ImageUrlData
}.

Module ListingService.

(** The WHERE conditions both list queries build from the input, on any
    row type that carries the listing columns. *)
Section Conditions.
Context {R : Type} (col : ∀ C : Type, (Listing.t -> option C) -> R -> option C).

(** Status filter (default to active only if not specified). *)
Definition statusCondition (input : GetListingsInput) : Sql.SQL R :=
  match status input with
  | Some (s :: ss) =>
      Sql.or_ ((fun st => Sql.eq (col _ listings_.status) st) <$> (s :: ss))
  | _ => Sql.eq (col _ listings_.status) LISTING_STATUS.ACTIVE
  end.

Definition categoryCondition (input : GetListingsInput) : list (Sql.SQL R) :=
  match truthy_string (category input) with
  | Some c => [Sql.eq (col _ listings_.category) c]
  | None => []
  end.

Definition priceMinCondition (input : GetListingsInput) : list (Sql.SQL R) :=
  match priceMin input with
  | Some p => [Sql.gte (col _ listings_.price) p]
  | None => []
  end.

Definition priceMaxCondition (input : GetListingsInput) : list (Sql.SQL R) :=
  match priceMax input with
  | Some p => [Sql.lte (col _ listings_.price) p]
  | None => []
  end.

Definition userCondition (input : GetListingsInput) : list (Sql.SQL R) :=
  match userId input with
  | Some u => [Sql.eq (col _ listings_.userId) u]
  | None => []
  end.

Definition searchCondition (input : GetListingsInput) : list (Sql.SQL R) :=
  match truthy_string (search input) with
  | Some s =>
      let searchTerm := "%" +:+ s +:+ "%" in
      [Sql.or_ [Sql.like (col _ listings_.title) searchTerm;
            Sql.like (col _ listings_.content) searchTerm;
            Sql.like (col _ listings_.category) searchTerm]]
  | None => []
  end.
End Conditions.

(** The ORDER BY of both list queries: by price or by [createdAt]
    (compared as text), descending unless [sortOrder] is ["asc"]. *)
Definition orderLeb (input : GetListingsInput) (a b : Listing.t) : bool :=
  match sortBy input, sortOrder input with
  | Some price, Some asc => (Listing.price a <=? Listing.price b)%Z
  | Some price, _ => (Listing.price b <=? Listing.price a)%Z
  | _, Some asc => String.leb (Listing.createdAt a) (Listing.createdAt b)
  | _, _ => String.leb (Listing.createdAt b) (Listing.createdAt a)
  end.

Definition orderRel {R : Type} (key : R -> Listing.t) (input : GetListingsInput)
    : relation R :=
  fun a b => orderLeb input (key a) (key b) = true.

#[global] Instance orderRel_dec {R : Type} (key : R -> Listing.t) input a b :
  Decision (orderRel key input a b).
Proof. unfold orderRel. apply _. Defined.

Definition getListings (input : GetListingsInput) : Promise (list Listing.t) :=
  let conditions :=
    ([statusCondition (fun _ c => c) input]
     ++ categoryCondition (fun _ c => c) input
     ++ priceMinCondition (fun _ c => c) input
     ++ priceMaxCondition (fun _ c => c) input
     ++ userCondition (fun _ c => c) input
     ++ searchCondition (fun _ c => c) input)%list in
  Promise.query (fun d =>
    Sql.limit_offset (limit input) (offset input)
      (Sql.orderBy (orderRel id input)
         (Sql.where_ (Sql.and_ conditions) (listings d)))).

Definition getListingById (id : Z) : Promise (option Listing.t) :=
  Promise.query (fun d =>
    head (Sql.limit 1 (Sql.where_ (Sql.eq listings_.id id) (listings d)))).

(** The SET of [updateListing]: [updatedAt] and the fields the input
    defines. *)
Definition updateData (now : string) (input : UpdateListingInput) (r : Listing.t)
    : Listing.t :=
  Listing.mk
    (Listing.id r) (Listing.userId r) (Listing.username r) (Listing.displayName r)
    (default (Listing.title r) (u_title input))
    (default (Listing.content r) (u_description input))
    (default (Listing.price r) (u_price input))
    (default (Listing.category r) (u_category input))
    (Listing.status r) (Listing.expiresAt r) (Listing.lastBumpedAt r)
    (Listing.bumpCount r) (Listing.starCount r) (Listing.paymentId r)
    (Listing.isPaymentPending r) (Listing.createdAt r)
    now.

Definition updateListing (now : string) (id userId : Z) (input : UpdateListingInput)
    : Promise (option Listing.t) :=
  updated ← Promise.execute (fun d =>
    let '(t, returning) :=
      Sql.update (updateData now input)
        (Sql.and_ [Sql.eq listings_.id id; Sql.eq listings_.userId userId]) (listings d) in
    (mkDatabase t (userProfiles d) (listingImages d), returning));
  mret (head updated).

(** The SET of [expireOldListings]. *)
Definition setExpired (nowIso : string) (r : Listing.t) : Listing.t :=
  Listing.mk
    (Listing.id r) (Listing.userId r) (Listing.username r) (Listing.displayName r)
    (Listing.title r) (Listing.content r) (Listing.price r) (Listing.category r)
    LISTING_STATUS.EXPIRED
    (Listing.expiresAt r) (Listing.lastBumpedAt r)
    (Listing.bumpCount r) (Listing.starCount r) (Listing.paymentId r)
    (Listing.isPaymentPending r) (Listing.createdAt r)
    nowIso.

Definition expireOldListings (now : Z) (nowIso : string) : Promise (list Listing.t) :=
  Promise.execute (fun d =>
    let '(t, expiredListings) :=
      Sql.update (setExpired nowIso)
        (Sql.and_ [Sql.eq listings_.status LISTING_STATUS.ACTIVE;
               Sql.lte listings_.expiresAt now]) (listings d) in
    (mkDatabase t (userProfiles d) (listingImages d), expiredListings)).

Definition byUploadOrder : relation ListingImage.t :=
  fun a b => (ListingImage.uploadOrder a <= ListingImage.uploadOrder b)%Z.

#[global] Instance byUploadOrder_dec a b : Decision (byUploadOrder a b).
Proof. unfold byUploadOrder. apply _. Defined.

Definition getListingImagesData (listingId : Z) (d : Database) : list ImageUrlData :=
  (fun image =>
     mkImageUrlData (ListingImage.id image) (ListingImage.imageKey image)
       (ListingImage.thumbnailKey image) (ListingImage.width image)
       (ListingImage.height image) (ListingImage.originalName image)
       (ListingImage.fileSize image) (ListingImage.uploadOrder image))
  <$> Sql.orderBy byUploadOrder
        (Sql.where_ (Sql.eq listingImages_.listingId listingId) (listingImages d)).

(** The profile of a listing's owner, and the row built from both. *)
Definition withImages (d : Database) (listing : Listing.t) : ListingWithImages :=
  let images := getListingImagesData (Listing.id listing) d in
  let profile :=
    head (Sql.limit 1
            (Sql.where_ (Sql.eq userProfiles_.telegramId (Listing.userId listing))
               (userProfiles d))) in
  let effectiveDisplayName :=
    or_else (profile ≫= UserProfile.displayName) (Listing.displayName listing) in
  mkListingWithImages
    (Listing.mk
       (Listing.id listing) (Listing.userId listing) (Listing.username listing)
       effectiveDisplayName
       (Listing.title listing) (Listing.content listing) (Listing.price listing)
       (Listing.category listing) (Listing.status listing)
       (Listing.expiresAt listing) (Listing.lastBumpedAt listing)
       (Listing.bumpCount listing) (Listing.starCount listing)
       (Listing.paymentId listing) (Listing.isPaymentPending listing)
       (Listing.createdAt listing) (Listing.updatedAt listing))
    ((fun p =>
        mkProfileInfo (UserProfile.displayName p) (UserProfile.bio p)
          (UserProfile.profileImageKey p) (UserProfile.username p)) <$> profile)
    images.

(** The joined rows [getListingsWithImages] selects from. *)
Definition joined (d : Database) : list (Listing.t * option UserProfile.t) :=
  Sql.leftJoin
    (Sql.eq_col (left_col listings_.userId) (right_col userProfiles_.telegramId))
    (listings d) (userProfiles d).

Definition getListingsWithImages (input : GetListingsInput)
    : Promise (list ListingWithImages) :=
  let L := fun C => @left_col Listing.t UserProfile.t C in
  let conditions :=
    ([Sql.eq (right_col userProfiles_.isBanned) 0;
      statusCondition L input]
     ++ categoryCondition L input
     ++ priceMinCondition L input
     ++ priceMaxCondition L input
     ++ userCondition L input
     ++ searchCondition L input)%list in
  Promise.query (fun d =>
    let listingList :=
      fst <$> Sql.limit_offset (limit input) (offset input)
                (Sql.orderBy (orderRel fst input)
                   (Sql.where_ (Sql.and_ conditions) (joined d))) in
    withImages d <$> listingList).

Record CreateListingInput : Type := mkCreateListingInput {
  c_title : string;
  c_description : string;
  c_price : Z;
  c_category : string
}.

(** [rowid] is the id the AUTOINCREMENT key of the table gives the new
    row; the columns left out of the insert take the defaults of the
    schema. *)
Definition createListing (rowid : Z) (now : string) (dateNow : Z)
    (userId : Z) (username displayName : string) (input : CreateListingInput)
    : Promise (option Listing.t) :=
  let expiresAt := dateNow + EXPIRY_DEFAULT_DAYS * 24 * 60 * 60 * 1000 in
  newListing ← Promise.execute (fun d =>
    let '(t, returning) :=
      Sql.insert
        (Listing.mk rowid userId username displayName
           (c_title input) (c_description input) (c_price input) (c_category input)
           LISTING_STATUS.ACTIVE expiresAt None 0 0 None 0 now now)
        (listings d) in
    (mkDatabase t (userProfiles d) (listingImages d), returning));
  mret (head newListing).

(** The image rows reference their listing with ON DELETE CASCADE
    (db/schema.ts): in a store that enforces foreign keys, [foreignKeys],
    the images of a deleted listing go with it. *)
Definition cascade (foreignKeys : bool) (deleted : list Listing.t)
    (images : list ListingImage.t) : list ListingImage.t :=
  if foreignKeys then
    filter (fun i => ListingImage.listingId i ∉ Listing.id <$> deleted) images
  else images.

Definition deleteListing (foreignKeys : bool) (id userId : Z)
    : Promise (option Listing.t) :=
  deleted ← Promise.execute (fun d =>
    let '(t, returning) :=
      Sql.delete (Sql.and_ [Sql.eq listings_.id id; Sql.eq listings_.userId userId])
        (listings d) in
    (mkDatabase t (userProfiles d) (cascade foreignKeys returning (listingImages d)),
     returning));
  mret (head deleted).

Definition deleteListingByIdOnly (foreignKeys : bool) (id : Z)
    : Promise (option Listing.t) :=
  deleted ← Promise.execute (fun d =>
    let '(t, returning) := Sql.delete (Sql.eq listings_.id id) (listings d) in
    (mkDatabase t (userProfiles d) (cascade foreignKeys returning (listingImages d)),
     returning));
  mret (head deleted).

(** The SET of [archiveListing], the same as the one of the admin
    service. *)
Definition setArchived (now : string) (r : Listing.t) : Listing.t :=
  Listing.mk
    (Listing.id r) (Listing.userId r) (Listing.username r) (Listing.displayName r)
    (Listing.title r) (Listing.content r) (Listing.price r) (Listing.category r)
    LISTING_STATUS.ARCHIVED
    (Listing.expiresAt r) (Listing.lastBumpedAt r)
    (Listing.bumpCount r) (Listing.starCount r) (Listing.paymentId r)
    (Listing.isPaymentPending r) (Listing.createdAt r)
    now.

Definition archiveListing (now : string) (id : Z) : Promise (option Listing.t) :=
  archived ← Promise.execute (fun d =>
    let '(t, returning) :=
      Sql.update (setArchived now) (Sql.eq listings_.id id) (listings d) in
    (mkDatabase t (userProfiles d) (listingImages d), returning));
  mret (head archived).

(** The SET of [updateUserDisplayNameInListings]. *)
Definition setDisplayName (newDisplayName now : string) (r : Listing.t) : Listing.t :=
  Listing.mk
    (Listing.id r) (Listing.userId r) (Listing.username r) newDisplayName
    (Listing.title r) (Listing.content r) (Listing.price r) (Listing.category r)
    (Listing.status r) (Listing.expiresAt r) (Listing.lastBumpedAt r)
    (Listing.bumpCount r) (Listing.starCount r) (Listing.paymentId r)
    (Listing.isPaymentPending r) (Listing.createdAt r)
    now.

Definition updateUserDisplayNameInListings (now : string) (userId : Z)
    (newDisplayName : string) : Promise bool :=
  Promise.execute (fun d =>
    let '(t, _) :=
      Sql.update (setDisplayName newDisplayName now)
        (Sql.eq listings_.userId userId) (listings d) in
    (mkDatabase t (userProfiles d) (listingImages d), tt));;
  mret true.

Definition getListingByIdWithImages (id : Z) : Promise (option ListingWithImages) :=
  Promise.query (fun d =>
    match head (Sql.limit 1 (Sql.where_ (Sql.eq listings_.id id) (listings d))) with
    | None => None
    | Some listing => Some (withImages d listing)
    end).

End ListingService.

(** ** services/bump-service.ts *)

Record BumpListingInput : Type := mkBumpListingInput {
  listingId : Z;
  b_userId : Z;
  isPaid : bool
}.

(** The result of [canBumpListing]. *)
Record Eligibility : Type := mkEligibility {
  canBump : bool;
  reason : option string;
  hoursUntilNextBump : option Z
}.

(** [`${n}`] for an integer [n]. *)
Definition number_to_string (n : Z) : string := NilZero.string_of_int (Z.to_int n).

(** [x < y] on rationals. *)
Definition Qltb (x y : Q) : bool := negb (Qle_bool y x).

Module BumpService.

Definition hoursSinceLastBump (now lastBumpedAt : Z) : Q :=
  (inject_Z (now - lastBumpedAt) / inject_Z (1000 * 60 * 60))%Q.

Definition canBumpListing (now : Z) (listingId userId : Z) : Promise Eligibility :=
  listing ← Promise.query (fun d =>
    head (Sql.limit 1 (Sql.where_ (Sql.eq listings_.id listingId) (listings d))));
  match listing with
  | None => mret (mkEligibility false (Some "Listing not found") None)
  | Some listing =>
      if negb (bool_decide (Listing.userId listing = userId)) then
        mret (mkEligibility false (Some "You don't own this listing") None)
      else
        (* Check bump cooldown (24 hours) *)
        match truthy_number (Listing.lastBumpedAt listing) with
        | Some lastBumpedAt =>
            let hoursSinceLastBump := hoursSinceLastBump now lastBumpedAt in
            if Qltb hoursSinceLastBump (inject_Z BUMP_COOLDOWN_HOURS) then
              let hoursUntilNextBump :=
                Qceiling (inject_Z BUMP_COOLDOWN_HOURS - hoursSinceLastBump) in
              mret (mkEligibility false
                      (Some ("You can bump again in "
                             +:+ number_to_string hoursUntilNextBump
                             +:+ " hour(s)"))
                      (Some hoursUntilNextBump))
            else mret (mkEligibility true None None)
        | None => mret (mkEligibility true None None)
        end
  end.

(** The SET of [bumpListing]. *)
Definition setBumped (newExpiresAt now : Z) (nowIso : string) (r : Listing.t)
    : Listing.t :=
  Listing.mk
    (Listing.id r) (Listing.userId r) (Listing.username r) (Listing.displayName r)
    (Listing.title r) (Listing.content r) (Listing.price r) (Listing.category r)
    LISTING_STATUS.ACTIVE
    newExpiresAt
    (Some now)
    (Listing.bumpCount r + 1)
    (Listing.starCount r) (Listing.paymentId r)
    (Listing.isPaymentPending r) (Listing.createdAt r)
    nowIso.

(** [checkedAt] is the clock reading of the eligibility check, [now] and
    [nowIso] the two readings of the update. *)
Definition bumpListing (checkedAt now : Z) (nowIso : string) (input : BumpListingInput)
    : Promise (option Listing.t) :=
  eligibility ← canBumpListing checkedAt (listingId input) (b_userId input);
  if negb (canBump eligibility) then
    Promise.throw (Error (or_else (reason eligibility) "Cannot bump listing"))
  else
    let daysToAdd :=
      if isPaid input then EXPIRY_PAID_BUMP_DAYS else EXPIRY_FREE_BUMP_DAYS in
    let newExpiresAt := now + daysToAdd * 24 * 60 * 60 * 1000 in
    bumped ← Promise.execute (fun d =>
      let '(t, returning) :=
        Sql.update (setBumped newExpiresAt now nowIso)
          (Sql.eq listings_.id (listingId input)) (listings d) in
      (mkDatabase t (userProfiles d) (listingImages d), returning));
    mret (head bumped).

(** [getTimeUntilNextBump]: milliseconds, [None] for [null]. The number
    returned is computed in doubles: [double] is the rounding of a
    rational to a double, applied to the result of the division, of the
    subtraction and of each multiplication. *)
Definition getTimeUntilNextBump (double : Q -> Q) (now : Z) (listingId : Z)
    : Promise (option Q) :=
  listing ← Promise.query (fun d =>
    head (Sql.limit 1 (Sql.where_ (Sql.eq listings_.id listingId) (listings d))));
  match listing ≫= fun l => truthy_number (Listing.lastBumpedAt l) with
  | None => mret None
  | Some lastBumpedAt =>
      let hoursSinceLastBump := double (hoursSinceLastBump now lastBumpedAt) in
      if Qle_bool (inject_Z BUMP_COOLDOWN_HOURS) hoursSinceLastBump then
        mret (Some 0%Q) (* Can bump now *)
      else
        mret (Some (double
                      (double
                         (double
                            (double (inject_Z BUMP_COOLDOWN_HOURS - hoursSinceLastBump)
                             * 60)
                          * 60)
                       * 1000))%Q)
  end.

End BumpService.

(** ** services/admin-service.ts *)

Record Env : Type := mkEnv { TELEGRAM_BOT_TOKEN : option string }.

Record ArchiveResult : Type := mkArchiveResult {
  success : bool;
  a_listing : option Listing.t;
  a_error : option string
}.

Module AdminService.

Definition quote : string := String (ascii_of_nat 34) EmptyString.
Definition newline : string := String (ascii_of_nat 10) EmptyString.

Definition archiveMessage (listingTitle reason : string) : string :=
  "⚠️ Your listing " +:+ quote +:+ listingTitle +:+ quote
  +:+ " has been archived by an admin." +:+ newline +:+ newline
  +:+ "Reason: " +:+ reason.

Definition sendArchiveNotification (env : Env)
    (userId : Z) (listingTitle reason : string) : Promise unit :=
  match truthy_string (TELEGRAM_BOT_TOKEN env) with
  | None => Promise.console_error "TELEGRAM_BOT_TOKEN not configured"
  | Some botToken =>
      let message := archiveMessage listingTitle reason in
      Promise.try_catch
        (ok ← Promise.fetch
                (mkRequest
                   ("https://api.telegram.org/bot" +:+ botToken +:+ "/sendMessage")
                   userId message "HTML");
         if negb ok then
           Promise.console_error "Failed to send Telegram notification:"
         else mret tt)
        (fun error => Promise.console_error "Error sending Telegram notification:")
  end.

(** The SET of [archiveListing]. *)
Definition setArchived (now : string) (r : Listing.t) : Listing.t :=
  Listing.mk
    (Listing.id r) (Listing.userId r) (Listing.username r) (Listing.displayName r)
    (Listing.title r) (Listing.content r) (Listing.price r) (Listing.category r)
    LISTING_STATUS.ARCHIVED
    (Listing.expiresAt r) (Listing.lastBumpedAt r)
    (Listing.bumpCount r) (Listing.starCount r) (Listing.paymentId r)
    (Listing.isPaymentPending r) (Listing.createdAt r)
    now.

Definition archiveListing (env : Env) (now : string) (listingId : Z) (reason : string)
    : Promise ArchiveResult :=
  Promise.try_catch
    ((* Get the listing first *)
     listing ← Promise.query (fun d =>
       head (Sql.limit 1 (Sql.where_ (Sql.eq listings_.id listingId) (listings d))));
     match listing with
     | None => mret (mkArchiveResult false None (Some "Listing not found"))
     | Some listing =>
         (* Archive the listing *)
         archived ← Promise.execute (fun d =>
           let '(t, returning) :=
             Sql.update (setArchived now)
               (Sql.eq listings_.id listingId) (listings d) in
           (mkDatabase t (userProfiles d) (listingImages d), returning));
         (* Send Telegram notification to listing owner *)
         sendArchiveNotification env
           (Listing.userId listing) (Listing.title listing) reason;;
         mret (mkArchiveResult true (head archived) None)
     end)
    (fun error =>
       Promise.console_error "Error archiving listing:";;
       mret (mkArchiveResult false None (Some (message_of error)))).

End AdminService.

(** ** api/listings.ts: the two browse handlers

    The handlers are modelled after the parsing of the request: [filters]
    is the result of [parseListingFilters], [userId] the parsed path
    parameter, and [viewer] the session [authenticateUser] finds for the
    request, if any. *)

Record Session : Type := mkSession {
  s_userId : Z;
  role : string
}.

Inductive Body : Type :=
| ListingsBody (listings : list ListingWithImages) (limit offset : Z) (hasMore : bool)
| ErrorBody (error : string).

Record Response : Type := mkResponse {
  code : Z;
  body : Body
}.

Module ProfileService.

(** Modelled from the spec: [ProfileService.getProfile] of
    services/profile-service.ts is not among the sources; the profile
    collaborator answers for a user id with that user's profile, if there
    is one. *)
Definition getProfile (userId : Z) : Promise (option UserProfile.t) :=
  Promise.query (fun d =>
    head (Sql.where_ (Sql.eq userProfiles_.telegramId userId) (userProfiles d))).

End ProfileService.

Module Api.

Definition createPaginationResponse (listings : list ListingWithImages)
    (limit offset : Z) : Body :=
  ListingsBody listings limit offset
    (bool_decide (Z.of_nat (length listings) = limit)).

Definition getAllListings (now : Z) (nowIso : string) (filters : GetListingsInput)
    : Promise Response :=
  Promise.try_catch
    ((* Expire old listings first *)
     ListingService.expireOldListings now nowIso;;
     listings ← ListingService.getListingsWithImages filters;
     mret (mkResponse 200
             (createPaginationResponse listings (limit filters) (offset filters))))
    (fun error =>
       Promise.console_error "Error fetching listings:";;
       mret (mkResponse 500 (ErrorBody "Failed to fetch listings"))).

(** [{ ...filters, userId }] *)
Definition withUserId (filters : GetListingsInput) (userId : Z) : GetListingsInput :=
  mkGetListingsInput (limit filters) (offset filters) (category filters)
    (priceMin filters) (priceMax filters) (search filters)
    (sortBy filters) (sortOrder filters) (status filters) (Some userId).

Definition isViewerAdmin (viewer : option Session) : bool :=
  match viewer with
  | Some session => bool_decide (role session = "admin")
  | None => false
  end.

Definition getUserListings (viewer : option Session) (now : Z) (nowIso : string)
    (userId : Z) (filters : GetListingsInput) : Promise Response :=
  Promise.try_catch
    ((* Check if target user is banned *)
     targetProfile ← ProfileService.getProfile userId;
     if match targetProfile with
        | Some p => bool_decide (UserProfile.isBanned p = 1)
        | None => false
        end
        && negb (isViewerAdmin viewer)
     then
       (* If user is banned and viewer is not admin, return empty array *)
       mret (mkResponse 200
               (createPaginationResponse [] (limit filters) (offset filters)))
     else
       (* Expire old listings first *)
       ListingService.expireOldListings now nowIso;;
       listings ← ListingService.getListingsWithImages (withUserId filters userId);
       mret (mkResponse 200
               (createPaginationResponse listings (limit filters) (offset filters))))
    (fun error =>
       Promise.console_error "Error fetching user listings:";;
       mret (mkResponse 500 (ErrorBody "Failed to fetch user listings"))).

(** The pagination of [parseListingFilters]. [parseInt] is the built-in
    with radix 10, [None] standing for NaN; [limitQuery] and [offsetQuery]
    are the query parameters, if present. *)
Definition parsePagination (parseInt : string -> option Z)
    (limitQuery offsetQuery : option string) : Z * Z :=
  let limitParam := or_else limitQuery "50" in
  let offsetParam := or_else offsetQuery "0" in
  let limit :=
    Z.min (Z.max (default 50 (truthy_number (parseInt limitParam))) 1) 100 in
  let offset := Z.max (default 0 (truthy_number (parseInt offsetParam))) 0 in
  (limit, offset).

(** What [authenticateUser] returns: an error, always with status 401, or
    the session. *)
Inductive AuthResult : Type :=
| AuthError (message : string)
| Authenticated (session : Session).

(** The bodies of the answers of the handlers of a single listing. *)
Inductive ReplyBody : Type :=
| ListingReply (listing : option Listing.t)
| DetailReply (listing : ListingWithImages)
| MessageReply (message : string)
| ArchivedReply (message : string) (listing : option Listing.t)
| ErrorReply (error : string).

Record Reply : Type := mkReply {
  r_code : Z;
  r_body : ReplyBody
}.

(** [getListingById]; [listingId] is the parsed path parameter, [None]
    when it is not a number. *)
Definition getListingById (now : Z) (nowIso : string) (listingId : option Z)
    : Promise Reply :=
  Promise.try_catch
    (match listingId with
     | None => mret (mkReply 400 (ErrorReply "Invalid listing ID"))
     | Some listingId =>
         (* Expire old listings first *)
         ListingService.expireOldListings now nowIso;;
         listing ← ListingService.getListingByIdWithImages listingId;
         match listing with
         | None => mret (mkReply 404 (ErrorReply "Listing not found"))
         | Some listing => mret (mkReply 200 (DetailReply listing))
         end
     end)
    (fun error =>
       Promise.console_error "Error fetching listing:";;
       mret (mkReply 500 (ErrorReply "Failed to fetch listing"))).

(** [bumpListing]; [body] is what [c.req.json()] comes to: an error, or
    whether [body.isPaid === true]. *)
Definition bumpListing (checkedAt now : Z) (nowIso : string)
    (auth : AuthResult) (listingId : option Z) (body : JsError + bool)
    : Promise Reply :=
  Promise.try_catch
    (match auth with
     | AuthError message => mret (mkReply 401 (ErrorReply message))
     | Authenticated session =>
         match listingId with
         | None => mret (mkReply 400 (ErrorReply "Invalid listing ID"))
         | Some listingId =>
             match body with
             | inl error => Promise.throw error
             | inr isPaid =>
                 (* For paid bumps, payment will be handled through webhook *)
                 if negb isPaid then
                   bumpedListing ← BumpService.bumpListing checkedAt now nowIso
                     (mkBumpListingInput listingId (s_userId session) false);
                   mret (mkReply 200 (ListingReply bumpedListing))
                 else
                   mret (mkReply 200
                           (MessageReply
                              "Paid bump requires payment - to be implemented with Telegram Stars"))
             end
         end
     end)
    (fun error =>
       Promise.console_error "Error bumping listing:";;
       mret (mkReply 500 (ErrorReply (message_of error)))).

(** [archiveListing]; [body] is what [c.req.json()] and the reading of
    [body.reason] come to: an error, or the reason when it is a string. *)
Definition archiveListing (env : Env) (now : string)
    (auth : AuthResult) (listingId : option Z) (body : JsError + option string)
    : Promise Reply :=
  Promise.try_catch
    (match auth with
     | AuthError message => mret (mkReply 401 (ErrorReply message))
     | Authenticated session =>
         (* Admin only *)
         if negb (bool_decide (role session = "admin")) then
           mret (mkReply 403 (ErrorReply "Admin access required"))
         else
           match listingId with
           | None => mret (mkReply 400 (ErrorReply "Invalid listing ID"))
           | Some listingId =>
               match body with
               | inl error => Promise.throw error
               | inr reason =>
                   match truthy_string reason with
                   | None => mret (mkReply 400 (ErrorReply "Reason is required"))
                   | Some reason =>
                       result ← AdminService.archiveListing env now listingId reason;
                       if negb (success result) then
                         mret (mkReply 500
                                 (ErrorReply
                                    (or_else (a_error result) "Failed to archive listing")))
                       else
                         mret (mkReply 200
                                 (ArchivedReply "Listing archived successfully"
                                    (a_listing result)))
                   end
               end
           end
     end)
    (fun error =>
       Promise.console_error "Error archiving listing:";;
       mret (mkReply 500 (ErrorReply "Failed to archive listing"))).

End Api.

(** ** services/image-service.ts: the reads of the image table *)

Module ImageService.

Definition getListingImages (listingId : Z) : Promise (list ImageUrlData) :=
  Promise.query (fun d =>
    (fun image =>
       mkImageUrlData (ListingImage.id image) (ListingImage.imageKey image)
         (ListingImage.thumbnailKey image) (ListingImage.width image)
         (ListingImage.height image) (ListingImage.originalName image)
         (ListingImage.fileSize image) (ListingImage.uploadOrder image))
    <$> Sql.orderBy ListingService.byUploadOrder
          (Sql.where_ (Sql.eq listingImages_.listingId listingId) (listingImages d))).

(** [select({ count: listingImages.id })] selects the id column under the
    name [count]; the first row of the result is read. The query has no
    ORDER BY: [scan] puts the rows that match in the order in which the
    store answers. *)
Definition getListingImageCount (scan : list ListingImage.t -> list ListingImage.t)
    (listingId : Z) : Promise Z :=
  Promise.query (fun d =>
    let result :=
      head (ListingImage.id
              <$> scan (Sql.where_ (Sql.eq listingImages_.listingId listingId)
                          (listingImages d))) in
    default 0 (truthy_number result)).

(** [buffer.byteLength] stands for the buffer. *)
Definition validateImageFile (byteLength : Z) (mimeType : string) : Promise bool :=
  (* Check file size (1MB limit for full images) *)
  if (1024 * 1024 <? byteLength)%Z then mret false
  else
    let allowedTypes := ["image/jpeg"; "image/png"; "image/webp"] in
    if negb (bool_decide (mimeType ∈ allowedTypes)) then mret false
    else mret true.

Definition validateThumbnailFile (byteLength : Z) : Promise bool :=
  (* Check minimum file size (at least 1KB to ensure valid image) *)
  if (byteLength <? 1024)%Z then mret false
  else mret (byteLength <=? 150 * 1024)%Z.

End ImageService.

(** ** frontend: pages/ListingDetail.tsx and constants.ts

    The listing of the page is the row the API returned; [now] is the
    reading of [Date.now()]. *)

Module ListingDetail.

Definition canBump (listing : option Listing.t) (now : Z) : bool :=
  match listing ≫= fun l => truthy_number (Listing.lastBumpedAt l) with
  | None => true
  | Some lastBumpedAt =>
      let hoursSinceLastBump := BumpService.hoursSinceLastBump now lastBumpedAt in
      Qle_bool (inject_Z BUMP_COOLDOWN_HOURS) hoursSinceLastBump
  end.

Definition getTimeUntilNextBump (listing : option Listing.t) (now : Z) : Z :=
  match listing ≫= fun l => truthy_number (Listing.lastBumpedAt l) with
  | None => 0
  | Some lastBumpedAt =>
      let hoursSinceLastBump := BumpService.hoursSinceLastBump now lastBumpedAt in
      Z.max 0 (Qceiling (inject_Z BUMP_COOLDOWN_HOURS - hoursSinceLastBump))
  end.

End ListingDetail.

Module FrontendConstants.

Record Category : Type := mkCategory {
  cat_id : string;
  cat_name : string;
  emoji : string
}.

Definition CATEGORIES : list Category := [
  mkCategory "electronics" "Electronics" "📱";
  mkCategory "clothing" "Clothing" "👕";
  mkCategory "furniture" "Furniture" "🛋️";
  mkCategory "books" "Books" "📚";
  mkCategory "toys" "Toys" "🧸";
  mkCategory "sports" "Sports" "⚽";
  mkCategory "tools" "Tools" "🔧";
  mkCategory "home" "Home & Garden" "🏡";
  mkCategory "automotive" "Automotive" "🚗";
  mkCategory "other" "Other" "📦"
].

Definition getCategoryById (id : string) : option Category :=
  List.find (fun cat => bool_decide (cat_id cat = id)) CATEGORIES.

Definition formatTimeRemaining (now expiresAt : Z) : string :=
  let diff := expiresAt - now in
  if (diff <=? 0)%Z then "Expired"
  else
    let days := diff / (1000 * 60 * 60 * 24) in
    let hours := Z.rem diff (1000 * 60 * 60 * 24) / (1000 * 60 * 60) in
    let minutes := Z.rem diff (1000 * 60 * 60) / (1000 * 60) in
    if (0 <? days)%Z then
      number_to_string days +:+ "d " +:+ number_to_string hours +:+ "h"
    else if (0 <? hours)%Z then
      number_to_string hours +:+ "h " +:+ number_to_string minutes +:+ "m"
    else number_to_string minutes +:+ "m".

Definition getTimeRemainingColor (now expiresAt : Z) : string :=
  let diff := expiresAt - now in
  let hours := (inject_Z diff / inject_Z (1000 * 60 * 60))%Q in
  if Qltb 24 hours then "text-green-600"
  else if Qltb 1 hours then "text-yellow-600"
  else "text-red-600".

End FrontendConstants.

(** ** Vocabulary of the properties *)

(** The listing a request addresses by id: the row the services read
    with [where(eq(listings.id, id)).limit(1)]. *)
Definition findListing (id : Z) (d : Database) : option Listing.t :=
  head (filter (fun r => Listing.id r = id) (listings d)).

(** Two rows with the same identity, content and payment columns: all
    but [status], [expiresAt], [lastBumpedAt], [bumpCount] and
    [updatedAt]. *)
Definition same_item (r r' : Listing.t) : Prop :=
  Listing.id r' = Listing.id r
  ∧ Listing.userId r' = Listing.userId r
  ∧ Listing.username r' = Listing.username r
  ∧ Listing.displayName r' = Listing.displayName r
  ∧ Listing.title r' = Listing.title r
  ∧ Listing.content r' = Listing.content r
  ∧ Listing.price r' = Listing.price r
  ∧ Listing.category r' = Listing.category r
  ∧ Listing.starCount r' = Listing.starCount r
  ∧ Listing.paymentId r' = Listing.paymentId r
  ∧ Listing.isPaymentPending r' = Listing.isPaymentPending r
  ∧ Listing.createdAt r' = Listing.createdAt r.

(** Two rows with the same expiry and bump columns. *)
Definition same_bumps (r r' : Listing.t) : Prop :=
  Listing.expiresAt r' = Listing.expiresAt r
  ∧ Listing.lastBumpedAt r' = Listing.lastBumpedAt r
  ∧ Listing.bumpCount r' = Listing.bumpCount r.

(** A day and an hour in milliseconds. *)
Definition day : Z := 24 * 60 * 60 * 1000.
Definition hour : Z := 60 * 60 * 1000.

(** A listing the sweep at [now] has to expire. *)
Definition due (now : Z) (r : Listing.t) : Prop :=
  Listing.status r = active ∧ Listing.expiresAt r <= now.

#[global] Instance due_dec now r : Decision (due now r).
Proof. unfold due. apply _. Defined.

(** The decision of [canBumpListing], read off the database. *)
Definition eligibility (now id userId : Z) (d : Database) : Eligibility :=
  match findListing id d with
  | None => mkEligibility false (Some "Listing not found") None
  | Some l =>
      if negb (bool_decide (Listing.userId l = userId)) then
        mkEligibility false (Some "You don't own this listing") None
      else
        match truthy_number (Listing.lastBumpedAt l) with
        | Some last =>
            let h := BumpService.hoursSinceLastBump now last in
            if Qltb h (inject_Z BUMP_COOLDOWN_HOURS) then
              let n := Qceiling (inject_Z BUMP_COOLDOWN_HOURS - h) in
              mkEligibility false
                (Some ("You can bump again in " +:+ number_to_string n +:+ " hour(s)"))
                (Some n)
            else mkEligibility true None None
        | None => mkEligibility true None None
        end
  end.

(** [r'] is [r] after a bump at [now]: every column the bump writes has
    its new value, and no other column has changed. *)
Definition bumped_from (paid : bool) (now : Z) (nowIso : string) (r r' : Listing.t)
    : Prop :=
  Listing.expiresAt r' = now + (if paid then 7 else 3) * day
  ∧ Listing.lastBumpedAt r' = Some now
  ∧ Listing.bumpCount r' = Listing.bumpCount r + 1
  ∧ Listing.status r' = active
  ∧ Listing.updatedAt r' = nowIso
  ∧ same_item r r'.

(** The world a successful bump leaves. *)
Definition bumped_world (now : Z) (nowIso : string) (input : BumpListingInput)
    (w : World) : World :=
  let newExpiresAt :=
    now + (if isPaid input then EXPIRY_PAID_BUMP_DAYS else EXPIRY_FREE_BUMP_DAYS)
          * 24 * 60 * 60 * 1000 in
  let d :=
    mkDatabase
      ((fun r =>
          if decide (Listing.id r = listingId input)
          then BumpService.setBumped newExpiresAt now nowIso r else r)
         <$> listings (db w))
      (userProfiles (db w)) (listingImages (db w)) in
  mkWorld d (d :: statements w) (console w) (network w) (outbox w).

(** A world around a database: nothing written or logged yet, and a
    Telegram endpoint that answers [ok]. *)
Definition world_of (d : Database) : World :=
  mkWorld d [] [] (fun _ => Json true) [].

(** The search term is found in a field: the field is LIKE the term
    between two [%]. *)
Definition searchHit (term field : string) : Prop :=
  Sql.like_match (list_ascii_of_string ("%" +:+ term +:+ "%"))
    (list_ascii_of_string field) = true.

(** What the filters of a list query ask of a listing. *)
Definition passes (input : GetListingsInput) (r : Listing.t) : Prop :=
  match status input with
  | Some (s :: ss) => Listing.status r ∈ s :: ss
  | _ => Listing.status r = active
  end
  ∧ (∀ c, truthy_string (category input) = Some c → Listing.category r = c)
  ∧ (∀ p, priceMin input = Some p → p <= Listing.price r)
  ∧ (∀ p, priceMax input = Some p → Listing.price r <= p)
  ∧ (∀ u, userId input = Some u → Listing.userId r = u)
  ∧ (∀ term, truthy_string (search input) = Some term →
       searchHit term (Listing.title r)
       ∨ searchHit term (Listing.content r)
       ∨ searchHit term (Listing.category r)).

(** The order the query asks for, between a row and a later row. *)
Definition in_order (input : GetListingsInput) (a b : Listing.t) : Prop :=
  match sortBy input, sortOrder input with
  | Some price, Some asc => Listing.price a <= Listing.price b
  | Some price, _ => Listing.price b <= Listing.price a
  | _, Some asc => String.leb (Listing.createdAt a) (Listing.createdAt b) = true
  | _, _ => String.leb (Listing.createdAt b) (Listing.createdAt a) = true
  end.

(** The same query for another page. *)
Definition page (input : GetListingsInput) (limit' offset' : Z) : GetListingsInput :=
  mkGetListingsInput limit' offset' (category input)
    (priceMin input) (priceMax input) (search input)
    (sortBy input) (sortOrder input) (status input) (userId input).

(** The owner of the listing has a profile that is not banned. *)
Definition listed_owner (d : Database) (l : Listing.t) : Prop :=
  ∃ p, p ∈ userProfiles d
       ∧ UserProfile.telegramId p = Listing.userId l
       ∧ UserProfile.isBanned p = 0.

(** A character of a search term that LIKE reads as itself. *)
Definition literal (c : ascii) : Prop := c ≠ "%"%char ∧ c ≠ "_"%char.

(** [mid] is [term] up to the case of the ASCII letters. *)
Definition same_letters (term mid : list ascii) : Prop :=
  Sql.lower <$> mid = Sql.lower <$> term.

(** What the model asks of the rounding to a double: it is monotone, and
    it keeps the rationals [m / 2^k] with [|m| < 2^53] and [k] from 0 to
    30, which are doubles. *)
Definition rounds_to_double (double : Q -> Q) : Prop :=
  (∀ x y, (x <= y)%Q → (double x <= double y)%Q)
  ∧ (∀ m k, Z.abs m < 2 ^ 53 → 0 <= k <= 30 →
       (double (inject_Z m / inject_Z (2 ^ k)) == inject_Z m / inject_Z (2 ^ k))%Q).

(** What the model asks of the order in which the store answers a query
    without ORDER BY: the rows are those that match, each once. *)
Definition answers_in_some_order {R : Type} (scan : list R -> list R) : Prop :=
  ∀ t, scan t ≡ₚ t.

(** A minute in milliseconds. *)
Definition minute : Z := 60 * 1000.

(** The last character of a string. *)
Fixpoint last_char (s : string) : option ascii :=
  match s with
  | EmptyString => None
  | String c EmptyString => Some c
  | String _ s' => last_char s'
  end.

(** ** Sample data *)

Module Sample.

(** 2023-11-14T22:13:20Z *)
Definition t0 : Z := 1700000000000.

Definition bike (st : ListingStatus) (expiresAt : Z) (lastBumpedAt : option Z)
    (bumpCount : Z) : Listing.t :=
  Listing.mk 1 7 "alice" "Alice" "Bike" "A road bike" 15000 "sports"
    st expiresAt lastBumpedAt bumpCount 0 None 0
    "2023-11-14T22:13:20.000Z" "2023-11-14T22:13:20.000Z".

Definition lamp (st : ListingStatus) (expiresAt : Z) : Listing.t :=
  Listing.mk 2 8 "bob" "Bob" "Lamp" "A desk lamp" 2000 "home"
    st expiresAt None 0 0 None 0
    "2023-11-13T10:00:00.000Z" "2023-11-13T10:00:00.000Z".

Definition alice (banned : Z) : UserProfile.t :=
  UserProfile.mk 1 7 (Some "alice") (Some "Alice A.") None None None None banned
    "2023-11-01T00:00:00.000Z" "2023-11-01T00:00:00.000Z".

Definition store (ls : list Listing.t) (ps : list UserProfile.t) : World :=
  world_of (mkDatabase ls ps []).

Definition no_filters : GetListingsInput :=
  mkGetListingsInput 50 0 None None None None (Some date) (Some desc) None None.

Definition admin : Session := mkSession 99 "admin".

Definition iso : string := "2023-11-14T22:13:20.000Z".
Definition iso' : string := "2023-11-15T22:13:20.000Z".

(** Alice asks for a free and for a paid bump of her bike. *)
Definition free_bump : BumpListingInput := mkBumpListingInput 1 7 false.
Definition paid_bump : BumpListingInput := mkBumpListingInput 1 7 true.

(** A fresh bike that expires in three days and a lamp that is overdue. *)
Definition fresh : World :=
  store [bike active (t0 + 3 * day) None 0; lamp active (t0 - day)] [alice 0].

(** The bike after a bump at [t0]. *)
Definition bumped : World :=
  store [bike active (t0 + 3 * day) (Some t0) 1] [alice 0].

(** The bike archived by an administrator, its expiry a day past. *)
Definition moderated : World :=
  store [bike archived (t0 - day) None 0] [alice 0].

Definition bob : UserProfile.t :=
  UserProfile.mk 2 8 (Some "bob") None None None None None 0
    "2023-11-02T00:00:00.000Z" "2023-11-02T00:00:00.000Z".

Definition novel : Listing.t :=
  Listing.mk 3 7 "alice" "Alice" "Novel" "A paperback" 900 "books"
    active (t0 + 2 * day) None 0 0 None 0
    "2023-11-14T23:00:00.000Z" "2023-11-14T23:00:00.000Z".

(** Three active listings of two users with profiles. *)
Definition market : World :=
  store [bike active (t0 + 3 * day) None 0; lamp active (t0 + day); novel]
    [alice 0; bob].

(** A rounding that keeps 40 binary digits after the point, downwards. *)
Definition fixed (q : Q) : Q :=
  (inject_Z (Qfloor (q * inject_Z (2 ^ 40))) / inject_Z (2 ^ 40))%Q.

(** A photo of the bike. *)
Definition photo (id uploadOrder : Z) : ListingImage.t :=
  ListingImage.mk id 1 "bike.jpg" "images/bike.jpg" "thumbs/bike.jpg" "image/jpeg"
    200000 800 600 uploadOrder iso.

(** The store after a paid bump of the fresh bike at [t0]. *)
Definition after_paid_bump : World :=
  (BumpService.bumpListing t0 t0 iso paid_bump fresh).2.

End Sample.

(** ** Properties of the query operators *)

Section SqlFacts.
Context {R : Type}.
Implicit Types (c : Sql.SQL R) (cs : list (Sql.SQL R)) (r : R) (t : list R).

Lemma holds_and_ cs r :
  Sql.holds (Sql.and_ cs) r ↔ Forall (fun c => Sql.holds c r) cs.
Proof.
  unfold Sql.holds, Sql.and_. induction cs as [|c cs IH]; simpl.
  - split; [constructor | done].
  - rewrite Forall_cons, <- IH.
    destruct (c r) as [[]|], (foldr _ _ cs) as [[]|]; simpl; intuition congruence.
Qed.

Lemma holds_or_ c cs r :
  Sql.holds (Sql.or_ (c :: cs)) r ↔ Exists (fun c' => Sql.holds c' r) (c :: cs).
Proof.
  unfold Sql.holds, Sql.or_. generalize (c :: cs). clear c cs.
  intros cs. induction cs as [|c cs IH]; simpl.
  - split; [done | by intros ?%Exists_nil].
  - rewrite Exists_cons, <- IH.
    destruct (c r) as [[]|], (foldr _ _ cs) as [[]|]; simpl; intuition congruence.
Qed.

Lemma holds_eq {A : Type} `{EqDecision A} (col : R -> option A) (v : A) r :
  Sql.holds (Sql.eq col v) r ↔ col r = Some v.
Proof.
  unfold Sql.holds, Sql.eq. destruct (col r) as [x|]; simpl; [|done].
  case_bool_decide; split; congruence.
Qed.

Lemma holds_lte (col : R -> option Z) (v : Z) r :
  Sql.holds (Sql.lte col v) r ↔ ∃ x, col r = Some x ∧ (x <= v)%Z.
Proof.
  unfold Sql.holds, Sql.lte. destruct (col r) as [x|]; simpl.
  - destruct (Z.leb_spec x v); split; try done.
    + intros _. by exists x.
    + intros (y & [= <-] & ?). lia.
  - split; [done | by intros (y & ? & _)].
Qed.

Lemma elem_of_limit_offset n m t r : r ∈ Sql.limit_offset n m t → r ∈ t.
Proof.
  unfold Sql.limit_offset, Sql.limit, Sql.offset. intros Hr.
  apply (subseteq_drop (Z.to_nat m)).
  destruct (n <? 0)%Z; [done|]. by apply (subseteq_take (Z.to_nat n)).
Qed.

Lemma elem_of_orderBy (le : relation R) `{∀ x y, Decision (le x y)} t r :
  r ∈ Sql.orderBy le t ↔ r ∈ t.
Proof. unfold Sql.orderBy. by rewrite merge_sort_Permutation. Qed.

Lemma elem_of_where_ c t r : r ∈ Sql.where_ c t ↔ Sql.holds c r ∧ r ∈ t.
Proof. apply list_elem_of_filter. Qed.

Lemma update_none (f : R -> R) c t :
  (∀ r, r ∈ t → ¬ Sql.holds c r) → Sql.update f c t = (t, []).
Proof.
  intros Hno. unfold Sql.update. f_equal.
  - induction t as [|r t IH]; [done|]. rewrite fmap_cons.
    rewrite decide_False by (apply Hno; left).
    f_equal. apply IH. intros r' Hr'. apply Hno. by right.
  - induction t as [|r t IH]; [done|].
    rewrite filter_cons_False by (apply Hno; left).
    apply IH. intros r' Hr'. apply Hno. by right.
Qed.

End SqlFacts.

Lemma elem_of_leftJoin {A B : Type} (on : Sql.SQL (A * option B))
    (ta : list A) (tb : list B) (a : A) (ob : option B) :
  (a, ob) ∈ Sql.leftJoin on ta tb →
  a ∈ ta ∧
  match ob with
  | Some b => b ∈ tb ∧ Sql.holds on (a, Some b)
  | None => ∀ b, b ∈ tb → ¬ Sql.holds on (a, Some b)
  end.
Proof.
  unfold Sql.leftJoin. rewrite list_elem_of_bind.
  intros (a' & Hin & Ha'). split.
  - destruct (filter _ tb) as [|b0 bs] eqn:Hf.
    + apply list_elem_of_singleton in Hin. by inversion Hin; subst.
    + apply list_elem_of_fmap in Hin as (b & [= -> ->] & _). done.
  - destruct (filter _ tb) as [|b0 bs] eqn:Hf.
    + apply list_elem_of_singleton in Hin. inversion Hin; subst.
      intros b Hb Hon.
      assert (b ∈ filter (fun b => Sql.holds on (a', Some b)) tb) as Hbf
        by (by apply list_elem_of_filter).
      rewrite Hf in Hbf. by apply not_elem_of_nil in Hbf.
    + apply list_elem_of_fmap in Hin as (b & [= -> ->] & Hb).
      rewrite <- Hf in Hb. apply list_elem_of_filter in Hb as [? ?]. done.
Qed.

(** The query by id reads the addressed listing. *)
Lemma where_id_head (id : Z) (d : Database) :
  head (Sql.limit 1 (Sql.where_ (Sql.eq listings_.id id) (listings d)))
  = findListing id d.
Proof.
  unfold findListing, Sql.where_, Sql.limit. simpl.
  rewrite (list_filter_iff _ (fun r => Listing.id r = id)).
  - by destruct (filter _ _).
  - intros r. rewrite holds_eq. unfold listings_.id. split; congruence.
Qed.

(** ** The expiry sweep *)

Lemma update_ext {R : Type} (f : R -> R) (c : Sql.SQL R) (P : R -> Prop)
    `{∀ r, Decision (P r)} (t : list R) :
  (∀ r, Sql.holds c r ↔ P r) →
  Sql.update f c t = ((fun r => if decide (P r) then f r else r) <$> t, f <$> filter P t).
Proof.
  intros Hc. unfold Sql.update. f_equal.
  - apply list_fmap_ext. intros _ r _. by rewrite (decide_ext _ _ _ _ (Hc r)).
  - f_equal. by apply list_filter_iff.
Qed.

Lemma holds_due now r :
  Sql.holds
    (Sql.and_ [Sql.eq listings_.status LISTING_STATUS.ACTIVE;
               Sql.lte listings_.expiresAt now]) r
  ↔ due now r.
Proof.
  rewrite holds_and_, !Forall_cons, Forall_nil, holds_eq, holds_lte.
  unfold due, listings_.status, listings_.expiresAt, LISTING_STATUS.ACTIVE.
  split.
  - intros ([= ->] & (x & [= <-] & ?) & _). done.
  - intros [-> ?]. eauto.
Qed.

Lemma expireOldListings_run now nowIso w :
  ListingService.expireOldListings now nowIso w
  = let d :=
      mkDatabase
        ((fun r => if decide (due now r) then ListingService.setExpired nowIso r else r)
           <$> listings (db w))
        (userProfiles (db w)) (listingImages (db w)) in
    (inr (ListingService.setExpired nowIso <$> filter (due now) (listings (db w))),
     mkWorld d (d :: statements w) (console w) (network w) (outbox w)).
Proof.
  unfold ListingService.expireOldListings, Promise.execute.
  by rewrite (update_ext _ _ (due now)) by apply holds_due.
Qed.

Lemma setExpired_not_due nowIso now r : ¬ due now (ListingService.setExpired nowIso r).
Proof. by intros [? _]. Qed.

(** ** The bump *)

(** The cooldown test on integers: the quotient in hours is below 24
    exactly when the difference in milliseconds is below 24 hours. *)
Lemma Qltb_hours now last :
  Qltb (BumpService.hoursSinceLastBump now last) (inject_Z BUMP_COOLDOWN_HOURS) = true
  ↔ now - last < BUMP_COOLDOWN_HOURS * hour.
Proof.
  unfold Qltb, BumpService.hoursSinceLastBump, BUMP_COOLDOWN_HOURS, hour.
  rewrite negb_true_iff, <- not_true_iff_false, Qle_bool_iff.
  unfold Qle, Qdiv, Qmult, Qinv, inject_Z. simpl. lia.
Qed.

Lemma canBumpListing_eligibility now id userId w :
  BumpService.canBumpListing now id userId w = (inr (eligibility now id userId (db w)), w).
Proof.
  unfold BumpService.canBumpListing, eligibility, mbind, Promise_bind, Promise.bind,
    Promise.query.
  rewrite where_id_head. destruct (findListing id (db w)) as [l|]; [|done].
  destruct (negb _); [done|].
  destruct (truthy_number _); [|done]. simpl.
  by destruct (Qltb _ _).
Qed.

Lemma holds_id id r : Sql.holds (Sql.eq listings_.id id) r ↔ Listing.id r = id.
Proof. rewrite holds_eq. unfold listings_.id. split; congruence. Qed.

Lemma bumpListing_run checkedAt now nowIso input w :
  BumpService.bumpListing checkedAt now nowIso input w
  = let e := eligibility checkedAt (listingId input) (b_userId input) (db w) in
    if canBump e then
      let newExpiresAt :=
        now + (if isPaid input then EXPIRY_PAID_BUMP_DAYS else EXPIRY_FREE_BUMP_DAYS)
              * 24 * 60 * 60 * 1000 in
      (inr (BumpService.setBumped newExpiresAt now nowIso
              <$> findListing (listingId input) (db w)),
       bumped_world now nowIso input w)
    else (inl (Error (or_else (reason e) "Cannot bump listing")), w).
Proof.
  unfold BumpService.bumpListing, mbind, Promise_bind, Promise.bind.
  rewrite canBumpListing_eligibility. cbv beta iota zeta.
  destruct (canBump _); cbn [negb]; [|done].
  unfold Promise.execute, bumped_world.
  rewrite (update_ext _ _ (fun r => Listing.id r = listingId input))
    by (intros r; apply holds_id).
  cbv beta iota zeta. unfold mret, Promise_ret, Promise.ret, findListing.
  f_equal. f_equal. by destruct (filter _ _).
Qed.

(** The decision allows the bump exactly when the listing exists, the
    requester owns it and no cooldown is running. *)
Lemma canBump_iff now id userId d :
  canBump (eligibility now id userId d) = true
  ↔ ∃ l, findListing id d = Some l
         ∧ Listing.userId l = userId
         ∧ ∀ last, truthy_number (Listing.lastBumpedAt l) = Some last →
                   BUMP_COOLDOWN_HOURS * hour <= now - last.
Proof.
  unfold eligibility. destruct (findListing id d) as [l|]; simpl.
  - case_bool_decide as Hown; simpl.
    + destruct (truthy_number _) as [last|] eqn:Hlast; simpl.
      * destruct (Qltb _ _) eqn:Hq; simpl.
        -- apply Qltb_hours in Hq. split; [done|].
           intros (l' & [= <-] & _ & Hcool). specialize (Hcool _ Hlast). lia.
        -- assert (¬ now - last < BUMP_COOLDOWN_HOURS * hour) as Hge
             by (rewrite <- Qltb_hours; congruence).
           split; [|done]. intros _. exists l. split_and!; [done..|].
           intros last' Hl'. assert (last' = last) as -> by congruence. lia.
      * split; [|done]. intros _. exists l. split_and!; [done..|]. congruence.
    + split; [done|]. by intros (l' & [= <-] & ? & _).
  - split; [done|]. by intros (? & ? & _).
Qed.

Lemma setBumped_bumped_from paid now nowIso r :
  bumped_from paid now nowIso r
    (BumpService.setBumped
       (now + (if paid then EXPIRY_PAID_BUMP_DAYS else EXPIRY_FREE_BUMP_DAYS)
              * 24 * 60 * 60 * 1000) now nowIso r).
Proof.
  unfold bumped_from, same_item, day. simpl.
  split_and!; try done. destruct paid; unfold EXPIRY_PAID_BUMP_DAYS, EXPIRY_FREE_BUMP_DAYS; lia.
Qed.

(** What a successful bump returns and leaves. *)
Lemma bumpListing_inr checkedAt now nowIso input w res w' :
  BumpService.bumpListing checkedAt now nowIso input w = (inr res, w') →
  canBump (eligibility checkedAt (listingId input) (b_userId input) (db w)) = true
  ∧ w' = bumped_world now nowIso input w
  ∧ ∃ old, findListing (listingId input) (db w) = Some old
           ∧ res = Some (BumpService.setBumped
                           (now + (if isPaid input then EXPIRY_PAID_BUMP_DAYS
                                   else EXPIRY_FREE_BUMP_DAYS) * 24 * 60 * 60 * 1000)
                           now nowIso old).
Proof.
  rewrite bumpListing_run. simpl.
  destruct (canBump _) eqn:He; [|done].
  intros [= <- <-]. split_and!; [done..|].
  apply canBump_iff in He as (l & Hl & _). exists l. by rewrite Hl.
Qed.

(** ** The lifecycle properties *)

(** C4. One sweep at [now] rewrites exactly the rows that are active and
    due ([expiresAt <= now]): they become expired with [updatedAt] set to
    the time of the sweep, and they are the rows returned; every other
    row, and every other table, is left as it was, in a single statement.
    A second sweep at the same instant returns no row and leaves the
    database as the first left it, and no later sweep returns a row the
    first one expired. *)
Theorem sweep_correct_idempotent (now : Z) (nowIso : string) (w : World) :
  ∃ swept w1,
    ListingService.expireOldListings now nowIso w = (inr swept, w1)
    ∧ statements w1 = db w1 :: statements w
    ∧ userProfiles (db w1) = userProfiles (db w)
    ∧ listingImages (db w1) = listingImages (db w)
    ∧ length (listings (db w1)) = length (listings (db w))
    ∧ (∀ i r, listings (db w) !! i = Some r →
         ∃ r', listings (db w1) !! i = Some r'
               ∧ if decide (Listing.status r = active ∧ Listing.expiresAt r <= now)
                 then Listing.status r' = expired
                      ∧ Listing.updatedAt r' = nowIso
                      ∧ same_item r r' ∧ same_bumps r r'
                 else r' = r)
    ∧ swept
      = ListingService.setExpired nowIso
          <$> filter (fun r => Listing.status r = active ∧ Listing.expiresAt r <= now)
                (listings (db w))
    ∧ (∀ nowIso2, ∃ w2,
         ListingService.expireOldListings now nowIso2 w1 = (inr [], w2)
         ∧ db w2 = db w1)
    ∧ (∀ now2 nowIso2 swept2 w2 r,
         ListingService.expireOldListings now2 nowIso2 w1 = (inr swept2, w2) →
         r ∈ swept2 → now < Listing.expiresAt r).
Proof.
  rewrite expireOldListings_run. cbv zeta. eexists _, _. split; [reflexivity|].
  cbn [db statements userProfiles listingImages listings].
  split_and!; try done.
  - by rewrite length_fmap.
  - intros i r Hr. rewrite list_lookup_fmap, Hr. simpl. eexists. split; [done|].
    unfold due. destruct (decide _); [|done]. by split_and!.
  - intros nowIso2. unfold ListingService.expireOldListings at 1, Promise.execute.
    cbn [db statements userProfiles listingImages listings console network outbox].
    rewrite update_none; [eexists; split; reflexivity|].
    intros r (r0 & -> & _)%list_elem_of_fmap. rewrite holds_due.
    destruct (decide (due now r0)); [apply setExpired_not_due | done].
  - intros now2 nowIso2 swept2 w2 r. rewrite expireOldListings_run. cbv zeta.
    cbn [db listings]. intros [= <- _].
    intros (r1 & -> & [[Hact Hexp] Hin]%list_elem_of_filter)%list_elem_of_fmap.
    apply list_elem_of_fmap in Hin as (r0 & Hr1 & _).
    destruct (decide (due now r0)) as [|Hnd]; subst r1; [done|].
    simpl. destruct (decide (Listing.expiresAt r0 <= now)); [|lia].
    destruct Hnd. by split.
Qed.

(** The sweep expires the overdue lamp and leaves the fresh bike. *)
Lemma sweep_correct_idempotent_witness :
  ∃ swept w1,
    ListingService.expireOldListings Sample.t0 Sample.iso Sample.fresh = (inr swept, w1)
    ∧ Listing.status <$> listings (db w1) = [active; expired]
    ∧ Listing.id <$> swept = [2].
Proof.
  destruct (sweep_correct_idempotent Sample.t0 Sample.iso Sample.fresh)
    as (swept & w1 & Hrun & _).
  exists swept, w1. split; [exact Hrun|].
  vm_compute in Hrun. injection Hrun as <- <-. split; reflexivity.
Defined.

(** A rewrite of the listings that keeps the ids keeps the addressed
    listing. *)
Lemma findListing_fmap (g : Listing.t -> Listing.t) id t ps ims :
  (∀ r, Listing.id (g r) = Listing.id r) →
  findListing id (mkDatabase (g <$> t) ps ims) = g <$> findListing id (mkDatabase t ps ims).
Proof.
  intros Hid. unfold findListing. simpl. induction t as [|r t IH]; [done|].
  rewrite fmap_cons. destruct (decide (Listing.id r = id)) as [Hr|Hr].
  - rewrite !filter_cons_True by (by rewrite ?Hid). done.
  - rewrite !filter_cons_False by (by rewrite ?Hid). done.
Qed.

(** C2. A successful bump at [now] returns the addressed listing with
    [expiresAt] at [now] plus three days (free) or seven days (paid),
    whatever it was before, [lastBumpedAt] at [now], one more bump counted
    and status active. The store receives these values in one statement:
    the only database written is the final one, in which every row with
    the id carries all of them and every other row is untouched. *)
Theorem bump_absolute_reset (checkedAt now : Z) (nowIso : string)
    (input : BumpListingInput) (w : World) (res : option Listing.t) (w' : World) :
  BumpService.bumpListing checkedAt now nowIso input w = (inr res, w') →
  ∃ old new,
    findListing (listingId input) (db w) = Some old
    ∧ res = Some new
    ∧ Listing.expiresAt new = (if isPaid input then now + 7 * day else now + 3 * day)
    ∧ Listing.lastBumpedAt new = Some now
    ∧ Listing.bumpCount new = Listing.bumpCount old + 1
    ∧ Listing.status new = active
    ∧ findListing (listingId input) (db w') = Some new
    ∧ statements w' = db w' :: statements w
    ∧ ∀ i r, listings (db w) !! i = Some r →
        ∃ r', listings (db w') !! i = Some r'
              ∧ if decide (Listing.id r = listingId input)
                then bumped_from (isPaid input) now nowIso r r'
                else r' = r.
Proof.
  intros (_ & -> & old & Hold & ->)%bumpListing_inr.
  eexists old, _. split; [done|]. split; [reflexivity|].
  pose proof (setBumped_bumped_from (isPaid input) now nowIso old)
    as (Hexp & Hlast & Hcount & Hst & _).
  split_and!; try done.
  - rewrite Hexp. by destruct (isPaid input).
  - unfold bumped_world. cbn [db].
    destruct (db w) as [t ps ims] eqn:Hdb. cbn [listings userProfiles listingImages].
    rewrite (findListing_fmap
               (fun r => if decide (Listing.id r = listingId input) then _ else r)).
    + rewrite Hold. simpl. rewrite decide_True; [done|].
      unfold findListing in Hold. apply head_Some_elem_of in Hold.
      by apply list_elem_of_filter in Hold as [? _].
    + intros r. by destruct (decide _).
  - intros i r Hr. unfold bumped_world. cbn [db listings].
    rewrite list_lookup_fmap, Hr. simpl. eexists. split; [done|].
    destruct (decide _); [apply setBumped_bumped_from | done].
Qed.

(** A free bump of the fresh bike at [t0]. *)
Lemma bump_absolute_reset_witness :
  ∃ new,
    (BumpService.bumpListing Sample.t0 Sample.t0 Sample.iso
       Sample.free_bump Sample.fresh).1 = inr (Some new)
    ∧ Listing.expiresAt new = Sample.t0 + 3 * day
    ∧ Listing.bumpCount new = 1.
Proof.
  destruct (BumpService.bumpListing Sample.t0 Sample.t0 Sample.iso
              Sample.free_bump Sample.fresh) as [[e|res] w'] eqn:Hrun.
  { vm_compute in Hrun. discriminate Hrun. }
  destruct (bump_absolute_reset _ _ _ _ _ _ _ Hrun)
    as (old & new & Hold & -> & Hexp & _ & Hcount & _).
  exists new. split; [reflexivity|]. split; [exact Hexp|].
  vm_compute in Hold. injection Hold as <-. exact Hcount.
Defined.

(** C3. Past the first day of the epoch, a bump succeeds exactly when the
    listing exists, the requester owns it and either it was never bumped
    or the last bump is at least 24 hours old. During the cooldown the
    eligibility check reports, and the bump throws, "You can bump again in
    N hour(s)" with N the ceiling of 24 minus the hours since the last
    bump. *)
Theorem bump_cooldown_enforcement (checkedAt now : Z) (nowIso : string)
    (input : BumpListingInput) (w : World) :
  BUMP_COOLDOWN_HOURS * hour <= checkedAt →
  ((∃ res w', BumpService.bumpListing checkedAt now nowIso input w = (inr res, w'))
   ↔ ∃ l, findListing (listingId input) (db w) = Some l
          ∧ Listing.userId l = b_userId input
          ∧ (Listing.lastBumpedAt l = None
             ∨ ∃ last, Listing.lastBumpedAt l = Some last
                       ∧ 24 * hour <= checkedAt - last))
  ∧ ∀ l last,
      findListing (listingId input) (db w) = Some l →
      Listing.userId l = b_userId input →
      Listing.lastBumpedAt l = Some last →
      checkedAt - last < 24 * hour →
      let hoursUntilEligible :=
        Qceiling (24 - BumpService.hoursSinceLastBump checkedAt last) in
      let message :=
        "You can bump again in " +:+ number_to_string hoursUntilEligible +:+ " hour(s)" in
      BumpService.canBumpListing checkedAt (listingId input) (b_userId input) w
      = (inr (mkEligibility false (Some message) (Some hoursUntilEligible)), w)
      ∧ BumpService.bumpListing checkedAt now nowIso input w
        = (inl (Error message), w).
Proof.
  intros Hclock. split.
  - rewrite bumpListing_run. cbv zeta.
    destruct (canBump _) eqn:He.
    + split; [intros _ | by eauto].
      apply canBump_iff in He as (l & Hl & Hown & Hcool).
      exists l. split_and!; [done..|].
      destruct (Listing.lastBumpedAt l) as [last|] eqn:Hlast; [right | by left].
      exists last. split; [done|].
      destruct (decide (last = 0)) as [->|Hnz].
      * unfold BUMP_COOLDOWN_HOURS in Hclock. lia.
      * apply Hcool. by destruct last.
    + split; [by intros (? & ? & ?)|].
      intros (l & Hl & Hown & Hcool).
      assert (canBump (eligibility checkedAt (listingId input) (b_userId input) (db w))
              = true) as He'; [|congruence].
      apply canBump_iff. exists l. split_and!; [done..|].
      intros last Hlast. unfold BUMP_COOLDOWN_HOURS.
      destruct Hcool as [Hnone | (last' & Hsome & Hge)].
      * by rewrite Hnone in Hlast.
      * rewrite Hsome in Hlast. destruct last'; simplify_eq/=; done.
  - intros l last Hl Hown Hlast Hlt hoursUntilEligible message.
    assert (truthy_number (Listing.lastBumpedAt l) = Some last) as Htruthy.
    { rewrite Hlast. destruct last; [|done..].
      unfold BUMP_COOLDOWN_HOURS in Hclock. lia. }
    assert (eligibility checkedAt (listingId input) (b_userId input) (db w)
            = mkEligibility false (Some message) (Some hoursUntilEligible)) as He.
    { unfold eligibility. rewrite Hl, bool_decide_true by done. simpl.
      rewrite Htruthy. simpl.
      rewrite (proj2 (Qltb_hours checkedAt last)) by (unfold BUMP_COOLDOWN_HOURS; lia).
      done. }
    split.
    + by rewrite canBumpListing_eligibility, He.
    + rewrite bumpListing_run. cbv zeta. rewrite He. simpl. done.
Qed.

(** The scenario of the cooldown: bumped at [t0], refused 23 hours
    later with one hour to wait. *)
Lemma bump_cooldown_enforcement_witness :
  BUMP_COOLDOWN_HOURS * hour <= Sample.t0 + 23 * hour
  ∧ BumpService.bumpListing (Sample.t0 + 23 * hour) (Sample.t0 + 23 * hour)
      Sample.iso' Sample.free_bump Sample.bumped
    = (inl (Error "You can bump again in 1 hour(s)"), Sample.bumped).
Proof.
  assert (BUMP_COOLDOWN_HOURS * hour <= Sample.t0 + 23 * hour) as Hclock
    by (unfold BUMP_COOLDOWN_HOURS, hour, Sample.t0; lia).
  split; [exact Hclock|].
  refine (proj2 (proj2 (bump_cooldown_enforcement
                          (Sample.t0 + 23 * hour) (Sample.t0 + 23 * hour) Sample.iso'
                          Sample.free_bump Sample.bumped Hclock)
                   (Sample.bike active (Sample.t0 + 3 * day) (Some Sample.t0) 1)
                   Sample.t0 eq_refl eq_refl eq_refl _)).
  unfold hour. lia.
Defined.

(** At exactly 24 hours the bump goes through. *)
Example cooldown_over_at_24_hours :
  ∃ new w',
    BumpService.bumpListing (Sample.t0 + 24 * hour) (Sample.t0 + 24 * hour)
      Sample.iso' Sample.free_bump Sample.bumped = (inr (Some new), w')
    ∧ Listing.bumpCount new = 2.
Proof. eexists _, _. split; vm_compute; reflexivity. Qed.

(** 54 minutes after a bump 23.1 hours remain, reported as 24. *)
Example cooldown_rounds_up :
  (BumpService.canBumpListing (Sample.t0 + 54 * 60 * 1000) 1 7 Sample.bumped).1
  = inr (mkEligibility false (Some "You can bump again in 24 hour(s)") (Some 24)).
Proof. vm_compute. reflexivity. Qed.

(** The cooldown test is a truthiness test: a listing whose
    [lastBumpedAt] is 0 is taken as never bumped, which shows only while
    the clock itself is within a day of the epoch. *)
Example zero_timestamp_counts_as_unset :
  (BumpService.canBumpListing hour 1 7
     (Sample.store [Sample.bike active (3 * day) (Some 0) 1] [])).1
  = inr (mkEligibility true None None).
Proof. vm_compute. reflexivity. Qed.

(** C5, as the code has it. A successful bump at [now] puts [expiresAt]
    at [now] plus the extension; this is later than the previous
    [expiresAt] exactly when the listing had less than the extension
    left. *)
Theorem bump_expiry_increases_iff (checkedAt now : Z) (nowIso : string)
    (input : BumpListingInput) (w : World) (res : option Listing.t) (w' : World) :
  BumpService.bumpListing checkedAt now nowIso input w = (inr res, w') →
  ∃ old new,
    findListing (listingId input) (db w) = Some old
    ∧ res = Some new
    ∧ let extension := if isPaid input then 7 * day else 3 * day in
      Listing.expiresAt new = now + extension
      ∧ (Listing.expiresAt old < Listing.expiresAt new
         ↔ Listing.expiresAt old - now < extension).
Proof.
  intros (_ & -> & old & Hold & ->)%bumpListing_inr.
  eexists old, _. split; [done|]. split; [reflexivity|]. cbv zeta.
  pose proof (setBumped_bumped_from (isPaid input) now nowIso old) as (Hexp & _).
  rewrite Hexp. destruct (isPaid input); split; (done || lia).
Qed.

(** Bob's free bump of the overdue lamp moves its expiry forward. *)
Lemma bump_expiry_increases_iff_witness :
  ∃ new,
    (BumpService.bumpListing Sample.t0 Sample.t0 Sample.iso
       (mkBumpListingInput 2 8 false) Sample.fresh).1 = inr (Some new)
    ∧ Sample.t0 - day < Listing.expiresAt new.
Proof.
  destruct (BumpService.bumpListing Sample.t0 Sample.t0 Sample.iso
              (mkBumpListingInput 2 8 false) Sample.fresh) as [[e|res] w'] eqn:Hrun.
  { vm_compute in Hrun. discriminate Hrun. }
  destruct (bump_expiry_increases_iff _ _ _ _ _ _ _ Hrun)
    as (old & new & Hold & -> & Hexp & Hiff).
  exists new. split; [reflexivity|].
  vm_compute in Hold. injection Hold as <-.
  apply (proj2 Hiff). vm_compute. reflexivity.
Defined.

(** C5 fails on the code: after a paid bump at [t0] the bike expires at
    [t0 + 7 days]; the free bump the cooldown allows a day later puts the
    expiry at [t0 + 4 days], three days earlier. *)
Lemma bump_lowers_expiry :
  Listing.expiresAt <$> findListing 1 (db Sample.after_paid_bump)
  = Some (Sample.t0 + 7 * day)
  ∧ ∃ new w',
      BumpService.bumpListing (Sample.t0 + day) (Sample.t0 + day) Sample.iso'
        Sample.free_bump Sample.after_paid_bump = (inr (Some new), w')
      ∧ Listing.expiresAt new = Sample.t0 + 4 * day
      ∧ ¬ (Sample.t0 + 7 * day < Listing.expiresAt new).
Proof.
  split; [vm_compute; reflexivity|].
  eexists _, _. split; [vm_compute; reflexivity|].
  split; [vm_compute; reflexivity|]. vm_compute. discriminate.
Qed.

(** C1, as the code has it. The sweep never rewrites or returns an
    archived row, whatever its expiry. The bump does not look at the
    status: its update, which sets the status to active to reactivate an
    expired listing, does the same to an archived one, so the owner of an
    archived listing whose cooldown is over bumps it like any other
    listing, and the listing is active again. *)
Theorem archived_kept_by_sweep_not_by_bump :
  (∀ now nowIso w swept w1 i r,
     ListingService.expireOldListings now nowIso w = (inr swept, w1) →
     listings (db w) !! i = Some r →
     Listing.status r = archived →
     listings (db w1) !! i = Some r ∧ r ∉ swept)
  ∧ (∀ checkedAt now nowIso input w l,
       findListing (listingId input) (db w) = Some l →
       Listing.status l = archived →
       Listing.userId l = b_userId input →
       (Listing.lastBumpedAt l = None
        ∨ ∃ last, Listing.lastBumpedAt l = Some last ∧ 24 * hour <= checkedAt - last) →
       ∃ new w',
         BumpService.bumpListing checkedAt now nowIso input w = (inr (Some new), w')
         ∧ Listing.status new = active
         ∧ findListing (listingId input) (db w') = Some new).
Proof.
  split.
  - intros now nowIso w swept w1 i r. rewrite expireOldListings_run. cbv zeta.
    intros [= <- <-] Hr Harch. cbn [db listings]. split.
    + rewrite list_lookup_fmap, Hr. simpl. rewrite decide_False; [done|].
      intros [Hact _]. congruence.
    + intros (r0 & -> & _)%list_elem_of_fmap. discriminate Harch.
  - intros checkedAt now nowIso input w l Hl Harch Hown Hcool.
    destruct (BumpService.bumpListing checkedAt now nowIso input w)
      as [res w'] eqn:Hrun.
    assert (canBump (eligibility checkedAt (listingId input) (b_userId input) (db w))
            = true) as He.
    { apply canBump_iff. exists l. split_and!; [done..|].
      intros last Hlast. unfold BUMP_COOLDOWN_HOURS.
      destruct Hcool as [Hnone | (last' & Hsome & Hge)].
      - by rewrite Hnone in Hlast.
      - rewrite Hsome in Hlast. destruct last'; simplify_eq/=; done. }
    rewrite bumpListing_run in Hrun. cbv zeta in Hrun. rewrite He, Hl in Hrun.
    injection Hrun as <- <-. eexists _, _. split; [reflexivity|]. split; [done|].
    unfold bumped_world. cbn [db].
    destruct (db w) as [t ps ims] eqn:Hdb. cbn [listings userProfiles listingImages].
    rewrite (findListing_fmap
               (fun r => if decide (Listing.id r = listingId input) then _ else r)).
    + rewrite Hl. simpl. rewrite decide_True; [done|].
      unfold findListing in Hl. apply head_Some_elem_of in Hl.
      by apply list_elem_of_filter in Hl as [? _].
    + intros r. by destruct (decide _).
Qed.

(** The archived bike, a day overdue: the sweep leaves it, the owner's
    bump reactivates it. *)
Lemma archived_kept_by_sweep_not_by_bump_witness :
  listings (db (ListingService.expireOldListings Sample.t0 Sample.iso
                  Sample.moderated).2) !! 0%nat
  = Some (Sample.bike archived (Sample.t0 - day) None 0)
  ∧ ∃ new w',
      BumpService.bumpListing Sample.t0 Sample.t0 Sample.iso Sample.free_bump
        Sample.moderated = (inr (Some new), w')
      ∧ Listing.status new = active.
Proof.
  destruct archived_kept_by_sweep_not_by_bump as [Hsweep Hbump]. split.
  - destruct (ListingService.expireOldListings Sample.t0 Sample.iso Sample.moderated)
      as [[e|swept] w1] eqn:Hrun.
    { vm_compute in Hrun. discriminate Hrun. }
    exact (proj1 (Hsweep _ _ _ _ _ 0%nat _ Hrun eq_refl eq_refl)).
  - destruct (Hbump Sample.t0 Sample.t0 Sample.iso Sample.free_bump Sample.moderated
                _ eq_refl eq_refl eq_refl (or_introl eq_refl))
      as (new & w' & Hrun & Hst & _).
    by exists new, w'.
Defined.

(** The code at the failing input of C1: the owner bumps the archived
    bike and gets it back active, with no error. *)
Lemma archived_listing_bumped :
  ∃ new w',
    BumpService.bumpListing Sample.t0 Sample.t0 Sample.iso Sample.free_bump
      Sample.moderated = (inr (Some new), w')
    ∧ Listing.status <$> findListing 1 (db Sample.moderated) = Some archived
    ∧ Listing.status new = active
    ∧ Listing.status <$> findListing 1 (db w') = Some active.
Proof. eexists _, _. split_and!; vm_compute; reflexivity. Qed.

(** ** The browse queries *)

(** Without a status filter the status condition is "active". *)
Lemma statusCondition_default {R : Type}
    (col : ∀ C : Type, (Listing.t -> option C) -> R -> option C)
    (input : GetListingsInput) (r : R) (l : Listing.t) :
  status input = None ∨ status input = Some [] →
  col _ listings_.status r = listings_.status l →
  Sql.holds (ListingService.statusCondition col input) r →
  Listing.status l = active.
Proof.
  intros Hst Hcol. unfold ListingService.statusCondition.
  destruct Hst as [-> | ->]; rewrite holds_eq, Hcol; by intros [= ->].
Qed.

(** Every row of [getListingsWithImages] comes from a listing of the
    store joined with a profile of its owner that is not banned, passes
    the status condition and the user filter, and is that listing with
    images and profile attached. *)
Lemma getListingsWithImages_elem (input : GetListingsInput) (w : World) :
  ∃ rows,
    ListingService.getListingsWithImages input w = (inr rows, w)
    ∧ ∀ r, r ∈ rows →
        ∃ l p,
          l ∈ listings (db w) ∧ p ∈ userProfiles (db w)
          ∧ UserProfile.telegramId p = Listing.userId l
          ∧ UserProfile.isBanned p = 0
          ∧ Sql.holds
              (ListingService.statusCondition
                 (fun C => @left_col Listing.t UserProfile.t C) input) (l, Some p)
          ∧ (∀ u, userId input = Some u → Listing.userId l = u)
          ∧ r = ListingService.withImages (db w) l.
Proof.
  unfold ListingService.getListingsWithImages, Promise.query. cbv zeta.
  eexists. split; [reflexivity|]. intros r.
  intros (l & -> & ([l' op] & -> & Hj)%list_elem_of_fmap)%list_elem_of_fmap.
  apply elem_of_limit_offset, elem_of_orderBy, elem_of_where_ in Hj as [Hc Hj].
  apply holds_and_ in Hc. rewrite !Forall_app, !Forall_cons in Hc.
  destruct Hc as ((Hban & Hst & _) & _ & _ & _ & Huser & _).
  apply elem_of_leftJoin in Hj as [Hl Hop]. simpl.
  rewrite holds_eq in Hban. destruct op as [p|]; [|done]. destruct Hop as [Hp Hon].
  assert (UserProfile.isBanned p = 0) as Hban'
    by (unfold right_col, userProfiles_.isBanned in Hban; simpl in Hban; congruence).
  exists l', p. split_and!; try done.
  - unfold Sql.holds, Sql.eq_col, left_col, right_col in Hon. simpl in Hon.
    case_bool_decide; congruence.
  - intros u Hu. unfold ListingService.userCondition in Huser. rewrite Hu in Huser.
    apply Forall_cons in Huser as [Huser _]. rewrite holds_eq in Huser.
    unfold left_col, listings_.userId in Huser. simpl in Huser. congruence.
Qed.

Lemma withImages_listing d l :
  Listing.status (listing (ListingService.withImages d l)) = Listing.status l
  ∧ Listing.userId (listing (ListingService.withImages d l)) = Listing.userId l
  ∧ Listing.id (listing (ListingService.withImages d l)) = Listing.id l.
Proof. done. Qed.

(** C6. A list query without a status filter (omitted or empty) returns
    active listings only, from [getListings] and from
    [getListingsWithImages], whatever the store holds. *)
Theorem default_visibility (input : GetListingsInput) (w : World) :
  status input = None ∨ status input = Some [] →
  (∃ rows,
     ListingService.getListings input w = (inr rows, w)
     ∧ ∀ r, r ∈ rows → Listing.status r = active)
  ∧ (∃ rows,
       ListingService.getListingsWithImages input w = (inr rows, w)
       ∧ ∀ r, r ∈ rows → Listing.status (listing r) = active).
Proof.
  intros Hst. split.
  - unfold ListingService.getListings, Promise.query. cbv zeta.
    eexists. split; [reflexivity|]. intros r Hr.
    apply elem_of_limit_offset, elem_of_orderBy, elem_of_where_ in Hr as [Hc _].
    apply holds_and_ in Hc. rewrite !Forall_app, !Forall_cons in Hc.
    destruct Hc as ((Hc & _) & _).
    by apply (statusCondition_default (fun _ c => c) input r r).
  - destruct (getListingsWithImages_elem input w) as (rows & Hrun & Hrows).
    exists rows. split; [done|]. intros r Hr.
    destruct (Hrows r Hr) as (l & p & _ & _ & _ & _ & Hc & _ & ->).
    rewrite (proj1 (withImages_listing _ _)).
    by apply (statusCondition_default
                (fun C => @left_col Listing.t UserProfile.t C) input (l, Some p) l).
Qed.

(** Browsing a store with an active bike, an expired lamp and an
    archived bike shows the active bike only. *)
Lemma default_visibility_witness :
  ∃ rows,
    ListingService.getListings Sample.no_filters
      (Sample.store [Sample.bike active (Sample.t0 + day) None 0;
                     Sample.lamp expired (Sample.t0 - day);
                     Sample.bike archived (Sample.t0 + day) None 0] [])
    = (inr rows,
       Sample.store [Sample.bike active (Sample.t0 + day) None 0;
                     Sample.lamp expired (Sample.t0 - day);
                     Sample.bike archived (Sample.t0 + day) None 0] [])
    ∧ (∀ r, r ∈ rows → Listing.status r = active)
    ∧ length rows = 1%nat.
Proof.
  destruct (default_visibility Sample.no_filters
              (Sample.store [Sample.bike active (Sample.t0 + day) None 0;
                             Sample.lamp expired (Sample.t0 - day);
                             Sample.bike archived (Sample.t0 + day) None 0] [])
              (or_introl eq_refl)) as [(rows & Hrun & Hrows) _].
  exists rows. split; [exact Hrun|]. split; [exact Hrows|].
  vm_compute in Hrun. injection Hrun as <-. reflexivity.
Defined.

(** C9. A listing whose owner has no profile row is in no result of
    [getListingsWithImages], whatever its status and whatever the
    filters: every row returned has an owner with a profile that is not
    banned. *)
Theorem browse_requires_profile (input : GetListingsInput) (w : World) (owner : Z) :
  (∀ p, p ∈ userProfiles (db w) → UserProfile.telegramId p ≠ owner) →
  ∃ rows,
    ListingService.getListingsWithImages input w = (inr rows, w)
    ∧ ∀ r, r ∈ rows → Listing.userId (listing r) ≠ owner.
Proof.
  intros Hnone.
  destruct (getListingsWithImages_elem input w) as (rows & Hrun & Hrows).
  exists rows. split; [done|]. intros r Hr.
  destruct (Hrows r Hr) as (l & p & _ & Hp & Hjoin & _ & _ & _ & ->).
  rewrite (proj1 (proj2 (withImages_listing _ _))), <- Hjoin. by apply Hnone.
Qed.

(** Bob has no profile: his active lamp is not listed, Alice's bike is. *)
Lemma browse_requires_profile_witness :
  ∃ rows,
    (ListingService.getListingsWithImages Sample.no_filters Sample.fresh).1 = inr rows
    ∧ (∀ r, r ∈ rows → Listing.userId (listing r) ≠ 8)
    ∧ Listing.id ∘ listing <$> rows = [1].
Proof.
  assert (∀ p, p ∈ userProfiles (db Sample.fresh) → UserProfile.telegramId p ≠ 8)
    as Hnone.
  { intros p Hp. apply list_elem_of_singleton in Hp. subst p. discriminate. }
  destruct (browse_requires_profile Sample.no_filters Sample.fresh 8 Hnone)
    as (rows & Hrun & Hrows).
  exists rows. rewrite Hrun. split; [reflexivity|]. split; [exact Hrows|].
  vm_compute in Hrun. injection Hrun as <-. reflexivity.
Defined.

(** C7, what the handlers do. The listings of a banned user are in no
    answer of [getUserListings], for an administrator no more than for
    anyone else: the non-administrator is answered with an empty page at
    once, the administrator gets past that gate and then receives the
    result of [getListingsWithImages], which drops the rows of banned
    owners. [getAllListings] has no requester at all and never lists a
    row whose owner lacks a profile that is not banned. *)
Theorem banned_listings_hidden_from_admin :
  (∀ viewer now nowIso owner filters w,
     (∀ p, p ∈ userProfiles (db w) →
           UserProfile.telegramId p = owner → UserProfile.isBanned p = 1) →
     ∃ w',
       Api.getUserListings viewer now nowIso owner filters w
       = (inr (mkResponse 200
                 (Api.createPaginationResponse [] (limit filters) (offset filters))),
          w'))
  ∧ (∀ now nowIso filters w,
       ∃ rows w',
         Api.getAllListings now nowIso filters w
         = (inr (mkResponse 200
                   (Api.createPaginationResponse rows (limit filters) (offset filters))),
            w')
         ∧ ∀ r, r ∈ rows →
             ∃ p, p ∈ userProfiles (db w)
                  ∧ UserProfile.telegramId p = Listing.userId (listing r)
                  ∧ UserProfile.isBanned p = 0).
Proof.
  split.
  - intros viewer now nowIso owner filters w Hbanned.
    unfold Api.getUserListings, Promise.try_catch, mbind, Promise_bind, Promise.bind.
    unfold ProfileService.getProfile, Promise.query at 1. cbv beta iota.
    destruct (_ && negb (Api.isViewerAdmin viewer)); [by eexists|].
    rewrite expireOldListings_run. cbv zeta beta iota.
    match goal with
    | |- context [ListingService.getListingsWithImages ?i ?w1] =>
        destruct (getListingsWithImages_elem i w1) as (rows & -> & Hrows)
    end.
    cbn [db userProfiles] in Hrows.
    assert (rows = []) as ->; [|by eexists].
    apply elem_of_nil_inv. intros r Hr.
    destruct (Hrows r Hr) as (l & p & _ & Hp & Hjoin & Hok & _ & Hu & _).
    specialize (Hu owner eq_refl). rewrite Hu in Hjoin.
    specialize (Hbanned p Hp Hjoin). congruence.
  - intros now nowIso filters w.
    unfold Api.getAllListings, Promise.try_catch, mbind, Promise_bind, Promise.bind.
    rewrite expireOldListings_run. cbv zeta beta iota.
    match goal with
    | |- context [ListingService.getListingsWithImages ?i ?w1] =>
        destruct (getListingsWithImages_elem i w1) as (rows & -> & Hrows)
    end.
    cbn [db userProfiles] in Hrows.
    exists rows. eexists. split; [reflexivity|]. intros r Hr.
    destruct (Hrows r Hr) as (l & p & _ & Hp & Hjoin & Hok & _ & _ & ->).
    exists p. by rewrite (proj1 (proj2 (withImages_listing _ _))).
Qed.

(** Alice is banned and her bike is active: the administrator who opens
    her page is answered with an empty list. *)
Lemma banned_listings_hidden_from_admin_witness :
  Api.isViewerAdmin (Some Sample.admin) = true
  ∧ (Api.getUserListings (Some Sample.admin) Sample.t0 Sample.iso 7 Sample.no_filters
       (Sample.store [Sample.bike active (Sample.t0 + 3 * day) None 0]
          [Sample.alice 1])).1
    = inr (mkResponse 200 (ListingsBody [] 50 0 false)).
Proof.
  split; [reflexivity|].
  destruct (proj1 banned_listings_hidden_from_admin
              (Some Sample.admin) Sample.t0 Sample.iso 7 Sample.no_filters
              (Sample.store [Sample.bike active (Sample.t0 + 3 * day) None 0]
                 [Sample.alice 1])) as (w' & ->).
  - intros p Hp _. apply list_elem_of_singleton in Hp. by subst p.
  - reflexivity.
Defined.

(** ** The archive *)

(** The notification never throws and never touches the database: its
    failures end in the console. *)
Lemma sendArchiveNotification_safe env userId listingTitle reason w :
  ∃ w',
    AdminService.sendArchiveNotification env userId listingTitle reason w = (inr tt, w')
    ∧ db w' = db w ∧ statements w' = statements w
    ∧ match truthy_string (TELEGRAM_BOT_TOKEN env) with
      | None =>
          outbox w' = outbox w
          ∧ console w' = "TELEGRAM_BOT_TOKEN not configured" :: console w
      | Some botToken =>
          let request :=
            mkRequest ("https://api.telegram.org/bot" +:+ botToken +:+ "/sendMessage")
              userId (AdminService.archiveMessage listingTitle reason) "HTML" in
          outbox w' = request :: outbox w
          ∧ console w'
            = match network w request with
              | Rejects _ => "Error sending Telegram notification:" :: console w
              | Json false => "Failed to send Telegram notification:" :: console w
              | Json true => console w
              end
      end.
Proof.
  unfold AdminService.sendArchiveNotification.
  destruct (truthy_string _) as [botToken|].
  - unfold Promise.try_catch, mbind, Promise_bind, Promise.bind, Promise.fetch.
    cbv zeta. destruct (network w _) as [e | [|]]; simpl; by eexists.
  - by eexists.
Qed.

(** C8. Archiving an existing listing, whoever owns it and whatever its
    status and last bump, sets its status to archived and [updatedAt] to
    [now] in one statement, changes no other column and no other row, and
    reports success with the archived row. This holds for every
    configuration of the bot token and every answer of the Telegram
    endpoint: a notification that cannot be delivered adds a line to the
    console, and nothing is written after the archive. *)
Theorem archive_effect_notification_isolated (env : Env) (now : string)
    (id : Z) (reason : string) (w : World) (l : Listing.t) :
  findListing id (db w) = Some l →
  ∃ archivedListing w',
    AdminService.archiveListing env now id reason w
    = (inr (mkArchiveResult true (Some archivedListing) None), w')
    ∧ Listing.status archivedListing = archived
    ∧ Listing.updatedAt archivedListing = now
    ∧ same_item l archivedListing ∧ same_bumps l archivedListing
    ∧ findListing id (db w') = Some archivedListing
    ∧ statements w' = db w' :: statements w
    ∧ (∀ i r, listings (db w) !! i = Some r →
         ∃ r', listings (db w') !! i = Some r'
               ∧ if decide (Listing.id r = id)
                 then Listing.status r' = archived ∧ Listing.updatedAt r' = now
                      ∧ same_item r r' ∧ same_bumps r r'
                 else r' = r)
    ∧ match truthy_string (TELEGRAM_BOT_TOKEN env) with
      | None =>
          outbox w' = outbox w
          ∧ console w' = "TELEGRAM_BOT_TOKEN not configured" :: console w
      | Some botToken =>
          let request :=
            mkRequest ("https://api.telegram.org/bot" +:+ botToken +:+ "/sendMessage")
              (Listing.userId l) (AdminService.archiveMessage (Listing.title l) reason)
              "HTML" in
          outbox w' = request :: outbox w
          ∧ console w'
            = match network w request with
              | Rejects _ => "Error sending Telegram notification:" :: console w
              | Json false => "Failed to send Telegram notification:" :: console w
              | Json true => console w
              end
      end.
Proof.
  intros Hl.
  unfold AdminService.archiveListing, Promise.try_catch, mbind, Promise_bind,
    Promise.bind, Promise.query at 1.
  rewrite where_id_head, Hl. cbv beta iota.
  unfold Promise.execute.
  rewrite (update_ext _ _ (fun r => Listing.id r = id)) by (intros r; apply holds_id).
  cbv beta iota zeta.
  match goal with
  | |- context [AdminService.sendArchiveNotification ?e ?u ?t ?r ?w1] =>
      destruct (sendArchiveNotification_safe e u t r w1)
        as (w' & -> & Hdb & Hstmts & Hnotify)
  end.
  cbn [db statements console network outbox] in Hdb, Hstmts, Hnotify.
  unfold mret, Promise_ret, Promise.ret.
  assert (Listing.id l = id) as Hid.
  { unfold findListing in Hl. apply head_Some_elem_of in Hl.
    by apply list_elem_of_filter in Hl as [? _]. }
  assert (head (AdminService.setArchived now
                  <$> filter (fun r => Listing.id r = id) (listings (db w)))
          = Some (AdminService.setArchived now l)) as ->.
  { unfold findListing in Hl. by destruct (filter _ _); simplify_eq/=. }
  eexists _, w'. split; [reflexivity|].
  rewrite Hdb, Hstmts. cbn [listings].
  split_and!; try done.
  - destruct (db w) as [t ps ims] eqn:Hdbw. cbn [listings userProfiles listingImages].
    rewrite (findListing_fmap
               (fun r => if decide (Listing.id r = id) then _ else r)).
    + rewrite Hl. simpl. by rewrite decide_True.
    + intros r. by destruct (decide _).
  - intros i r Hr. rewrite list_lookup_fmap, Hr. simpl. eexists. split; [done|].
    by destruct (decide _).
Qed.

(** The bike is archived although the Telegram endpoint rejects the
    request; the failure is the one line of the console. *)
Lemma archive_effect_notification_isolated_witness :
  ∃ archivedListing w',
    AdminService.archiveListing (mkEnv (Some "token")) Sample.iso' 1 "prohibited item"
      (mkWorld (db Sample.fresh) [] [] (fun _ => Rejects (Error "network down")) [])
    = (inr (mkArchiveResult true (Some archivedListing) None), w')
    ∧ Listing.status archivedListing = archived
    ∧ Listing.status <$> findListing 1 (db w') = Some archived
    ∧ console w' = ["Error sending Telegram notification:"].
Proof.
  destruct (archive_effect_notification_isolated (mkEnv (Some "token")) Sample.iso' 1
              "prohibited item"
              (mkWorld (db Sample.fresh) [] []
                 (fun _ => Rejects (Error "network down")) [])
              (Sample.bike active (Sample.t0 + 3 * day) None 0) eq_refl)
    as (a & w' & Hrun & Hst & _ & _ & _ & Hfind & _ & _ & Hnotify).
  exists a, w'. split; [exact Hrun|]. split; [exact Hst|].
  split; [by rewrite Hfind, <- Hst|]. exact (proj2 Hnotify).
Defined.

(** ** The content update *)

Lemma holds_owned id userId r :
  Sql.holds (Sql.and_ [Sql.eq listings_.id id; Sql.eq listings_.userId userId]) r
  ↔ Listing.id r = id ∧ Listing.userId r = userId.
Proof.
  rewrite holds_and_, !Forall_cons, Forall_nil, !holds_eq.
  unfold listings_.id, listings_.userId. split.
  - intros ([= ?] & [= ?] & _). done.
  - intros [-> ->]. done.
Qed.

(** C10. [updateListing] changes, in the rows with the given id and
    owner, at most [title], [content], [price], [category] and
    [updatedAt]: [status], [expiresAt], [lastBumpedAt], [bumpCount], [id],
    [userId], [createdAt] and the remaining columns keep their values, and
    every other row is untouched. When the user owns no listing with the
    id, nothing is returned and the database is as before. *)
Theorem updateListing_frame (now : string) (id userId : Z)
    (input : UpdateListingInput) (w : World) :
  ∃ updatedListing w',
    ListingService.updateListing now id userId input w = (inr updatedListing, w')
    ∧ userProfiles (db w') = userProfiles (db w)
    ∧ listingImages (db w') = listingImages (db w)
    ∧ length (listings (db w')) = length (listings (db w))
    ∧ (∀ i r, listings (db w) !! i = Some r →
         ∃ r', listings (db w') !! i = Some r'
               ∧ Listing.status r' = Listing.status r
               ∧ Listing.expiresAt r' = Listing.expiresAt r
               ∧ Listing.lastBumpedAt r' = Listing.lastBumpedAt r
               ∧ Listing.bumpCount r' = Listing.bumpCount r
               ∧ Listing.id r' = Listing.id r
               ∧ Listing.userId r' = Listing.userId r
               ∧ Listing.createdAt r' = Listing.createdAt r
               ∧ Listing.username r' = Listing.username r
               ∧ Listing.displayName r' = Listing.displayName r
               ∧ Listing.starCount r' = Listing.starCount r
               ∧ Listing.paymentId r' = Listing.paymentId r
               ∧ Listing.isPaymentPending r' = Listing.isPaymentPending r
               ∧ (¬ (Listing.id r = id ∧ Listing.userId r = userId) → r' = r))
    ∧ ((∀ r, r ∈ listings (db w) → Listing.id r = id → Listing.userId r ≠ userId) →
       updatedListing = None ∧ db w' = db w).
Proof.
  unfold ListingService.updateListing, mbind, Promise_bind, Promise.bind,
    Promise.execute.
  rewrite (update_ext _ _ (fun r => Listing.id r = id ∧ Listing.userId r = userId))
    by (intros r; apply holds_owned).
  cbv beta iota zeta. unfold mret, Promise_ret, Promise.ret.
  eexists _, _. split; [reflexivity|]. cbn [db listings userProfiles listingImages].
  split_and!; try done.
  - by rewrite length_fmap.
  - intros i r Hr. rewrite list_lookup_fmap, Hr. simpl. eexists. split; [done|].
    destruct (decide _) as [Hown|Hown]; by split_and!.
  - intros Hnot.
    assert (∀ r, r ∈ listings (db w) →
                 ¬ (Listing.id r = id ∧ Listing.userId r = userId)) as Hnone.
    { intros r Hr [Hid Hu]. by apply (Hnot r Hr Hid). }
    split.
    + assert (filter (fun r => Listing.id r = id ∧ Listing.userId r = userId)
                (listings (db w)) = []) as ->; [|done].
      apply elem_of_nil_inv. intros r [Hown Hr]%list_elem_of_filter.
      by apply (Hnone r).
    + destruct (db w) as [t ps ims]. cbn [listings userProfiles listingImages] in *.
      f_equal. rewrite <- (list_fmap_id t) at 2. apply list_fmap_ext.
      intros _ r Hr%list_elem_of_lookup_2. rewrite decide_False; [done|].
      by apply Hnone.
Qed.

(** Bob tries to rename Alice's bike: nothing changes. Alice renames it:
    the bike keeps its expiry. *)
Lemma updateListing_frame_witness :
  (ListingService.updateListing Sample.iso' 1 8
     (mkUpdateListingInput (Some "Stolen bike") None None None) Sample.fresh).1
  = inr None
  ∧ Listing.expiresAt
      <$> findListing 1
            (db (ListingService.updateListing Sample.iso' 1 7
                   (mkUpdateListingInput (Some "Race bike") None (Some 12000) None)
                   Sample.fresh).2)
    = Some (Sample.t0 + 3 * day).
Proof.
  split.
  - destruct (updateListing_frame Sample.iso' 1 8
                (mkUpdateListingInput (Some "Stolen bike") None None None) Sample.fresh)
      as (res & w' & Hrun & _ & _ & _ & _ & Hnot).
    rewrite Hrun. simpl. f_equal. apply Hnot.
    intros r Hr Hid. vm_compute in Hr.
    apply elem_of_cons in Hr as [-> | Hr]; [discriminate|].
    apply list_elem_of_singleton in Hr as ->. discriminate Hid.
  - destruct (updateListing_frame Sample.iso' 1 7
                (mkUpdateListingInput (Some "Race bike") None (Some 12000) None)
                Sample.fresh)
      as (res & w' & Hrun & _ & _ & _ & Hrows & _).
    rewrite Hrun. simpl.
    destruct (Hrows 0%nat _ eq_refl) as (r' & Hr' & _ & Hexp & _ & _ & Hid & _).
    unfold findListing. destruct (listings (db w')) as [|r0 t]; [done|].
    injection Hr' as ->. rewrite filter_cons_True by exact Hid.
    simpl. by rewrite Hexp.
Defined.

(** ** The filters, the order and the pages of the list queries *)

Lemma holds_gte {R : Type} (col : R -> option Z) (v : Z) (r : R) :
  Sql.holds (Sql.gte col v) r ↔ ∃ x, col r = Some x ∧ (v <= x)%Z.
Proof.
  unfold Sql.holds, Sql.gte. destruct (col r) as [x|]; simpl.
  - destruct (Z.leb_spec v x); split; try done.
    + intros _. by exists x.
    + intros (y & [= <-] & ?). lia.
  - split; [done | by intros (y & ? & _)].
Qed.

Lemma holds_like {R : Type} (col : R -> option string) (pat : string) (r : R) :
  Sql.holds (Sql.like col pat) r
  ↔ ∃ x, col r = Some x
         ∧ Sql.like_match (list_ascii_of_string pat) (list_ascii_of_string x) = true.
Proof.
  unfold Sql.holds, Sql.like. destruct (col r) as [x|]; simpl.
  - split; [intros [= ?]; by exists x | by intros (y & [= <-] & ->)].
  - split; [done | by intros (y & ? & _)].
Qed.

Section ConditionFacts.
Context {R : Type} (col : ∀ C : Type, (Listing.t -> option C) -> R -> option C).
Context (r : R) (l : Listing.t).
Hypothesis Hcol : ∀ (C : Type) (c : Listing.t -> option C), col C c r = c l.

Lemma statusCondition_holds input :
  Sql.holds (ListingService.statusCondition col input) r
  ↔ match status input with
    | Some (s :: ss) => Listing.status l ∈ s :: ss
    | _ => Listing.status l = active
    end.
Proof.
  unfold ListingService.statusCondition.
  destruct (status input) as [[|s ss]|].
  - rewrite holds_eq, Hcol. unfold listings_.status, LISTING_STATUS.ACTIVE.
    split; congruence.
  - change ((fun st => Sql.eq (col _ listings_.status) st) <$> s :: ss)
      with ((fun st => Sql.eq (col _ listings_.status) st) s
              :: ((fun st => Sql.eq (col _ listings_.status) st) <$> ss)).
    rewrite holds_or_. rewrite <- fmap_cons, Exists_fmap, Exists_exists.
    split.
    + intros (st & Hin & Hst). simpl in Hst. rewrite holds_eq, Hcol in Hst.
      unfold listings_.status in Hst. by simplify_eq.
    + intros Hin. exists (Listing.status l). split; [done|]. simpl.
      by rewrite holds_eq, Hcol.
  - rewrite holds_eq, Hcol. unfold listings_.status, LISTING_STATUS.ACTIVE.
    split; congruence.
Qed.

Lemma conditions_pass input :
  Forall (fun c => Sql.holds c r)
    ([ListingService.statusCondition col input]
     ++ ListingService.categoryCondition col input
     ++ ListingService.priceMinCondition col input
     ++ ListingService.priceMaxCondition col input
     ++ ListingService.userCondition col input
     ++ ListingService.searchCondition col input)%list
  ↔ passes input l.
Proof.
  rewrite !Forall_app, Forall_singleton, statusCondition_holds.
  unfold passes, ListingService.categoryCondition, ListingService.priceMinCondition,
    ListingService.priceMaxCondition, ListingService.userCondition,
    ListingService.searchCondition.
  assert (∀ (o : option string) (P : string -> Prop) (f : string -> Sql.SQL R),
            (∀ x, Sql.holds (f x) r ↔ P x) →
            Forall (fun c => Sql.holds c r)
              (match o with Some x => [f x] | None => [] end)
            ↔ ∀ x, o = Some x → P x) as Hstr.
  { intros o P f Hf. destruct o as [x|].
    - rewrite Forall_singleton, Hf. split; [by intros ? ? [= <-] | eauto].
    - split; [done | constructor]. }
  assert (∀ (o : option Z) (P : Z -> Prop) (f : Z -> Sql.SQL R),
            (∀ x, Sql.holds (f x) r ↔ P x) →
            Forall (fun c => Sql.holds c r)
              (match o with Some x => [f x] | None => [] end)
            ↔ ∀ x, o = Some x → P x) as Hnum.
  { intros o P f Hf. destruct o as [x|].
    - rewrite Forall_singleton, Hf. split; [by intros ? ? [= <-] | eauto].
    - split; [done | constructor]. }
  rewrite (Hstr (truthy_string (category input))
             (fun c => Listing.category l = c)).
  2:{ intros c. rewrite holds_eq, Hcol. unfold listings_.category. split; congruence. }
  rewrite (Hnum (priceMin input) (fun p => p <= Listing.price l)).
  2:{ intros p. rewrite holds_gte, Hcol. unfold listings_.price. split.
      - by intros (x & [= <-] & ?).
      - eauto. }
  rewrite (Hnum (priceMax input) (fun p => Listing.price l <= p)).
  2:{ intros p. rewrite holds_lte, Hcol. unfold listings_.price. split.
      - by intros (x & [= <-] & ?).
      - eauto. }
  rewrite (Hnum (userId input) (fun u => Listing.userId l = u)).
  2:{ intros u. rewrite holds_eq, Hcol. unfold listings_.userId. split; congruence. }
  rewrite (Hstr (truthy_string (search input))
             (fun term => searchHit term (Listing.title l)
                          ∨ searchHit term (Listing.content l)
                          ∨ searchHit term (Listing.category l))).
  2:{ intros term. cbv zeta. rewrite holds_or_, !Exists_cons, Exists_nil, !holds_like, !Hcol.
      unfold searchHit, listings_.title, listings_.content, listings_.category.
      split.
      - intros [(x & [= <-] & ?) | [(x & [= <-] & ?) | [(x & [= <-] & ?) | []]]]; eauto.
      - intros [? | [? | ?]]; eauto 6. }
  done.
Qed.

End ConditionFacts.

Lemma String_leb_trans (a b c : string) :
  String.leb a b = true → String.leb b c = true → String.leb a c = true.
Proof.
  unfold String.leb. revert b c.
  induction a as [|x a IH]; intros [|y b] [|z c]; simpl; try done.
  unfold Ascii.compare.
  destruct (N.compare_spec (N_of_ascii x) (N_of_ascii y)) as [Hxy|Hxy|Hxy];
    destruct (N.compare_spec (N_of_ascii y) (N_of_ascii z)) as [Hyz|Hyz|Hyz];
    destruct (N.compare_spec (N_of_ascii x) (N_of_ascii z)) as [Hxz|Hxz|Hxz];
    try done; try (exfalso; lia).
  apply IH.
Qed.

Lemma orderRel_total {R : Type} (key : R -> Listing.t) input :
  Total (ListingService.orderRel key input).
Proof.
  intros a b. unfold ListingService.orderRel, ListingService.orderLeb.
  destruct (sortBy input) as [[]|], (sortOrder input) as [[]|];
    first [ apply String.leb_total
          | destruct (Z.leb_spec (Listing.price (key a)) (Listing.price (key b)));
            destruct (Z.leb_spec (Listing.price (key b)) (Listing.price (key a)));
            auto; lia ].
Qed.

Lemma orderRel_trans {R : Type} (key : R -> Listing.t) input :
  Transitive (ListingService.orderRel key input).
Proof.
  intros a b c. unfold ListingService.orderRel, ListingService.orderLeb.
  destruct (sortBy input) as [[]|], (sortOrder input) as [[]|];
    first [ rewrite !Z.leb_le; lia
          | apply String_leb_trans
          | intros; by eapply String_leb_trans ].
Qed.

Lemma orderLeb_in_order input a b :
  ListingService.orderLeb input a b = true ↔ in_order input a b.
Proof.
  unfold ListingService.orderLeb, in_order.
  destruct (sortBy input) as [[]|], (sortOrder input) as [[]|];
    rewrite ?Z.leb_le; done.
Qed.

Lemma StronglySorted_lookup {A : Type} (R : relation A) (l : list A) (i j : nat) a b :
  StronglySorted R l → (i < j)%nat → l !! i = Some a → l !! j = Some b → R a b.
Proof.
  intros Hl. revert i j. induction Hl as [|x l Hl IH Hx]; intros i j Hij Ha Hb; [done|].
  destruct j as [|j]; [lia|]. destruct i as [|i]; simpl in *.
  - injection Ha as <-. rewrite Forall_forall in Hx. apply Hx.
    by eapply list_elem_of_lookup_2.
  - apply (IH i j); [lia | done..].
Qed.

Section PagingFacts.
Context {R : Type}.
Implicit Types (t : list R) (n m k : Z).

Lemma limit_offset_lookup n m t (i : nat) r :
  Sql.limit_offset n m t !! i = Some r → t !! (Z.to_nat m + i)%nat = Some r.
Proof.
  unfold Sql.limit_offset, Sql.limit, Sql.offset.
  destruct (n <? 0)%Z.
  - by rewrite lookup_drop.
  - intros [Hr _]%lookup_take_Some. by rewrite lookup_drop in Hr.
Qed.

Lemma limit_offset_length n m t :
  (0 <= n)%Z → (Z.of_nat (length (Sql.limit_offset n m t)) <= n)%Z.
Proof.
  intros Hn. unfold Sql.limit_offset, Sql.limit.
  destruct (Z.ltb_spec n 0); [lia|]. rewrite length_take. lia.
Qed.

Lemma limit_offset_tile n k m t :
  (0 <= n)%Z → (0 <= k)%Z → (0 <= m)%Z →
  (Sql.limit_offset n m t ++ Sql.limit_offset k (m + n) t)%list
  = Sql.limit_offset (n + k) m t.
Proof.
  intros Hn Hk Hm. unfold Sql.limit_offset, Sql.limit, Sql.offset.
  destruct (Z.ltb_spec n 0); [lia|]. destruct (Z.ltb_spec k 0); [lia|].
  destruct (Z.ltb_spec (n + k) 0); [lia|].
  rewrite !Z2Nat.inj_add by lia. rewrite <- drop_drop. apply take_take_drop.
Qed.

Lemma limit_offset_all n m t :
  (m <= 0)%Z → (n < 0 ∨ Z.of_nat (length t) <= n)%Z → Sql.limit_offset n m t = t.
Proof.
  intros Hm Hn. unfold Sql.limit_offset, Sql.limit, Sql.offset.
  replace (Z.to_nat m) with 0%nat by lia. rewrite drop_0.
  destruct (Z.ltb_spec n 0); [done|]. apply take_ge. lia.
Qed.

End PagingFacts.

(** What the two list queries return, as one expression each: the rows
    that pass a condition [c], ordered, then cut to the page. *)
Lemma getListings_rows input w :
  ∃ c : Sql.SQL Listing.t,
    (∀ r, Sql.holds c r ↔ passes input r)
    ∧ ListingService.getListings input w
      = (inr (Sql.limit_offset (limit input) (offset input)
                (Sql.orderBy (ListingService.orderRel id input)
                   (Sql.where_ c (listings (db w))))), w).
Proof.
  eexists. split; [|reflexivity]. intros r.
  rewrite holds_and_. by apply (conditions_pass (fun _ c => c) r r).
Qed.

Lemma getListingsWithImages_rows input w :
  ∃ c : Sql.SQL (Listing.t * option UserProfile.t),
    (∀ l op, Sql.holds c (l, op)
             ↔ (∃ p, op = Some p ∧ UserProfile.isBanned p = 0) ∧ passes input l)
    ∧ ListingService.getListingsWithImages input w
      = (inr (ListingService.withImages (db w)
                <$> (fst <$> Sql.limit_offset (limit input) (offset input)
                               (Sql.orderBy (ListingService.orderRel fst input)
                                  (Sql.where_ c (ListingService.joined (db w)))))), w).
Proof.
  eexists. split; [|reflexivity]. intros l op.
  rewrite holds_and_.
  match goal with
  | |- context [Forall ?P ([?a; ?b] ++ ?rest)%list] =>
      change (Forall P ([a; b] ++ rest)%list) with (Forall P (a :: ([b] ++ rest))%list)
  end.
  rewrite Forall_cons.
  rewrite (conditions_pass (fun C => @left_col Listing.t UserProfile.t C) (l, op) l)
    by done.
  rewrite holds_eq. unfold right_col, userProfiles_.isBanned. simpl.
  destruct op as [p|]; simpl.
  - split.
    + intros [[= ?] ?]. eauto.
    + intros [(p' & [= <-] & ->) ?]. done.
  - split; [by intros [? _] | by intros [(p & ? & _) _]].
Qed.

(** With one profile per user, the join has one row per listing. *)
Lemma joined_length d :
  NoDup (UserProfile.telegramId <$> userProfiles d) →
  length (ListingService.joined d) = length (listings d).
Proof.
  intros Hnd. unfold ListingService.joined, Sql.leftJoin.
  induction (listings d) as [|l t IH]; [done|].
  rewrite bind_cons, length_app, IH. simpl. f_equal.
  set (on := Sql.eq_col _ _).
  assert (length (filter (fun b => Sql.holds on (l, Some b)) (userProfiles d)) ≤ 1)%nat
    as Hle.
  { clear IH. induction (userProfiles d) as [|p ps IHp]; [simpl; lia|].
    rewrite fmap_cons in Hnd. apply NoDup_cons in Hnd as [Hp Hnd].
    destruct (decide (Sql.holds on (l, Some p))) as [Hon|Hon].
    - rewrite filter_cons_True by done. simpl.
      assert (filter (fun b => Sql.holds on (l, Some b)) ps = []) as ->; [|simpl; lia].
      apply elem_of_nil_inv. intros q [Hq Hin]%list_elem_of_filter.
      apply Hp. apply list_elem_of_fmap. exists q. split; [|done].
      unfold on, Sql.holds, Sql.eq_col, left_col, right_col in Hon, Hq.
      simpl in Hon, Hq. repeat case_bool_decide; congruence.
    - rewrite filter_cons_False by done. by apply IHp. }
  destruct (filter _ (userProfiles d)) as [|b [|b' bs]]; simpl in *; [done..|lia].
Qed.

Lemma withImages_keeps d l :
  Listing.price (listing (ListingService.withImages d l)) = Listing.price l
  ∧ Listing.createdAt (listing (ListingService.withImages d l)) = Listing.createdAt l.
Proof. done. Qed.

(** X1. Every row of a list query is a listing of the store that passes
    every filter given: status (active when none is given), category,
    price bounds, owner and search term; a row of
    [getListingsWithImages] also has an owner with a profile that is
    not banned. *)
Theorem list_queries_respect_filters (input : GetListingsInput) (w : World) :
  (∃ rows,
     ListingService.getListings input w = (inr rows, w)
     ∧ ∀ r, r ∈ rows → r ∈ listings (db w) ∧ passes input r)
  ∧ (∃ rows,
       ListingService.getListingsWithImages input w = (inr rows, w)
       ∧ ∀ r, r ∈ rows →
           ∃ l, l ∈ listings (db w)
                ∧ r = ListingService.withImages (db w) l
                ∧ passes input l
                ∧ listed_owner (db w) l).
Proof.
  split.
  - destruct (getListings_rows input w) as (c & Hc & ->).
    eexists. split; [reflexivity|]. intros r Hr.
    apply elem_of_limit_offset, elem_of_orderBy, elem_of_where_ in Hr as [Hr ?].
    split; [done|]. by apply Hc.
  - destruct (getListingsWithImages_rows input w) as (c & Hc & ->).
    eexists. split; [reflexivity|]. intros r.
    intros (l & -> & ([l' op] & -> & Hj)%list_elem_of_fmap)%list_elem_of_fmap.
    apply elem_of_limit_offset, elem_of_orderBy, elem_of_where_ in Hj as [Hh Hj].
    apply Hc in Hh as [(p & -> & Hban) Hpass].
    apply elem_of_leftJoin in Hj as [Hl [Hp Hon]]. simpl.
    exists l'. split_and!; try done. exists p. split_and!; try done.
    unfold Sql.holds, Sql.eq_col, left_col, right_col in Hon. simpl in Hon.
    case_bool_decide; congruence.
Qed.

(** X2. A page that starts at the first row and is as long as the table
    misses nothing: every listing of the store that passes the filters is
    returned by [getListings], and by [getListingsWithImages] when its
    owner has a profile that is not banned and no user has two
    profiles. *)
Theorem list_queries_complete (input : GetListingsInput) (w : World) (l : Listing.t) :
  offset input <= 0 →
  limit input < 0 ∨ Z.of_nat (length (listings (db w))) <= limit input →
  l ∈ listings (db w) →
  passes input l →
  (∃ rows, ListingService.getListings input w = (inr rows, w) ∧ l ∈ rows)
  ∧ (NoDup (UserProfile.telegramId <$> userProfiles (db w)) →
     listed_owner (db w) l →
     ∃ rows,
       ListingService.getListingsWithImages input w = (inr rows, w)
       ∧ ListingService.withImages (db w) l ∈ rows).
Proof.
  intros Hoff Hlim Hl Hpass. split.
  - destruct (getListings_rows input w) as (c & Hc & ->).
    eexists. split; [reflexivity|].
    rewrite limit_offset_all; [|done|].
    + apply elem_of_orderBy, elem_of_where_. split; [by apply Hc | done].
    + destruct Hlim as [?|Hlim]; [by left | right].
      unfold Sql.orderBy. rewrite merge_sort_Permutation.
      pose proof (length_filter (Sql.holds c) (listings (db w))).
      unfold Sql.where_. lia.
  - intros Hnd (p & Hp & Hjoin & Hban).
    destruct (getListingsWithImages_rows input w) as (c & Hc & ->).
    eexists. split; [reflexivity|].
    apply list_elem_of_fmap_2.
    apply (list_elem_of_fmap_2' fst _ (l, Some p)); [|done].
    rewrite limit_offset_all; [|done|].
    + apply elem_of_orderBy, elem_of_where_. split; [apply Hc; eauto|].
      unfold ListingService.joined, Sql.leftJoin. apply list_elem_of_bind.
      exists l. split; [|done].
      set (on := Sql.eq_col _ _).
      assert (p ∈ filter (fun b => Sql.holds on (l, Some b)) (userProfiles (db w)))
        as Hin.
      { apply list_elem_of_filter. split; [|done].
        unfold on, Sql.holds, Sql.eq_col, left_col, right_col. simpl.
        by rewrite bool_decide_true. }
      destruct (filter _ (userProfiles (db w))) as [|b bs];
        [by apply not_elem_of_nil in Hin|].
      by apply (list_elem_of_fmap_2 (fun b => (l, Some b))).
    + destruct Hlim as [?|Hlim]; [by left | right].
      unfold Sql.orderBy. rewrite merge_sort_Permutation.
      pose proof (length_filter (Sql.holds c) (ListingService.joined (db w))).
      pose proof (joined_length (db w) Hnd). unfold Sql.where_. lia.
Qed.

(** Alice's novel passes the price floor of 500 and is listed. *)
Lemma list_queries_complete_witness :
  ∃ rows,
    ListingService.getListingsWithImages
      (mkGetListingsInput 50 0 None (Some 500) None None None None None None)
      Sample.market = (inr rows, Sample.market)
    ∧ ListingService.withImages (db Sample.market) Sample.novel ∈ rows.
Proof.
  apply (list_queries_complete
           (mkGetListingsInput 50 0 None (Some 500) None None None None None None)
           Sample.market Sample.novel).
  - done.
  - right. simpl. lia.
  - do 2 right. left.
  - unfold passes. simpl. split_and!; try done.
    intros p [= <-]. unfold Listing.price. simpl. lia.
  - vm_compute. repeat constructor; intros H; inversion H; subst;
      match goal with H' : _ ∈ _ |- _ => inversion H' end.
  - exists (Sample.alice 0). split_and!; [left | done..].
Defined.

(** X3. The rows of a list query come in the order asked for: by price
    when [sortBy] is "price", else by [createdAt]; ascending when
    [sortOrder] is "asc", else descending. Any row and any later row of
    the same page are in that order. *)
Theorem list_queries_sorted (input : GetListingsInput) (w : World) :
  (∃ rows,
     ListingService.getListings input w = (inr rows, w)
     ∧ ∀ (i j : nat) a b,
         (i < j)%nat → rows !! i = Some a → rows !! j = Some b → in_order input a b)
  ∧ (∃ rows,
       ListingService.getListingsWithImages input w = (inr rows, w)
       ∧ ∀ (i j : nat) a b,
           (i < j)%nat → rows !! i = Some a → rows !! j = Some b →
           in_order input (listing a) (listing b)).
Proof.
  split.
  - destruct (getListings_rows input w) as (c & _ & ->).
    eexists. split; [reflexivity|]. intros i j a b Hij Ha Hb.
    apply limit_offset_lookup in Ha, Hb.
    apply orderLeb_in_order.
    pose proof (orderRel_trans (@id Listing.t) input).
    pose proof (orderRel_total (@id Listing.t) input).
    refine (StronglySorted_lookup (ListingService.orderRel id input) _ _ _ a b
              _ _ Ha Hb); [|lia].
    apply StronglySorted_merge_sort; done.
  - destruct (getListingsWithImages_rows input w) as (c & _ & ->).
    eexists. split; [reflexivity|]. intros i j a b Hij Ha Hb.
    rewrite !list_lookup_fmap in Ha, Hb.
    destruct (Sql.limit_offset _ _ _ !! i) as [[la pa]|] eqn:Hi; [|done].
    destruct (Sql.limit_offset _ _ _ !! j) as [[lb pb]|] eqn:Hj; [|done].
    simpl in Ha, Hb. injection Ha as <-. injection Hb as <-.
    apply limit_offset_lookup in Hi, Hj.
    pose proof (orderRel_trans (@fst Listing.t (option UserProfile.t)) input).
    pose proof (orderRel_total (@fst Listing.t (option UserProfile.t)) input).
    assert (ListingService.orderRel fst input (la, pa) (lb, pb)) as Hord.
    { refine (StronglySorted_lookup _ _ _ _ _ _ _ _ Hi Hj); [|lia].
      apply StronglySorted_merge_sort; done. }
    apply orderLeb_in_order in Hord. simpl in Hord.
    unfold in_order in *. rewrite !(proj1 (withImages_keeps _ _)),
      !(proj2 (withImages_keeps _ _)). exact Hord.
Qed.

(** The pages of a list query, cut from one list of rows. *)
Lemma getListings_pages input w :
  ∃ t, ∀ n m,
    ListingService.getListings (page input n m) w = (inr (Sql.limit_offset n m t), w).
Proof.
  exists (Sql.orderBy (ListingService.orderRel id input)
            (Sql.where_
               (Sql.and_
                  ([ListingService.statusCondition (fun _ c => c) input]
                   ++ ListingService.categoryCondition (fun _ c => c) input
                   ++ ListingService.priceMinCondition (fun _ c => c) input
                   ++ ListingService.priceMaxCondition (fun _ c => c) input
                   ++ ListingService.userCondition (fun _ c => c) input
                   ++ ListingService.searchCondition (fun _ c => c) input)%list)
               (listings (db w)))).
  intros n m. reflexivity.
Qed.

Lemma getListingsWithImages_pages input w :
  ∃ t : list (Listing.t * option UserProfile.t), ∀ n m,
    ListingService.getListingsWithImages (page input n m) w
    = (inr (ListingService.withImages (db w) <$> (fst <$> Sql.limit_offset n m t)), w).
Proof.
  pose (L := fun C => @left_col Listing.t UserProfile.t C).
  exists (Sql.orderBy
            (ListingService.orderRel (@fst Listing.t (option UserProfile.t)) input)
            (Sql.where_
               (Sql.and_
                  ([Sql.eq (right_col userProfiles_.isBanned) 0;
                    ListingService.statusCondition L input]
                   ++ ListingService.categoryCondition L input
                   ++ ListingService.priceMinCondition L input
                   ++ ListingService.priceMaxCondition L input
                   ++ ListingService.userCondition L input
                   ++ ListingService.searchCondition L input)%list)
               (ListingService.joined (db w)))).
  intros n m. reflexivity.
Qed.

(** X4. Pages tile the result: the page of [n] rows at offset [m]
    followed by the page of [k] rows at offset [m + n] is the page of
    [n + k] rows at offset [m], and a page never has more rows than its
    limit. *)
Theorem list_queries_pages_tile (input : GetListingsInput) (w : World) (n k m : Z) :
  0 <= n → 0 <= k → 0 <= m →
  (∃ first next both,
     ListingService.getListings (page input n m) w = (inr first, w)
     ∧ ListingService.getListings (page input k (m + n)) w = (inr next, w)
     ∧ ListingService.getListings (page input (n + k) m) w = (inr both, w)
     ∧ (first ++ next)%list = both
     ∧ Z.of_nat (length first) <= n)
  ∧ (∃ first next both,
       ListingService.getListingsWithImages (page input n m) w = (inr first, w)
       ∧ ListingService.getListingsWithImages (page input k (m + n)) w = (inr next, w)
       ∧ ListingService.getListingsWithImages (page input (n + k) m) w = (inr both, w)
       ∧ (first ++ next)%list = both
       ∧ Z.of_nat (length first) <= n).
Proof.
  intros Hn Hk Hm. split.
  - destruct (getListings_pages input w) as (t & Ht).
    eexists _, _, _. rewrite !Ht. split_and!; try reflexivity.
    + by apply limit_offset_tile.
    + by apply limit_offset_length.
  - destruct (getListingsWithImages_pages input w) as (t & Ht).
    eexists _, _, _. rewrite !Ht. split_and!; try reflexivity.
    + rewrite <- !fmap_app. by rewrite limit_offset_tile.
    + rewrite !length_fmap. by apply limit_offset_length.
Qed.

(** The market in pages of one row and of two rows. *)
Lemma list_queries_pages_tile_witness :
  ∃ first next,
    ListingService.getListings (page Sample.no_filters 1 0) Sample.market
    = (inr first, Sample.market)
    ∧ ListingService.getListings (page Sample.no_filters 2 1) Sample.market
      = (inr next, Sample.market)
    ∧ Listing.id <$> (first ++ next)%list = [3; 1; 2].
Proof.
  destruct (list_queries_pages_tile Sample.no_filters Sample.market 1 2 0)
    as [(first & next & both & H1 & H2 & H3 & Happ & _) _]; [lia..|].
  exists first, next. split; [exact H1|]. split; [exact H2|].
  rewrite Happ. vm_compute in H3. injection H3 as <-. reflexivity.
Defined.

(** X5. [getAllListings] sweeps before it reads: an active listing in its
    answer has not reached its expiry at the time of the request, whatever
    the filters. *)
Theorem browse_shows_no_overdue (now : Z) (nowIso : string)
    (filters : GetListingsInput) (w : World) :
  ∃ rows w',
    Api.getAllListings now nowIso filters w
    = (inr (mkResponse 200
              (Api.createPaginationResponse rows (limit filters) (offset filters))),
       w')
    ∧ ∀ r, r ∈ rows →
        Listing.status (listing r) = active → now < Listing.expiresAt (listing r).
Proof.
  unfold Api.getAllListings, Promise.try_catch, mbind, Promise_bind, Promise.bind.
  rewrite expireOldListings_run. cbv zeta beta iota.
  match goal with
  | |- context [ListingService.getListingsWithImages ?i ?w1] =>
      destruct (getListingsWithImages_elem i w1) as (rows & -> & Hrows)
  end.
  cbn [db listings] in Hrows.
  exists rows. eexists. split; [reflexivity|]. intros r Hr.
  destruct (Hrows r Hr) as (l & p & Hl & _ & _ & _ & _ & _ & ->).
  simpl. intros Hact.
  apply list_elem_of_fmap in Hl as (l0 & -> & _).
  destruct (decide (due now l0)) as [|Hnd]; [done|].
  destruct (decide (Listing.expiresAt l0 <= now)); [|lia].
  destruct Hnd. by split.
Qed.

(** ** Bumps in sequence with bumps and sweeps *)

Lemma findListing_bumped_world now nowIso input w old :
  findListing (listingId input) (db w) = Some old →
  findListing (listingId input) (db (bumped_world now nowIso input w))
  = Some (BumpService.setBumped
            (now + (if isPaid input then EXPIRY_PAID_BUMP_DAYS
                    else EXPIRY_FREE_BUMP_DAYS) * 24 * 60 * 60 * 1000)
            now nowIso old).
Proof.
  intros Hold. unfold bumped_world. cbn [db].
  destruct (db w) as [t ps ims] eqn:Hdb. cbn [listings userProfiles listingImages].
  rewrite (findListing_fmap
             (fun r => if decide (Listing.id r = listingId input) then _ else r)).
  - rewrite Hold. simpl. rewrite decide_True; [done|].
    unfold findListing in Hold. apply head_Some_elem_of in Hold.
    by apply list_elem_of_filter in Hold as [? _].
  - intros r. by destruct (decide _).
Qed.

(** X6. A successful bump starts the cooldown for everyone: until 24
    hours have passed since it, every further bump of the listing, free
    or paid, by the owner or by anyone else, is refused and leaves the
    store as it is. (The bump must not happen at clock reading 0, which
    the cooldown test would take for "never bumped".) *)
Theorem bump_starts_cooldown (checkedAt now : Z) (nowIso : string)
    (input : BumpListingInput) (w : World) (res : option Listing.t) (w1 : World) :
  BumpService.bumpListing checkedAt now nowIso input w = (inr res, w1) →
  now ≠ 0 →
  ∀ checkedAt2 now2 nowIso2 userId2 isPaid2,
    checkedAt2 - now < 24 * hour →
    ∃ e,
      BumpService.bumpListing checkedAt2 now2 nowIso2
        (mkBumpListingInput (listingId input) userId2 isPaid2) w1
      = (inl e, w1).
Proof.
  intros (_ & -> & old & Hold & _)%bumpListing_inr Hnow
    checkedAt2 now2 nowIso2 userId2 isPaid2 Hsoon.
  rewrite bumpListing_run. cbv zeta. cbn [listingId b_userId].
  assert (canBump (eligibility checkedAt2 (listingId input) userId2
                     (db (bumped_world now nowIso input w))) = false) as ->;
    [|by eexists].
  apply not_true_is_false. intros (l & Hl & _ & Hcool)%canBump_iff.
  rewrite (findListing_bumped_world _ _ _ _ _ Hold) in Hl. injection Hl as <-.
  specialize (Hcool now). simpl in Hcool.
  unfold BUMP_COOLDOWN_HOURS in Hcool.
  destruct now; [done| |]; specialize (Hcool eq_refl); lia.
Qed.

(** Alice's second bump an hour after the first is refused. *)
Lemma bump_starts_cooldown_witness :
  ∃ e,
    BumpService.bumpListing (Sample.t0 + hour) (Sample.t0 + hour) Sample.iso'
      (mkBumpListingInput 1 7 true) Sample.after_paid_bump
    = (inl e, Sample.after_paid_bump).
Proof.
  destruct (BumpService.bumpListing Sample.t0 Sample.t0 Sample.iso
              Sample.paid_bump Sample.fresh) as [[e|res] w1] eqn:Hrun.
  { vm_compute in Hrun. discriminate Hrun. }
  assert (w1 = Sample.after_paid_bump) as <-
    by (unfold Sample.after_paid_bump; by rewrite Hrun).
  refine (bump_starts_cooldown _ _ _ _ _ _ _ Hrun _
            (Sample.t0 + hour) (Sample.t0 + hour) Sample.iso' 7 true _).
  - done.
  - unfold hour. lia.
Defined.

(** X7. A bump shields the listing from the sweep until its new expiry:
    after a successful bump at [now], a sweep at time [t] leaves the
    listing active when [t] is before [now] plus the extension, and
    expires it otherwise. *)
Theorem bumped_listing_and_sweep (checkedAt now : Z) (nowIso : string)
    (input : BumpListingInput) (w : World) (res : option Listing.t) (w1 : World) :
  BumpService.bumpListing checkedAt now nowIso input w = (inr res, w1) →
  ∀ t tIso,
    ∃ swept w2,
      ListingService.expireOldListings t tIso w1 = (inr swept, w2)
      ∧ Listing.status <$> findListing (listingId input) (db w2)
        = Some (if decide (now + (if isPaid input then 7 else 3) * day <= t)
                then expired else active).
Proof.
  intros (_ & -> & old & Hold & _)%bumpListing_inr t tIso.
  rewrite expireOldListings_run. cbv zeta. eexists _, _. split; [reflexivity|].
  cbn [db].
  pose proof (findListing_bumped_world now nowIso input w old Hold) as Hfind.
  destruct (db (bumped_world now nowIso input w)) as [t1 ps ims] eqn:Hdb.
  cbn [listings userProfiles listingImages].
  rewrite (findListing_fmap
             (fun r => if decide (due t r) then ListingService.setExpired tIso r else r)).
  2:{ intros r. by destruct (decide _). }
  rewrite Hfind. cbn [fmap option_fmap option_map].
  pose proof (setBumped_bumped_from (isPaid input) now nowIso old)
    as (Hexp & _ & _ & Hst & _).
  revert Hexp Hst. generalize (BumpService.setBumped
    (now + (if isPaid input then EXPIRY_PAID_BUMP_DAYS else EXPIRY_FREE_BUMP_DAYS)
           * 24 * 60 * 60 * 1000) now nowIso old).
  intros new Hexp Hst. f_equal.
  destruct (decide (due t new)) as [[_ Hdue]|Hnd];
    destruct (decide (now + _ <= t)) as [?|?]; try done.
  - rewrite Hexp in Hdue. lia.
  - destruct Hnd. split; [done|]. rewrite Hexp. lia.
Qed.

(** The bike bumped for free at [t0] is still active two days later and
    expired after three. *)
Lemma bumped_listing_and_sweep_witness :
  Listing.status
    <$> findListing 1
          (db (ListingService.expireOldListings (Sample.t0 + 2 * day) Sample.iso'
                 (BumpService.bumpListing Sample.t0 Sample.t0 Sample.iso
                    Sample.free_bump Sample.fresh).2).2)
  = Some active.
Proof.
  destruct (BumpService.bumpListing Sample.t0 Sample.t0 Sample.iso
              Sample.free_bump Sample.fresh) as [[e|res] w1] eqn:Hrun.
  { vm_compute in Hrun. discriminate Hrun. }
  cbn [snd].
  destruct (bumped_listing_and_sweep _ _ _ _ _ _ _ Hrun (Sample.t0 + 2 * day) Sample.iso')
    as (swept & w2 & -> & Hst).
  cbn [snd]. exact Hst.
Defined.

(** ** The waiting time, in the service and on the listing page *)

Lemma Qle_bool_hours now last :
  Qle_bool (inject_Z BUMP_COOLDOWN_HOURS) (BumpService.hoursSinceLastBump now last) = true
  ↔ BUMP_COOLDOWN_HOURS * hour <= now - last.
Proof.
  pose proof (Qltb_hours now last) as Hlt. unfold Qltb in Hlt.
  destruct (Qle_bool _ _); simpl in Hlt; split; try done.
  - intros _. destruct (decide (BUMP_COOLDOWN_HOURS * hour <= now - last)); [done|].
    assert (false = true) by (apply Hlt; lia). done.
  - intros Hge. assert (now - last < BUMP_COOLDOWN_HOURS * hour) by (by apply Hlt). lia.
Qed.

(** The hours left are at least one during the cooldown and at most zero
    after it. *)
Lemma hours_left_sign now last :
  (now - last < BUMP_COOLDOWN_HOURS * hour
   → 1 <= Qceiling (inject_Z BUMP_COOLDOWN_HOURS
                    - BumpService.hoursSinceLastBump now last))
  ∧ (BUMP_COOLDOWN_HOURS * hour <= now - last
     → Qceiling (inject_Z BUMP_COOLDOWN_HOURS
                 - BumpService.hoursSinceLastBump now last) <= 0).
Proof.
  set (x := (inject_Z BUMP_COOLDOWN_HOURS - BumpService.hoursSinceLastBump now last)%Q).
  assert ((0 < x)%Q ↔ now - last < BUMP_COOLDOWN_HOURS * hour) as Hpos.
  { unfold x, BumpService.hoursSinceLastBump, BUMP_COOLDOWN_HOURS, hour.
    unfold Qlt, Qminus, Qplus, Qopp, Qmult, Qdiv, Qinv, inject_Z. simpl. lia. }
  split; intros Hc.
  - pose proof (Qle_ceiling x) as Hle.
    assert ((0 < inject_Z (Qceiling x))%Q) as Hgt
      by (eapply Qlt_le_trans; [by apply Hpos | done]).
    rewrite <- (Zlt_Qlt 0) in Hgt. lia.
  - pose proof (Qceiling_lt x) as Hlt.
    assert (¬ (0 < x)%Q) as Hnp by (rewrite Hpos; lia).
    apply Qnot_lt_le in Hnp.
    assert ((inject_Z (Qceiling x - 1) < 0)%Q) as Hneg
      by (eapply Qlt_le_trans; done).
    rewrite <- (Zlt_Qlt _ 0) in Hneg. lia.
Qed.

(** The rounding respects the equality of rationals, and keeps the
    integers below 2^53. *)
Lemma double_proper double x y :
  rounds_to_double double → (x == y)%Q → (double x == double y)%Q.
Proof.
  intros [Hmono _] Hxy. apply Qle_antisym; apply Hmono; rewrite Hxy; apply Qle_refl.
Qed.

Lemma double_Z double n :
  rounds_to_double double → Z.abs n < 2 ^ 53 →
  (double (inject_Z n) == inject_Z n)%Q.
Proof.
  intros Hd Hn. pose proof (proj2 Hd n 0 Hn ltac:(lia)) as Hexact.
  assert ((inject_Z n / inject_Z (2 ^ 0) == inject_Z n)%Q) as Hq.
  { change (inject_Z (2 ^ 0)) with 1%Q. field. }
  rewrite <- Hq at 2. rewrite <- Hexact. apply (double_proper double); [done|].
  symmetry. exact Hq.
Qed.

(** Once 24 hours have passed the rounded hours are at least 24. *)
Lemma double_hours_over double now last :
  rounds_to_double double →
  BUMP_COOLDOWN_HOURS * hour <= now - last →
  Qle_bool (inject_Z BUMP_COOLDOWN_HOURS)
    (double (BumpService.hoursSinceLastBump now last)) = true.
Proof.
  intros Hd Hge. apply Qle_bool_iff.
  rewrite <- (double_Z double BUMP_COOLDOWN_HOURS Hd) by (by vm_compute).
  apply (proj1 Hd).
  unfold BumpService.hoursSinceLastBump, BUMP_COOLDOWN_HOURS, hour in *.
  unfold Qle, Qdiv, Qmult, Qinv, inject_Z. simpl. lia.
Qed.

(** Before that they stay below 24 by a margin that no rounding closes,
    so that the product returned is positive; it is at most the
    milliseconds of 24 hours when the last bump is not in the future. *)
Lemma double_hours_within double now last :
  rounds_to_double double →
  now - last < BUMP_COOLDOWN_HOURS * hour →
  let h := double (BumpService.hoursSinceLastBump now last) in
  let ms :=
    (double
       (double (double (double (inject_Z BUMP_COOLDOWN_HOURS - h) * 60) * 60) * 1000))%Q in
  Qle_bool (inject_Z BUMP_COOLDOWN_HOURS) h = false
  ∧ (0 < ms)%Q
  ∧ (last <= now → (ms <= inject_Z (BUMP_COOLDOWN_HOURS * hour))%Q).
Proof.
  intros Hd Hlt h ms. pose proof (proj1 Hd) as Hmono.
  set (e := (inject_Z 1 / inject_Z (2 ^ 30))%Q).
  assert ((double e == e)%Q) as He by (apply (proj2 Hd); [by vm_compute | lia]).
  assert ((0 < e)%Q) as Hepos by (by vm_compute).
  assert ((h <= 24 - e)%Q) as Hh.
  { assert ((inject_Z (24 * 2 ^ 30 - 1) / inject_Z (2 ^ 30) == 24 - e)%Q) as Hr
      by (by vm_compute).
    rewrite <- Hr. rewrite <- (proj2 Hd (24 * 2 ^ 30 - 1) 30) by (by vm_compute || lia).
    apply Hmono.
    unfold BumpService.hoursSinceLastBump, BUMP_COOLDOWN_HOURS, hour in *.
    unfold Qle, Qdiv, Qmult, Qinv, inject_Z. simpl. lia. }
  change (inject_Z BUMP_COOLDOWN_HOURS) with 24%Q in *.
  assert (∀ x, (e <= x)%Q → (e <= double x)%Q) as Hup.
  { intros x Hx. rewrite <- He. by apply Hmono. }
  split_and!.
  - destruct (Qle_bool 24 h) eqn:Hq; [|done].
    apply Qle_bool_iff in Hq. lra.
  - subst ms.
    assert ((e <= double (24 - h))%Q) as H1 by (apply Hup; lra).
    assert ((e <= double (double (24 - h) * 60))%Q) as H2 by (apply Hup; lra).
    assert ((e <= double (double (double (24 - h) * 60) * 60))%Q) as H3
      by (apply Hup; lra).
    assert ((e <= double (double (double (double (24 - h) * 60) * 60) * 1000))%Q) as H4
      by (apply Hup; lra).
    lra.
  - intros Hle. subst ms.
    assert (∀ (n : Z) x, Z.abs n < 2 ^ 53 → (x <= inject_Z n)%Q →
                         (double x <= inject_Z n)%Q) as Hdown.
    { intros n x Hn Hx. rewrite <- (double_Z double n Hd Hn). by apply Hmono. }
    assert ((0 <= h)%Q) as Hh0.
    { change 0%Q with (inject_Z 0). rewrite <- (double_Z double 0 Hd) by (by vm_compute).
      apply Hmono.
      unfold BumpService.hoursSinceLastBump.
      unfold Qle, Qdiv, Qmult, Qinv, inject_Z. simpl. lia. }
    assert ((double (24 - h) <= 24)%Q) as H1
      by (apply (Hdown 24); [by vm_compute | unfold inject_Z; lra]).
    assert ((double (double (24 - h) * 60) <= 1440)%Q) as H2
      by (apply (Hdown 1440); [by vm_compute | unfold inject_Z; lra]).
    assert ((double (double (double (24 - h) * 60) * 60) <= 86400)%Q) as H3
      by (apply (Hdown 86400); [by vm_compute | unfold inject_Z; lra]).
    apply (Hdown (BUMP_COOLDOWN_HOURS * hour)); [by vm_compute|].
    change (inject_Z (BUMP_COOLDOWN_HOURS * hour)) with 86400000%Q. lra.
Qed.

Lemma getTimeUntilNextBump_run double now id w :
  BumpService.getTimeUntilNextBump double now id w
  = (inr match findListing id (db w) ≫= fun l => truthy_number (Listing.lastBumpedAt l)
         with
         | None => None
         | Some last =>
             let h := double (BumpService.hoursSinceLastBump now last) in
             if Qle_bool (inject_Z BUMP_COOLDOWN_HOURS) h
             then Some 0%Q
             else Some (double
                          (double
                             (double (double (inject_Z BUMP_COOLDOWN_HOURS - h) * 60)
                              * 60)
                           * 1000))%Q
         end, w).
Proof.
  unfold BumpService.getTimeUntilNextBump, mbind at 1, Promise_bind, Promise.bind,
    Promise.query.
  rewrite where_id_head.
  destruct (findListing id (db w) ≫= _) as [last|]; [|done].
  cbv zeta. by destruct (Qle_bool _ _).
Qed.

(** X8. [getTimeUntilNextBump] answers [null] when there is no such
    listing or it was never bumped (a stored 0 counts as never).
    Otherwise it answers 0 once 24 hours have passed since the last bump,
    and before that a positive number of milliseconds, at most those of
    24 hours when the last bump is not in the future. The number is a
    product of doubles; whatever the rounding of each operation, it is 0
    only when the cooldown is over, so the answer agrees with
    [canBumpListing]: the owner may bump exactly when it is [null] or
    0. *)
Theorem time_until_next_bump (double : Q -> Q) (now id : Z) (w : World) :
  rounds_to_double double →
  ∃ remaining,
    BumpService.getTimeUntilNextBump double now id w = (inr remaining, w)
    ∧ (remaining = None
       ↔ ∀ l last, findListing id (db w) = Some l →
                   Listing.lastBumpedAt l = Some last → last = 0)
    ∧ (∀ l last,
         findListing id (db w) = Some l →
         Listing.lastBumpedAt l = Some last → last ≠ 0 →
         ∃ ms, remaining = Some ms
               ∧ (24 * hour <= now - last → ms = 0%Q)
               ∧ (now - last < 24 * hour →
                  (0 < ms)%Q
                  ∧ (last <= now → (ms <= inject_Z (24 * hour))%Q)))
    ∧ (∀ l, findListing id (db w) = Some l →
         (canBump (eligibility now id (Listing.userId l) (db w)) = true
          ↔ match remaining with
            | None => True
            | Some ms => (ms == 0)%Q
            end)).
Proof.
  intros Hd.
  rewrite getTimeUntilNextBump_run. eexists. split; [reflexivity|].
  destruct (findListing id (db w)) as [l|] eqn:Hl; cbn [mbind option_bind].
  2:{ split_and!; [by split | done..]. }
  assert (∀ l', Some l = Some l' → l' = l) as Hsame by (by intros l' [= <-]).
  destruct (Listing.lastBumpedAt l) as [last|] eqn:Hlast.
  2:{ simpl. split_and!.
      - split; [|done]. intros _ l' last' ->%Hsame. congruence.
      - intros l' last' ->%Hsame. congruence.
      - intros l' ->%Hsame. split; [done|]. intros _.
        apply canBump_iff. exists l. split_and!; [done..|]. by rewrite Hlast. }
  destruct (decide (last = 0)) as [->|Hnz].
  { simpl. split_and!.
    - split; [|done]. intros _ l' last' ->%Hsame. congruence.
    - intros l' last' ->%Hsame. congruence.
    - intros l' ->%Hsame. split; [done|]. intros _.
      apply canBump_iff. exists l. split_and!; [done..|]. by rewrite Hlast. }
  assert (truthy_number (Some last) = Some last) as -> by (by destruct last).
  cbv zeta.
  assert (canBump (eligibility now id (Listing.userId l) (db w)) = true
          ↔ 24 * hour <= now - last) as Hcan.
  { rewrite canBump_iff. unfold BUMP_COOLDOWN_HOURS. split.
    - intros (l' & Hl' & _ & Hcool). rewrite Hl in Hl'. apply Hsame in Hl' as ->.
      apply Hcool. rewrite Hlast. by destruct last.
    - intros Hge. exists l. split_and!; [done..|]. rewrite Hlast.
      intros last' Hl'. by destruct last; simplify_eq/=. }
  destruct (decide (BUMP_COOLDOWN_HOURS * hour <= now - last)) as [Hge|Hlt].
  - rewrite (double_hours_over double now last Hd Hge).
    unfold BUMP_COOLDOWN_HOURS in Hge.
    split_and!.
    + split; [done|]. intros Hall. destruct Hnz. by apply (Hall l last).
    + intros l' last' ->%Hsame Hl' _. assert (last' = last) as -> by congruence.
      eexists. split; [reflexivity|]. split; [done | lia].
    + intros l' ->%Hsame. rewrite Hcan. split; [done | by intros _].
  - destruct (double_hours_within double now last Hd ltac:(lia)) as (-> & Hpos & Hmax).
    unfold BUMP_COOLDOWN_HOURS in Hlt, Hpos, Hmax.
    split_and!.
    + split; [done|]. intros Hall. destruct Hnz. by apply (Hall l last).
    + intros l' last' ->%Hsame Hl' _. assert (last' = last) as -> by congruence.
      eexists. split; [reflexivity|]. split; [lia | done].
    + intros l' ->%Hsame. rewrite Hcan. split; [lia|]. intros Hz.
      unfold BUMP_COOLDOWN_HOURS in Hz. rewrite Hz in Hpos. by vm_compute in Hpos.
Qed.

(** The rounding of the samples is one the model admits. *)
Lemma fixed_rounds_to_double : rounds_to_double Sample.fixed.
Proof.
  assert ((0 < inject_Z (2 ^ 40))%Q) as Hc by (by vm_compute).
  split.
  - intros x y Hxy. unfold Sample.fixed.
    apply Qmult_le_compat_r; [|by vm_compute].
    rewrite <- Zle_Qle. apply Qfloor_resp_le.
    apply Qmult_le_compat_r; [done | by apply Qlt_le_weak].
  - intros m k Hm Hk. unfold Sample.fixed.
    assert ((0 < inject_Z (2 ^ k))%Q) as Hk0.
    { change 0%Q with (inject_Z 0). rewrite <- Zlt_Qlt. apply Z.pow_pos_nonneg; lia. }
    assert ((inject_Z (2 ^ 40) == inject_Z (2 ^ k) * inject_Z (2 ^ (40 - k)))%Q) as Hpow.
    { rewrite <- inject_Z_mult, <- Z.pow_add_r by lia. by replace (k + (40 - k)) with 40 by lia. }
    assert ((inject_Z m / inject_Z (2 ^ k) * inject_Z (2 ^ 40)
             == inject_Z (m * 2 ^ (40 - k)))%Q) as Hq.
    { rewrite Hpow, inject_Z_mult. field. lra. }
    rewrite (Qfloor_comp _ _ Hq), Qfloor_Z, Hpow, inject_Z_mult. field.
    assert ((0 < inject_Z (2 ^ (40 - k)))%Q).
    { change 0%Q with (inject_Z 0). rewrite <- Zlt_Qlt. apply Z.pow_pos_nonneg; lia. }
    split; lra.
Qed.

(** The bike was bumped at [t0]: a millisecond later the owner has to
    wait, a positive time of at most 24 hours, and a day later no more. *)
Lemma time_until_next_bump_witness :
  ∃ ms,
    (BumpService.getTimeUntilNextBump Sample.fixed (Sample.t0 + 1) 1
       (Sample.store [Sample.bike active (Sample.t0 + 3 * day) (Some Sample.t0) 1]
          [Sample.alice 0])).1
    = inr (Some ms)
    ∧ (0 < ms)%Q ∧ (ms <= inject_Z (24 * hour))%Q
    ∧ (BumpService.getTimeUntilNextBump Sample.fixed (Sample.t0 + day) 1
         (Sample.store [Sample.bike active (Sample.t0 + 3 * day) (Some Sample.t0) 1]
            [Sample.alice 0])).1
      = inr (Some 0%Q).
Proof.
  destruct (time_until_next_bump Sample.fixed (Sample.t0 + 1) 1
              (Sample.store [Sample.bike active (Sample.t0 + 3 * day) (Some Sample.t0) 1]
                 [Sample.alice 0]) fixed_rounds_to_double)
    as (remaining & Hrun & _ & Hbumped & _).
  destruct (Hbumped _ Sample.t0 eq_refl eq_refl ltac:(done))
    as (ms & -> & _ & Hwithin).
  destruct Hwithin as [Hpos Hmax]; [by vm_compute|].
  destruct (time_until_next_bump Sample.fixed (Sample.t0 + day) 1
              (Sample.store [Sample.bike active (Sample.t0 + 3 * day) (Some Sample.t0) 1]
                 [Sample.alice 0]) fixed_rounds_to_double)
    as (remaining' & Hrun' & _ & Hbumped' & _).
  destruct (Hbumped' _ Sample.t0 eq_refl eq_refl ltac:(done))
    as (ms' & -> & Hover & _).
  rewrite Hover in Hrun' by (by vm_compute).
  exists ms. rewrite Hrun, Hrun'. split; [reflexivity|].
  split; [exact Hpos|]. split; [apply Hmax; by vm_compute | reflexivity].
Defined.

(** X9. The listing page decides like the service: for the listing as
    stored, the page offers the bump buttons exactly when
    [canBumpListing] lets the owner bump, and while it does not, the
    hours the page shows are the hours the service reports. *)
Theorem listing_page_agrees_with_service (now : Z) (w : World) (l : Listing.t) :
  findListing (Listing.id l) (db w) = Some l →
  let e := eligibility now (Listing.id l) (Listing.userId l) (db w) in
  ListingDetail.canBump (Some l) now = canBump e
  ∧ (ListingDetail.getTimeUntilNextBump (Some l) now = 0 ↔ canBump e = true)
  ∧ (canBump e = false
     → hoursUntilNextBump e = Some (ListingDetail.getTimeUntilNextBump (Some l) now)).
Proof.
  intros Hl e. subst e.
  unfold ListingDetail.canBump, ListingDetail.getTimeUntilNextBump, eligibility.
  rewrite Hl, bool_decide_true by done. simpl.
  destruct (truthy_number (Listing.lastBumpedAt l)) as [last|]; simpl; [|done].
  pose proof (Qle_bool_hours now last) as Hover.
  pose proof (hours_left_sign now last) as [Hin Hout].
  unfold Qltb. destruct (Qle_bool _ _) eqn:Hq; simpl.
  - assert (BUMP_COOLDOWN_HOURS * hour <= now - last) as Hge by (by apply Hover).
    specialize (Hout Hge). split_and!; [done| |done].
    split; [done|]. intros _. lia.
  - assert (now - last < BUMP_COOLDOWN_HOURS * hour) as Hlt.
    { destruct (decide (BUMP_COOLDOWN_HOURS * hour <= now - last)) as [Hge|]; [|lia].
      apply Hover in Hge. congruence. }
    specialize (Hin Hlt). split_and!; [done| |].
    + split; [lia | done].
    + intros _. f_equal. lia.
Qed.

(** The bumped bike, looked at 23 hours later: no buttons, one hour. *)
Lemma listing_page_agrees_with_service_witness :
  ListingDetail.canBump
    (Some (Sample.bike active (Sample.t0 + 3 * day) (Some Sample.t0) 1))
    (Sample.t0 + 23 * hour) = false
  ∧ ListingDetail.getTimeUntilNextBump
      (Some (Sample.bike active (Sample.t0 + 3 * day) (Some Sample.t0) 1))
      (Sample.t0 + 23 * hour) = 1.
Proof.
  destruct (listing_page_agrees_with_service (Sample.t0 + 23 * hour) Sample.bumped
              (Sample.bike active (Sample.t0 + 3 * day) (Some Sample.t0) 1) eq_refl)
    as (Hcan & _ & Hhours).
  split.
  - rewrite Hcan. vm_compute. reflexivity.
  - assert (∀ a b : Z, Some a = Some b → b = a) as Hinj by (by intros a b [= ->]).
    apply Hinj. rewrite <- Hhours; vm_compute; reflexivity.
Defined.

(** ** The timer of a listing *)

Lemma last_char_app (s t : string) :
  t ≠ EmptyString → last_char (s +:+ t) = last_char t.
Proof.
  intros Ht. induction s as [|c s IH]; [done|].
  simpl. rewrite IH. destruct (s +:+ t) eqn:Hst; [|done].
  destruct s; simpl in Hst; [done | discriminate].
Qed.

Lemma last_char_unit (s unit : string) (c : ascii) :
  last_char unit = Some c → last_char (s +:+ unit) = Some c.
Proof.
  intros Hc. rewrite last_char_app; [done|]. by intros ->.
Qed.

(** X10. The timer reads "Expired" exactly when the expiry is reached,
    that is for the very listings the sweep at that moment takes off the
    active ones. Before that it shows the whole days and hours, or hours
    and minutes, or minutes left, rounded down to the minute. Its colour
    is green while more than 24 hours are left and red from one hour
    down. *)
Theorem timer_text_and_colour (now expiresAt : Z) :
  (FrontendConstants.formatTimeRemaining now expiresAt = "Expired" ↔ expiresAt <= now)
  ∧ (∀ r, Listing.expiresAt r = expiresAt →
       (due now r
        ↔ Listing.status r = active
          ∧ FrontendConstants.formatTimeRemaining now expiresAt = "Expired"))
  ∧ (now < expiresAt →
     ∃ days hours minutes,
       0 <= days ∧ 0 <= hours < 24 ∧ 0 <= minutes < 60
       ∧ days * day + hours * hour + minutes * minute <= expiresAt - now
       ∧ expiresAt - now < days * day + hours * hour + (minutes + 1) * minute
       ∧ FrontendConstants.formatTimeRemaining now expiresAt
         = if decide (0 < days) then
             number_to_string days +:+ "d " +:+ number_to_string hours +:+ "h"
           else if decide (0 < hours) then
             number_to_string hours +:+ "h " +:+ number_to_string minutes +:+ "m"
           else number_to_string minutes +:+ "m")
  ∧ (FrontendConstants.getTimeRemainingColor now expiresAt = "text-green-600"
     ↔ day < expiresAt - now)
  ∧ (FrontendConstants.getTimeRemainingColor now expiresAt = "text-red-600"
     ↔ expiresAt - now <= hour).
Proof.
  assert (FrontendConstants.formatTimeRemaining now expiresAt = "Expired"
          ↔ expiresAt <= now) as Hexpired.
  { unfold FrontendConstants.formatTimeRemaining. cbv zeta.
    destruct (Z.leb_spec (expiresAt - now) 0) as [Hle|Hgt].
    - split; [lia | done].
    - split; [|lia]. intros Hs. exfalso.
      assert (last_char "Expired" = Some "d"%char) as Hd by reflexivity.
      rewrite <- Hs in Hd.
      destruct (0 <? _)%Z; [|destruct (0 <? _)%Z].
      + rewrite (last_char_unit _ ("d " +:+ _ +:+ "h") "h") in Hd; [done|].
        apply (last_char_unit "d "). by apply last_char_unit.
      + rewrite (last_char_unit _ ("h " +:+ _ +:+ "m") "m") in Hd; [done|].
        apply (last_char_unit "h "). by apply last_char_unit.
      + rewrite (last_char_unit _ "m" "m") in Hd; done. }
  split_and!.
  - exact Hexpired.
  - intros r <-. unfold due. rewrite Hexpired. done.
  - intros Hlt. unfold FrontendConstants.formatTimeRemaining. cbv zeta.
    destruct (Z.leb_spec (expiresAt - now) 0) as [Hle|Hgt]; [lia|].
    set (diff := expiresAt - now) in *.
    exists (diff / (1000 * 60 * 60 * 24)),
      (Z.rem diff (1000 * 60 * 60 * 24) / (1000 * 60 * 60)),
      (Z.rem diff (1000 * 60 * 60) / (1000 * 60)).
    unfold day, hour, minute.
    split_and!; try (Z.to_euclidean_division_equations; lia).
    destruct (Z.ltb_spec 0 (diff / (1000 * 60 * 60 * 24)));
      destruct (decide (0 < diff / (1000 * 60 * 60 * 24))); try lia; [done|].
    destruct (Z.ltb_spec 0 (Z.rem diff (1000 * 60 * 60 * 24) / (1000 * 60 * 60)));
      destruct (decide (0 < Z.rem diff (1000 * 60 * 60 * 24) / (1000 * 60 * 60)));
      try lia; done.
  - unfold FrontendConstants.getTimeRemainingColor. cbv zeta.
    assert (∀ k, Qltb (inject_Z k) (inject_Z (expiresAt - now) / inject_Z (1000 * 60 * 60))
                 = true ↔ k * hour < expiresAt - now) as Hk.
    { intros k. unfold Qltb, hour.
      rewrite negb_true_iff, <- not_true_iff_false, Qle_bool_iff.
      unfold Qle, Qdiv, Qmult, Qinv, inject_Z. simpl. lia. }
    pose proof (Hk 24) as H24. pose proof (Hk 1) as H1. unfold hour, day in *.
    change (inject_Z 24) with 24%Q in H24. change (inject_Z 1) with 1%Q in H1.
    destruct (Qltb 24 _); [split; [lia | done]|].
    destruct (Qltb 1 _); (split; [done | lia]).
  - unfold FrontendConstants.getTimeRemainingColor. cbv zeta.
    assert (∀ k, Qltb (inject_Z k) (inject_Z (expiresAt - now) / inject_Z (1000 * 60 * 60))
                 = true ↔ k * hour < expiresAt - now) as Hk.
    { intros k. unfold Qltb, hour.
      rewrite negb_true_iff, <- not_true_iff_false, Qle_bool_iff.
      unfold Qle, Qdiv, Qmult, Qinv, inject_Z. simpl. lia. }
    pose proof (Hk 24) as H24. pose proof (Hk 1) as H1. unfold hour, day in *.
    change (inject_Z 24) with 24%Q in H24. change (inject_Z 1) with 1%Q in H1.
    destruct (Qltb 24 _); [split; [done | lia]|].
    destruct (Qltb 1 _); [split; [done | lia]|]. split; [lia | done].
Qed.

(** Two days, five hours and a half before the expiry the timer shows
    "2d 5h". *)
Lemma timer_text_and_colour_witness :
  FrontendConstants.formatTimeRemaining Sample.t0
    (Sample.t0 + 2 * day + 5 * hour + 30 * minute) = "2d 5h"
  ∧ ∃ days hours minutes,
      days * day + hours * hour + minutes * minute <= 2 * day + 5 * hour + 30 * minute
      ∧ FrontendConstants.formatTimeRemaining Sample.t0
          (Sample.t0 + 2 * day + 5 * hour + 30 * minute)
        = if decide (0 < days) then
            number_to_string days +:+ "d " +:+ number_to_string hours +:+ "h"
          else if decide (0 < hours) then
            number_to_string hours +:+ "h " +:+ number_to_string minutes +:+ "m"
          else number_to_string minutes +:+ "m".
Proof.
  split; [vm_compute; reflexivity|].
  destruct (timer_text_and_colour Sample.t0
              (Sample.t0 + 2 * day + 5 * hour + 30 * minute))
    as (_ & _ & Hparts & _).
  destruct Hparts as (d & h & m & _ & _ & _ & Hle & _ & Htext).
  { unfold day, hour, minute. lia. }
  exists d, h, m. split; [|exact Htext].
  unfold day, hour, minute in *. lia.
Defined.

(** ** The images of a listing *)

Lemma holds_listingId id (i : ListingImage.t) :
  Sql.holds (Sql.eq listingImages_.listingId id) i ↔ ListingImage.listingId i = id.
Proof. rewrite holds_eq. unfold listingImages_.listingId. split; congruence. Qed.

Lemma getListingImageCount_run scan listingId w :
  ImageService.getListingImageCount scan listingId w
  = (inr (default 0
            (truthy_number
               (head (ListingImage.id
                        <$> scan (filter (fun i => ListingImage.listingId i = listingId)
                                    (listingImages (db w))))))), w).
Proof.
  unfold ImageService.getListingImageCount, Promise.query, Sql.where_. cbv zeta.
  rewrite (list_filter_iff _ (fun i => ListingImage.listingId i = listingId)); [done|].
  intros i. apply holds_listingId.
Qed.

(** X11. [getListingImageCount] does not count: it answers 0 for a
    listing without images and otherwise the id of one of the image rows
    of the listing, the one the store answers first. For a listing with
    one image the answer is the id of that image. *)
Theorem image_count_is_an_id (scan : list ListingImage.t -> list ListingImage.t)
    (listingId : Z) (w : World) :
  answers_in_some_order scan →
  ∃ count,
    ImageService.getListingImageCount scan listingId w = (inr count, w)
    ∧ (filter (fun i => ListingImage.listingId i = listingId) (listingImages (db w)) = []
       → count = 0)
    ∧ (filter (fun i => ListingImage.listingId i = listingId) (listingImages (db w)) ≠ []
       → ∃ i, i ∈ listingImages (db w)
              ∧ ListingImage.listingId i = listingId
              ∧ count = ListingImage.id i)
    ∧ (∀ i,
         filter (fun i => ListingImage.listingId i = listingId) (listingImages (db w)) = [i]
         → count = ListingImage.id i).
Proof.
  intros Hscan. rewrite getListingImageCount_run. eexists. split; [reflexivity|].
  specialize (Hscan (filter (fun i => ListingImage.listingId i = listingId)
                       (listingImages (db w)))).
  assert (∀ first : ListingImage.t,
            default 0 (truthy_number (Some (ListingImage.id first)))
            = ListingImage.id first) as Hid
    by (intros first; by destruct (ListingImage.id first)).
  split_and!.
  - intros Hnone. rewrite Hnone in Hscan. apply Permutation_nil_r in Hscan.
    by rewrite Hnone, Hscan.
  - intros Hsome. destruct (scan _) as [|first rest] eqn:Hrows.
    + symmetry in Hscan. apply Permutation_nil_r in Hscan. done.
    + exists first.
      assert (first ∈ filter (fun i => ListingImage.listingId i = listingId)
                        (listingImages (db w))) as Hin
        by (rewrite <- Hscan; left).
      apply list_elem_of_filter in Hin as [Hl Hin]. split_and!; [done..|].
      simpl. apply Hid.
  - intros i Hone. rewrite Hone in Hscan. apply Permutation_singleton_r in Hscan.
    rewrite Hone, Hscan. simpl. apply Hid.
Qed.

(** Two photos of the bike, stored with ids 5 and 6; a store that answers
    the later one first makes the count 6. *)
Lemma image_count_is_an_id_witness :
  (ImageService.getListingImageCount reverse 1
     (world_of (mkDatabase [] [] [Sample.photo 5 1; Sample.photo 6 0]))).1
  = inr 6
  ∧ ∃ i, i ∈ [Sample.photo 5 1; Sample.photo 6 0] ∧ ListingImage.id i = 6.
Proof.
  destruct (image_count_is_an_id reverse 1
              (world_of (mkDatabase [] [] [Sample.photo 5 1; Sample.photo 6 0])))
    as (count & Hrun & _ & Hsome & _).
  { intros t. apply reverse_Permutation. }
  destruct Hsome as (i & Hin & _ & Hcount); [by vm_compute|].
  assert (count = 6) as Hsix by (vm_compute in Hrun; congruence).
  rewrite Hrun. split; [by rewrite Hsix|].
  exists i. split; [exact Hin | congruence].
Defined.

(** The images of a listing, as both services read them. *)
Lemma images_rows listingId d :
  ∃ t : list ListingImage.t,
    t ≡ₚ filter (fun i => ListingImage.listingId i = listingId) (listingImages d)
    ∧ StronglySorted ListingService.byUploadOrder t
    ∧ ListingService.getListingImagesData listingId d
      = (fun image =>
           mkImageUrlData (ListingImage.id image) (ListingImage.imageKey image)
             (ListingImage.thumbnailKey image) (ListingImage.width image)
             (ListingImage.height image) (ListingImage.originalName image)
             (ListingImage.fileSize image) (ListingImage.uploadOrder image)) <$> t.
Proof.
  eexists. split_and!; [| |reflexivity].
  - unfold Sql.orderBy, Sql.where_. rewrite merge_sort_Permutation.
    rewrite (list_filter_iff _ (fun i => ListingImage.listingId i = listingId)); [done|].
    intros i. apply holds_listingId.
  - assert (Transitive ListingService.byUploadOrder)
      by (intros a b c; unfold ListingService.byUploadOrder; lia).
    assert (Total ListingService.byUploadOrder)
      by (intros a b; unfold ListingService.byUploadOrder; lia).
    by apply StronglySorted_merge_sort.
Qed.

(** X12. The images of a listing come in upload order, and they are the
    image rows of that listing, each once: [getListingImages] of the
    image service and the images attached to a listing by the listing
    service are the same list. *)
Theorem listing_images_in_upload_order (listingId : Z) (w : World) :
  ∃ images,
    ImageService.getListingImages listingId w = (inr images, w)
    ∧ images = ListingService.getListingImagesData listingId (db w)
    ∧ (∀ (i j : nat) a b,
         (i < j)%nat → images !! i = Some a → images !! j = Some b →
         i_uploadOrder a <= i_uploadOrder b)
    ∧ i_id <$> images
      ≡ₚ ListingImage.id
           <$> filter (fun i => ListingImage.listingId i = listingId)
                 (listingImages (db w)).
Proof.
  eexists. split; [reflexivity|]. split; [reflexivity|].
  change (_ <$> Sql.orderBy _ _)
    with (ListingService.getListingImagesData listingId (db w)).
  destruct (images_rows listingId (db w)) as (t & Hperm & Hsorted & ->). split.
  - intros i j a b Hij Ha Hb. rewrite list_lookup_fmap in Ha, Hb.
    destruct (t !! i) as [x|] eqn:Hx; [|done]. destruct (t !! j) as [y|] eqn:Hy; [|done].
    simpl in Ha, Hb. injection Ha as <-. injection Hb as <-. simpl.
    exact (StronglySorted_lookup _ _ _ _ _ _ Hsorted Hij Hx Hy).
  - rewrite <- Hperm, <- list_fmap_compose. done.
Qed.

(** ** The detail of a listing *)

Lemma getListingByIdWithImages_run id w :
  ListingService.getListingByIdWithImages id w
  = (inr (ListingService.withImages (db w) <$> findListing id (db w)), w).
Proof.
  unfold ListingService.getListingByIdWithImages, Promise.query.
  rewrite where_id_head. by destruct (findListing id (db w)).
Qed.

(** With ids that are unique, the listing found for the id of a row is
    the row. *)
Lemma findListing_unique d l :
  NoDup (Listing.id <$> listings d) → l ∈ listings d →
  findListing (Listing.id l) d = Some l.
Proof.
  unfold findListing. induction (listings d) as [|r t IH]; intros Hnd Hl.
  - by apply not_elem_of_nil in Hl.
  - rewrite fmap_cons in Hnd. apply NoDup_cons in Hnd as [Hr Hnd].
    apply elem_of_cons in Hl as [->|Hl].
    + by rewrite filter_cons_True.
    + rewrite filter_cons_False; [by apply IH|].
      intros Heq. apply Hr. rewrite Heq. by apply list_elem_of_fmap_2.
Qed.

(** X13. The detail query finds a listing by its id alone: it answers
    nothing exactly when no listing has the id, and otherwise answers
    whatever the status of the listing and whether or not its owner has a
    profile or is banned. With unique ids, the detail query for the id
    of a browse row answers with the values of that row, column by
    column: the listing columns (the text that the browse row carries
    under the key [description] and the detail answer under [content]
    among them), the effective display name, the profile and the
    images. *)
Theorem detail_query (id : Z) (w : World) :
  ∃ res,
    ListingService.getListingByIdWithImages id w = (inr res, w)
    ∧ (res = None ↔ ∀ l, l ∈ listings (db w) → Listing.id l ≠ id)
    ∧ (∀ l, findListing id (db w) = Some l →
         res = Some (ListingService.withImages (db w) l)
         ∧ Listing.status (listing (ListingService.withImages (db w) l))
           = Listing.status l)
    ∧ (NoDup (Listing.id <$> listings (db w)) →
       ∀ input rows r,
         ListingService.getListingsWithImages input w = (inr rows, w) →
         r ∈ rows → Listing.id (listing r) = id →
         ∃ d, res = Some d
              ∧ same_item (listing r) (listing d)
              ∧ same_bumps (listing r) (listing d)
              ∧ Listing.status (listing d) = Listing.status (listing r)
              ∧ Listing.updatedAt (listing d) = Listing.updatedAt (listing r)
              ∧ profile d = profile r
              ∧ images d = images r).
Proof.
  rewrite getListingByIdWithImages_run. eexists. split; [reflexivity|]. split_and!.
  - unfold findListing. destruct (filter _ _) as [|l t] eqn:Hf; simpl.
    + split; [|done]. intros _ l Hl Hid.
      assert (l ∈ filter (fun r => Listing.id r = id) (listings (db w))) as Hin
        by (by apply list_elem_of_filter).
      rewrite Hf in Hin. by apply not_elem_of_nil in Hin.
    + split; [done|]. intros Hnone. exfalso.
      assert (l ∈ filter (fun r => Listing.id r = id) (listings (db w))) as Hin
        by (rewrite Hf; left).
      apply list_elem_of_filter in Hin as [Hid Hin]. by apply (Hnone l).
  - intros l ->. done.
  - intros Hnd input rows r Hrun Hr Hid.
    destruct (getListingsWithImages_elem input w) as (rows' & Hrun' & Hrows).
    rewrite Hrun in Hrun'. injection Hrun' as <-.
    destruct (Hrows r Hr) as (l & p & Hl & _ & _ & _ & _ & _ & ->).
    simpl in Hid. subst id. rewrite (findListing_unique _ _ Hnd Hl).
    eexists. split; [reflexivity|].
    unfold same_item, same_bumps. split_and!; reflexivity.
Qed.

(** Alice is banned and her bike archived: the browse is empty, the
    detail query still answers with the bike. *)
Lemma detail_query_witness :
  (ListingService.getListingsWithImages Sample.no_filters
     (Sample.store [Sample.bike archived (Sample.t0 - day) None 0] [Sample.alice 1])).1
  = inr []
  ∧ ∃ r,
      (ListingService.getListingByIdWithImages 1
         (Sample.store [Sample.bike archived (Sample.t0 - day) None 0]
            [Sample.alice 1])).1
      = inr (Some r)
      ∧ Listing.status (listing r) = archived.
Proof.
  split; [vm_compute; reflexivity|].
  destruct (detail_query 1
              (Sample.store [Sample.bike archived (Sample.t0 - day) None 0]
                 [Sample.alice 1])) as (res & Hrun & _ & Hfound & _).
  destruct (Hfound _ eq_refl) as [-> Hst].
  eexists. rewrite Hrun. split; [reflexivity|]. exact Hst.
Defined.

(** X14. The detail handler sweeps, then answers 404 exactly when no
    listing has the id and otherwise 200 with that listing as the sweep
    left it: expired when it was active and due, else with the status it
    had. An id that is not a number is answered with 400 and the store
    is left alone. *)
Theorem detail_handler (now : Z) (nowIso : string) (w : World) :
  Api.getListingById now nowIso None w
  = (inr (Api.mkReply 400 (Api.ErrorReply "Invalid listing ID")), w)
  ∧ ∀ id,
      ∃ reply w',
        Api.getListingById now nowIso (Some id) w = (inr reply, w')
        ∧ match findListing id (db w) with
          | None => reply = Api.mkReply 404 (Api.ErrorReply "Listing not found")
          | Some l =>
              ∃ r, reply = Api.mkReply 200 (Api.DetailReply r)
                   ∧ Listing.id (listing r) = id
                   ∧ Listing.status (listing r)
                     = (if decide (Listing.status l = active ∧ Listing.expiresAt l <= now)
                        then expired else Listing.status l)
          end.
Proof.
  split; [done|]. intros id.
  unfold Api.getListingById, Promise.try_catch, mbind, Promise_bind, Promise.bind.
  rewrite expireOldListings_run. cbv zeta beta iota.
  rewrite getListingByIdWithImages_run. cbn [db].
  destruct (db w) as [t ps ims] eqn:Hdb. cbn [listings userProfiles listingImages].
  rewrite (findListing_fmap
             (fun r => if decide (due now r) then ListingService.setExpired nowIso r else r)).
  2:{ intros r. by destruct (decide _). }
  destruct (findListing id _) as [l|] eqn:Hl; simpl.
  - eexists _, _. split; [reflexivity|]. eexists. split; [reflexivity|]. simpl.
    unfold due. split.
    + unfold findListing in Hl. apply head_Some_elem_of in Hl.
      apply list_elem_of_filter in Hl as [Hid _]. by destruct (decide _).
    + by destruct (decide _).
  - eexists _, _. split; reflexivity.
Qed.

(** ** Creating and deleting listings *)

(** X15. A listing is created active, never bumped, with no bumps
    counted and three days to live, after the listings there were, which
    stay as they are. Given a fresh id, it is the listing found under
    that id, its owner may bump it at once, and no sweep before the three
    days are over expires it. *)
Theorem created_listing (rowid : Z) (now : string) (dateNow : Z)
    (userId : Z) (username displayName : string)
    (input : ListingService.CreateListingInput) (w : World) :
  (∀ r, r ∈ listings (db w) → Listing.id r ≠ rowid) →
  ∃ new w',
    ListingService.createListing rowid now dateNow userId username displayName input w
    = (inr (Some new), w')
    ∧ listings (db w') = (listings (db w) ++ [new])%list
    ∧ statements w' = db w' :: statements w
    ∧ Listing.status new = active
    ∧ Listing.expiresAt new = dateNow + 3 * day
    ∧ Listing.lastBumpedAt new = None
    ∧ Listing.bumpCount new = 0
    ∧ Listing.userId new = userId
    ∧ Listing.price new = ListingService.c_price input
    ∧ findListing rowid (db w') = Some new
    ∧ (∀ t, canBump (eligibility t rowid userId (db w')) = true)
    ∧ (∀ t tIso, t < dateNow + 3 * day →
         Listing.status
           <$> findListing rowid
                 (db (ListingService.expireOldListings t tIso w').2)
         = Some active).
Proof.
  intros Hfresh.
  unfold ListingService.createListing, mbind, Promise_bind, Promise.bind,
    Promise.execute, Sql.insert. cbv zeta beta iota.
  unfold mret, Promise_ret, Promise.ret. simpl head.
  eexists _, _. split; [reflexivity|]. cbn [db listings statements].
  set (new := Listing.mk _ _ _ _ _ _ _ _ _ _ _ _ _ _ _ _ _).
  assert (findListing rowid
            (mkDatabase (listings (db w) ++ [new]) (userProfiles (db w))
               (listingImages (db w))) = Some new) as Hfind.
  { unfold findListing. cbn [listings]. rewrite filter_app.
    assert (filter (fun r => Listing.id r = rowid) (listings (db w)) = []) as ->.
    { apply elem_of_nil_inv. intros r [Hid Hr]%list_elem_of_filter.
      by apply (Hfresh r). }
    by rewrite filter_cons_True. }
  split_and!; try done.
  - intros t. apply canBump_iff. exists new. split_and!; done.
  - intros t tIso Ht. rewrite expireOldListings_run. cbv zeta. cbn [snd db listings
      userProfiles listingImages].
    rewrite (findListing_fmap
               (fun r => if decide (due t r) then ListingService.setExpired tIso r else r)).
    2:{ intros r. by destruct (decide _). }
    rewrite Hfind. simpl. rewrite decide_False; [done|].
    intros [_ Hdue]. unfold new, EXPIRY_DEFAULT_DAYS, day in *.
    cbn [Listing.expiresAt] in Hdue. lia.
Qed.

(** Alice lists a novel in the empty store. *)
Lemma created_listing_witness :
  ∃ new w',
    ListingService.createListing 1 Sample.iso Sample.t0 7 "alice" "Alice"
      (ListingService.mkCreateListingInput "Novel" "A paperback" 900 "books")
      (Sample.store [] [])
    = (inr (Some new), w')
    ∧ Listing.expiresAt new = Sample.t0 + 3 * day.
Proof.
  destruct (created_listing 1 Sample.iso Sample.t0 7 "alice" "Alice"
              (ListingService.mkCreateListingInput "Novel" "A paperback" 900 "books")
              (Sample.store [] []))
    as (new & w' & Hrun & _ & _ & _ & Hexp & _).
  - intros r Hr. by apply not_elem_of_nil in Hr.
  - by exists new, w'.
Defined.

Lemma delete_ext {R : Type} (c : Sql.SQL R) (P : R -> Prop)
    `{∀ r, Decision (P r)} (t : list R) :
  (∀ r, Sql.holds c r ↔ P r) →
  Sql.delete c t = (filter (fun r => ¬ P r) t, filter P t).
Proof.
  intros Hc. unfold Sql.delete. f_equal; apply list_filter_iff; intros r;
    by rewrite Hc.
Qed.

Lemma cascade_nil foreignKeys images :
  ListingService.cascade foreignKeys [] images = images.
Proof.
  unfold ListingService.cascade. destruct foreignKeys; [|done].
  induction images as [|i t IH]; [done|].
  rewrite filter_cons_True; [by rewrite IH|]. apply not_elem_of_nil.
Qed.

(** X16. [deleteListing] removes a listing only for its owner: the rows
    with the given id and owner go, and every other listing and the
    images of every other listing stay, unchanged and in order; in a
    store that enforces foreign keys the images of the deleted listing go
    with it. When the user owns no listing with the id, nothing is
    returned and the database is as before. [deleteListingByIdOnly]
    removes the rows with the id whoever owns them, after which no
    listing is found under the id. *)
Theorem delete_only_for_owner (foreignKeys : bool) (id userId : Z) (w : World) :
  (∃ deleted w',
     ListingService.deleteListing foreignKeys id userId w = (inr deleted, w')
     ∧ (∀ r, r ∈ listings (db w')
             ↔ r ∈ listings (db w) ∧ ¬ (Listing.id r = id ∧ Listing.userId r = userId))
     ∧ listings (db w') `sublist_of` listings (db w)
     ∧ (∀ i, i ∈ listingImages (db w') → i ∈ listingImages (db w))
     ∧ (∀ i, i ∈ listingImages (db w) → ListingImage.listingId i ≠ id →
             i ∈ listingImages (db w'))
     ∧ userProfiles (db w') = userProfiles (db w)
     ∧ (∀ l, deleted = Some l →
             l ∈ listings (db w) ∧ Listing.id l = id ∧ Listing.userId l = userId
             ∧ (foreignKeys = true →
                ∀ i, i ∈ listingImages (db w') → ListingImage.listingId i ≠ id))
     ∧ ((∀ r, r ∈ listings (db w) → Listing.id r = id → Listing.userId r ≠ userId) →
        deleted = None ∧ db w' = db w))
  ∧ (∃ deleted w',
       ListingService.deleteListingByIdOnly foreignKeys id w = (inr deleted, w')
       ∧ (∀ r, r ∈ listings (db w') ↔ r ∈ listings (db w) ∧ Listing.id r ≠ id)
       ∧ deleted = findListing id (db w)
       ∧ findListing id (db w') = None).
Proof.
  split.
  - unfold ListingService.deleteListing, mbind, Promise_bind, Promise.bind,
      Promise.execute.
    rewrite (delete_ext _ (fun r => Listing.id r = id ∧ Listing.userId r = userId))
      by (intros r; apply holds_owned).
    cbv beta iota zeta. unfold mret, Promise_ret, Promise.ret.
    eexists _, _. split; [reflexivity|]. cbn [db listings userProfiles listingImages].
    split_and!.
    + intros r. rewrite list_elem_of_filter. tauto.
    + apply sublist_filter.
    + unfold ListingService.cascade. destruct foreignKeys; [|done].
      intros i [_ ?]%list_elem_of_filter. done.
    + unfold ListingService.cascade. destruct foreignKeys; [|done].
      intros i Hi Hne. apply list_elem_of_filter. split; [|done].
      intros (r & Hid & [[Hr _] _]%list_elem_of_filter)%list_elem_of_fmap. congruence.
    + done.
    + intros l Hl. apply head_Some_elem_of in Hl.
      apply list_elem_of_filter in Hl as [[Hid Hu] Hin]. split_and!; try done.
      intros ->. unfold ListingService.cascade.
      intros i [Hi _]%list_elem_of_filter Heq. apply Hi.
      apply list_elem_of_fmap. exists l. split; [congruence|].
      by apply list_elem_of_filter.
    + intros Hnot.
      assert (filter (fun r => Listing.id r = id ∧ Listing.userId r = userId)
                (listings (db w)) = []) as ->.
      { apply elem_of_nil_inv. intros r [[Hid Hu] Hr]%list_elem_of_filter.
        by apply (Hnot r). }
      split; [done|]. rewrite cascade_nil.
      destruct (db w) as [t ps ims]. cbn [listings userProfiles listingImages] in *.
      f_equal. induction t as [|r t IH]; [done|].
      rewrite filter_cons_True.
      * f_equal. apply IH. intros r' Hr'. apply Hnot. by right.
      * intros [Hid Hu]. apply (Hnot r); [left | done..].
  - unfold ListingService.deleteListingByIdOnly, mbind, Promise_bind, Promise.bind,
      Promise.execute.
    rewrite (delete_ext _ (fun r => Listing.id r = id)) by (intros r; apply holds_id).
    cbv beta iota zeta. unfold mret, Promise_ret, Promise.ret.
    eexists _, _. split; [reflexivity|]. cbn [db listings].
    split_and!.
    + intros r. rewrite list_elem_of_filter. tauto.
    + done.
    + unfold findListing. cbn [listings]. rewrite list_filter_filter.
      assert (filter (fun x => Listing.id x = id ∧ ¬ Listing.id x = id) (listings (db w))
              = []) as ->; [|done].
      apply elem_of_nil_inv. intros r [[? ?] _]%list_elem_of_filter. done.
Qed.

(** ** The handlers of a single listing *)

(** X17. The bump handler always answers, and it writes to the store only
    for a free request of an authenticated user who owns the listing and
    is outside the cooldown: the answer is then 200 with the bumped row,
    three days of life from [now]. Every other request leaves the
    database and the statements as they were: 401 without a session, 400
    for an id that is no number, 200 with a notice for a paid request,
    which extends nothing, and 500 with the reason when the service
    refuses the bump. No request reaches the network. *)
Theorem bump_handler (checkedAt now : Z) (nowIso : string)
    (auth : Api.AuthResult) (listingId : option Z) (body : JsError + bool) (w : World) :
  ∃ reply w',
    Api.bumpListing checkedAt now nowIso auth listingId body w = (inr reply, w')
    ∧ outbox w' = outbox w
    ∧ ((db w' = db w ∧ statements w' = statements w ∧ ∀ l, Api.r_body reply ≠ Api.ListingReply l)
       ∨ (∃ session id old,
            auth = Api.Authenticated session ∧ listingId = Some id ∧ body = inr false
            ∧ findListing id (db w) = Some old
            ∧ Listing.userId old = s_userId session
            ∧ (∀ last, truthy_number (Listing.lastBumpedAt old) = Some last →
                       BUMP_COOLDOWN_HOURS * hour <= checkedAt - last)
            ∧ ∃ new,
                reply = Api.mkReply 200 (Api.ListingReply (Some new))
                ∧ bumped_from false now nowIso old new
                ∧ findListing id (db w') = Some new
                ∧ statements w' = db w' :: statements w))
    ∧ (∀ message, auth = Api.AuthError message →
         reply = Api.mkReply 401 (Api.ErrorReply message) ∧ w' = w)
    ∧ (∀ session, auth = Api.Authenticated session →
         match listingId, body with
         | None, _ => reply = Api.mkReply 400 (Api.ErrorReply "Invalid listing ID") ∧ w' = w
         | Some id, inl error => reply = Api.mkReply 500 (Api.ErrorReply (message_of error))
         | Some id, inr true =>
             w' = w
             ∧ reply = Api.mkReply 200
                 (Api.MessageReply
                    "Paid bump requires payment - to be implemented with Telegram Stars")
         | Some id, inr false =>
             let e := eligibility checkedAt id (s_userId session) (db w) in
             canBump e = false →
             reply = Api.mkReply 500
                       (Api.ErrorReply (or_else (reason e) "Cannot bump listing"))
         end).
Proof.
  unfold Api.bumpListing, Promise.try_catch.
  destruct auth as [message|session].
  { eexists _, _. split; [reflexivity|]. split_and!; try done.
    - left. done.
    - by intros m [= ->]. }
  destruct listingId as [id|]; cycle 1.
  { eexists _, _. split; [reflexivity|]. split_and!; try done. left. done. }
  destruct body as [error|[|]].
  - eexists _, _. split; [reflexivity|]. split_and!; try done. left. done.
  - eexists _, _. split; [reflexivity|]. split_and!; try done. left. done.
  - cbn [negb]. unfold mbind, Promise_bind, Promise.bind.
    rewrite bumpListing_run. cbv zeta. cbn [listingId b_userId isPaid].
    destruct (canBump _) eqn:He.
    + pose proof He as (old & Hold & Hown & Hcool)%canBump_iff.
      eexists _, _. split; [reflexivity|]. split_and!; try done.
      * right. exists session, id, old. split_and!; try done.
        rewrite Hold. eexists. split; [reflexivity|]. split_and!.
        -- apply (setBumped_bumped_from false).
        -- by apply (findListing_bumped_world now nowIso
                       (mkBumpListingInput id (s_userId session) false)).
        -- done.
      * intros s [= <-]. congruence.
    + eexists _, _. split; [reflexivity|]. split_and!; try done.
      * left. done.
      * by intros s [= <-] _.
Qed.

(** What the archive of the administration returns and leaves, whether
    the listing exists or not. *)
Lemma adminArchive_run env now id reason w :
  ∃ w',
    AdminService.archiveListing env now id reason w
    = (inr match findListing id (db w) with
           | Some l => mkArchiveResult true (Some (AdminService.setArchived now l)) None
           | None => mkArchiveResult false None (Some "Listing not found")
           end, w')
    ∧ match findListing id (db w) with
      | Some l =>
          db w'
          = mkDatabase
              ((fun r => if decide (Listing.id r = id)
                         then AdminService.setArchived now r else r)
                 <$> listings (db w))
              (userProfiles (db w)) (listingImages (db w))
          ∧ statements w' = db w' :: statements w
      | None => w' = w
      end.
Proof.
  unfold AdminService.archiveListing, Promise.try_catch, mbind, Promise_bind,
    Promise.bind, Promise.query at 1.
  rewrite where_id_head.
  destruct (findListing id (db w)) as [l|] eqn:Hl; cbv beta iota; [|by eexists].
  unfold Promise.execute.
  rewrite (update_ext _ _ (fun r => Listing.id r = id)) by (intros r; apply holds_id).
  cbv beta iota zeta.
  match goal with
  | |- context [AdminService.sendArchiveNotification ?e ?u ?t ?r ?w1] =>
      destruct (sendArchiveNotification_safe e u t r w1)
        as (w' & -> & Hdb & Hstmts & _)
  end.
  cbn [db statements] in Hdb, Hstmts.
  unfold mret, Promise_ret, Promise.ret.
  exists w'. rewrite Hdb, Hstmts. split; [|done].
  do 3 f_equal. unfold findListing in Hl. by destruct (filter _ _); simplify_eq/=.
Qed.

(** X18. The archive handler is for administrators: a request without a
    session is answered 401 and one of a session without the role admin
    403, before the listing id or the reason is looked at, and the world
    stays as it was. Whatever the request, the handler answers; when the
    answer is not 200 the database, the statements and the outbox are
    unchanged; when it is 200 the session is an administrator's, a reason
    was given, and the listing with the id, which existed, is archived in
    the store and returned, every other listing being as before. *)
Theorem archive_handler (env : Env) (now : string)
    (auth : Api.AuthResult) (listingId : option Z) (body : JsError + option string)
    (w : World) :
  ∃ reply w',
    Api.archiveListing env now auth listingId body w = (inr reply, w')
    ∧ (∀ message, auth = Api.AuthError message →
         reply = Api.mkReply 401 (Api.ErrorReply message) ∧ w' = w)
    ∧ (∀ session, auth = Api.Authenticated session → role session ≠ "admin" →
         reply = Api.mkReply 403 (Api.ErrorReply "Admin access required") ∧ w' = w)
    ∧ (Api.r_code reply ≠ 200 →
         Api.r_code reply ∈ [400; 401; 403; 500]
         ∧ db w' = db w ∧ statements w' = statements w ∧ outbox w' = outbox w)
    ∧ (Api.r_code reply = 200 →
         ∃ session id reason old,
           auth = Api.Authenticated session ∧ role session = "admin"
           ∧ listingId = Some id
           ∧ body = inr (Some reason) ∧ reason ≠ ""
           ∧ findListing id (db w) = Some old
           ∧ reply = Api.mkReply 200
                       (Api.ArchivedReply "Listing archived successfully"
                          (Some (AdminService.setArchived now old)))
           ∧ findListing id (db w') = Some (AdminService.setArchived now old)
           ∧ (∀ i r, listings (db w) !! i = Some r → Listing.id r ≠ id →
                     listings (db w') !! i = Some r)
           ∧ length (listings (db w')) = length (listings (db w)))
    ∧ (∀ session id reason,
         auth = Api.Authenticated session → role session = "admin" →
         listingId = Some id → body = inr (Some reason) → reason ≠ "" →
         findListing id (db w) = None →
         reply = Api.mkReply 500 (Api.ErrorReply "Listing not found") ∧ w' = w).
Proof.
  unfold Api.archiveListing, Promise.try_catch.
  destruct auth as [message|session].
  { eexists _, _. split; [reflexivity|]. cbn [Api.r_code].
    split_and!; try done.
    - by intros m [= ->].
    - intros _. split; [|done]. rewrite !elem_of_cons. auto. }
  case_bool_decide as Hrole; cbn [negb]; cycle 1.
  { eexists _, _. split; [reflexivity|]. cbn [Api.r_code].
    split_and!; try done.
    - intros _. split; [|done]. rewrite !elem_of_cons. auto.
    - intros s i r' [= <-] ?. done. }
  destruct listingId as [id|]; cycle 1.
  { eexists _, _. split; [reflexivity|]. cbn [Api.r_code].
    split_and!; try done.
    - intros s [= <-]. done.
    - intros _. split; [|done]. rewrite !elem_of_cons. auto. }
  destruct body as [error|reason].
  { eexists _, _. split; [reflexivity|]. cbn [Api.r_code].
    split_and!; try done.
    - intros s [= <-]. done.
    - intros _. split; [|done]. rewrite !elem_of_cons. auto. }
  destruct (truthy_string reason) as [reason'|] eqn:Hreason; cycle 1.
  { eexists _, _. split; [reflexivity|]. cbn [Api.r_code].
    split_and!; try done.
    - intros s [= <-]. done.
    - intros _. split; [|done]. rewrite !elem_of_cons. auto.
    - intros s i r' _ _ _ [= ->] Hne _. by destruct r' as [|? ?]. }
  assert (reason = Some reason' ∧ reason' ≠ "") as [-> Hne].
  { destruct reason as [[|??]|]; simplify_eq/=; done. }
  unfold mbind, Promise_bind, Promise.bind.
  destruct (adminArchive_run env now id reason' w) as (w' & -> & Hw').
  destruct (findListing id (db w)) as [old|] eqn:Hold; cbn [success negb a_listing a_error].
  - destruct Hw' as [Hdb Hstmts].
    eexists _, _. unfold mret, Promise_ret, Promise.ret. split; [reflexivity|].
    cbn [Api.r_code]. split_and!; try done.
    + intros s [= <-]. done.
    + intros _. exists session, id, reason', old. split_and!; try done.
      * rewrite Hdb.
        rewrite (findListing_fmap
                   (fun r => if decide (Listing.id r = id) then _ else r)).
        -- destruct (db w) as [t ps ims]. cbn [listings userProfiles listingImages] in *.
           rewrite Hold. simpl. rewrite decide_True; [done|].
           unfold findListing in Hold. apply head_Some_elem_of in Hold.
           by apply list_elem_of_filter in Hold as [? _].
        -- intros r. by destruct (decide _).
      * intros i r Hr Hid. rewrite Hdb. cbn [listings].
        rewrite list_lookup_fmap, Hr. simpl. by rewrite decide_False.
      * rewrite Hdb. cbn [listings]. by rewrite length_fmap.
    + intros s i r' _ _ [= <-] _ _ ?. congruence.
  - subst w'. eexists _, _. unfold mret, Promise_ret, Promise.ret.
    split; [reflexivity|]. cbn [Api.r_code]. split_and!; try done.
    + intros s [= <-]. done.
    + intros _. split; [|done]. rewrite !elem_of_cons. auto.
Qed.

(** ** The other writes of the listing service *)

Lemma findListing_None id d :
  findListing id d = None ↔ ∀ r, r ∈ listings d → Listing.id r ≠ id.
Proof.
  unfold findListing. split.
  - intros Hnone r Hr Hid.
    assert (r ∈ filter (fun r => Listing.id r = id) (listings d)) as Hin
      by (by apply list_elem_of_filter).
    destruct (filter _ _); [by apply elem_of_nil in Hin | done].
  - intros Hall. destruct (filter _ _) as [|r t] eqn:Hf; [done|].
    assert (r ∈ filter (fun r => Listing.id r = id) (listings d)) as Hin
      by (rewrite Hf; left).
    apply list_elem_of_filter in Hin as [Hid Hr]. by destruct (Hall r).
Qed.

(** X19. [archiveListing] of the listing service writes what the archive
    of the administration writes: for every listing id, reason and bot
    token the two leave the same database and return the same row, the
    listing with status archived and every column but [status] and
    [updatedAt] as before. The listing service sends nothing and logs
    nothing. After either, no default list query, which asks for active
    listings, returns a listing with the id. *)
Theorem archive_services_agree (env : Env) (now : string) (id : Z) (reason : string)
    (w : World) :
  ∃ archived w1 result w2,
    ListingService.archiveListing now id w = (inr archived, w1)
    ∧ AdminService.archiveListing env now id reason w = (inr result, w2)
    ∧ db w1 = db w2
    ∧ archived = a_listing result
    ∧ outbox w1 = outbox w ∧ console w1 = console w
    ∧ (∀ l, archived = Some l →
         ∃ old, findListing id (db w) = Some old
                ∧ Listing.status l = LISTING_STATUS.ARCHIVED
                ∧ Listing.updatedAt l = now
                ∧ same_item old l ∧ same_bumps old l)
    ∧ (∀ input rows w',
         status input = None →
         ListingService.getListings input w1 = (inr rows, w') →
         ∀ r, r ∈ rows → Listing.id r ≠ id).
Proof.
  destruct (adminArchive_run env now id reason w) as (w2 & Hrun & Hw2).
  unfold ListingService.archiveListing, mbind, Promise_bind, Promise.bind,
    Promise.execute.
  rewrite (update_ext _ _ (fun r => Listing.id r = id)) by (intros r; apply holds_id).
  cbv beta iota zeta. unfold mret, Promise_ret, Promise.ret.
  eexists _, _, _, w2. split; [reflexivity|]. split; [exact Hrun|].
  cbn [db outbox console].
  assert (head (ListingService.setArchived now
                  <$> filter (fun r => Listing.id r = id) (listings (db w)))
          = ListingService.setArchived now <$> findListing id (db w)) as ->.
  { unfold findListing. by destruct (filter _ _). }
  split_and!; try done.
  - destruct (findListing id (db w)) as [old|] eqn:Hold.
    + destruct Hw2 as [-> _]. done.
    + subst w2. destruct (db w) as [t ps ims] eqn:Hdb.
      cbn [listings userProfiles listingImages]. f_equal.
      rewrite <- (list_fmap_id t) at 2. apply list_fmap_ext. intros i r Hr.
      rewrite decide_False; [done|].
      rewrite findListing_None in Hold. apply Hold. cbn [listings].
      by eapply list_elem_of_lookup_2.
  - by destruct (findListing id (db w)).
  - intros l Hl. destruct (findListing id (db w)) as [old|]; [|done].
    exists old. simplify_eq/=. done.
  - intros input rows w' Hstatus Hrows r Hr Hid.
    destruct (getListings_rows input
                (mkWorld
                   (mkDatabase
                      ((fun r => if decide (Listing.id r = id)
                                 then ListingService.setArchived now r else r)
                         <$> listings (db w))
                      (userProfiles (db w)) (listingImages (db w)))
                   (mkDatabase
                      ((fun r => if decide (Listing.id r = id)
                                 then ListingService.setArchived now r else r)
                         <$> listings (db w))
                      (userProfiles (db w)) (listingImages (db w)) :: statements w)
                   (console w) (network w) (outbox w)))
      as (c & Hc & Hq).
    rewrite Hq in Hrows. injection Hrows as <- _.
    apply elem_of_limit_offset, elem_of_orderBy, elem_of_where_ in Hr as [Hpass Hr].
    apply Hc in Hpass as [Hst _]. rewrite Hstatus in Hst.
    cbn [db listings] in Hr.
    apply list_elem_of_fmap in Hr as (r0 & -> & _).
    destruct (decide (Listing.id r0 = id)); [done|]. done.
Qed.

(** X20. [updateUserDisplayNameInListings] answers true and rewrites the
    listings of the user, and only them: each carries the new display
    name and [updatedAt] at [now], with every other column as before;
    the listings of other users, the profiles and the images are
    untouched, and no listing is added or removed. *)
Theorem display_name_update (now : string) (userId : Z) (newDisplayName : string)
    (w : World) :
  ∃ w',
    ListingService.updateUserDisplayNameInListings now userId newDisplayName w
    = (inr true, w')
    ∧ userProfiles (db w') = userProfiles (db w)
    ∧ listingImages (db w') = listingImages (db w)
    ∧ length (listings (db w')) = length (listings (db w))
    ∧ (∀ i r, listings (db w) !! i = Some r →
         ∃ r', listings (db w') !! i = Some r'
               ∧ if decide (Listing.userId r = userId)
                 then Listing.displayName r' = newDisplayName
                      ∧ Listing.updatedAt r' = now
                      ∧ same_bumps r r'
                      ∧ Listing.status r' = Listing.status r
                      ∧ Listing.id r' = Listing.id r
                      ∧ Listing.userId r' = Listing.userId r
                      ∧ Listing.username r' = Listing.username r
                      ∧ Listing.title r' = Listing.title r
                      ∧ Listing.content r' = Listing.content r
                      ∧ Listing.price r' = Listing.price r
                      ∧ Listing.category r' = Listing.category r
                      ∧ Listing.starCount r' = Listing.starCount r
                      ∧ Listing.paymentId r' = Listing.paymentId r
                      ∧ Listing.isPaymentPending r' = Listing.isPaymentPending r
                      ∧ Listing.createdAt r' = Listing.createdAt r
                 else r' = r)
    ∧ (∀ r', r' ∈ listings (db w') → Listing.userId r' = userId →
             Listing.displayName r' = newDisplayName).
Proof.
  unfold ListingService.updateUserDisplayNameInListings, mbind, Promise_bind,
    Promise.bind, Promise.execute.
  rewrite (update_ext _ _ (fun r => Listing.userId r = userId)).
  2:{ intros r. rewrite holds_eq. unfold listings_.userId. split; congruence. }
  cbv beta iota zeta. unfold mret, Promise_ret, Promise.ret.
  eexists. split; [reflexivity|]. cbn [db listings userProfiles listingImages].
  split_and!; try done.
  - by rewrite length_fmap.
  - intros i r Hr. rewrite list_lookup_fmap, Hr. simpl. eexists. split; [done|].
    destruct (decide _); [|done]. unfold same_bumps. simpl. split_and!; done.
  - intros r' (r & -> & _)%list_elem_of_fmap Hu.
    destruct (decide _); [done|]. done.
Qed.

(** ** The parsing of a list request *)

(** X21. Whatever the query parameters and whatever [parseInt] makes of
    them, the limit of a list request is between 1 and 100 and the offset
    is not negative, so that a list query with them returns at most 100
    rows. A limit that is absent, empty, not a number or 0 counts as 50
    and a negative one as 1; an offset that is absent, not a number or
    negative counts as 0. *)
Theorem pagination_bounds (parseInt : string -> option Z)
    (limitQuery offsetQuery : option string) :
  ∃ limit' offset',
    Api.parsePagination parseInt limitQuery offsetQuery = (limit', offset')
    ∧ 1 <= limit' <= 100 ∧ 0 <= offset'
    ∧ (∀ input w, ∃ rows,
         ListingService.getListingsWithImages (page input limit' offset') w
         = (inr rows, w)
         ∧ Z.of_nat (length rows) <= limit')
    ∧ (∀ given, truthy_string limitQuery = Some given →
         match parseInt given with
         | None | Some 0 => limit' = 50
         | Some n => limit' = Z.min (Z.max n 1) 100
         end)
    ∧ (∀ given, truthy_string offsetQuery = Some given →
         match parseInt given with
         | None => offset' = 0
         | Some n => offset' = Z.max n 0
         end)
    ∧ (parseInt "50" = Some 50 → truthy_string limitQuery = None → limit' = 50)
    ∧ (parseInt "0" = Some 0 → truthy_string offsetQuery = None → offset' = 0).
Proof.
  unfold Api.parsePagination. cbv zeta. eexists _, _. split; [reflexivity|].
  split_and!; try lia.
  - intros input w. destruct (getListingsWithImages_pages input w) as (t & ->).
    eexists. split; [reflexivity|]. rewrite !length_fmap.
    apply limit_offset_length. lia.
  - intros given Hg. unfold or_else. rewrite Hg. simpl.
    destruct (parseInt given) as [[|n|n]|]; simpl; lia.
  - intros given Hg. unfold or_else. rewrite Hg. simpl.
    destruct (parseInt given) as [[|n|n]|]; simpl; lia.
  - intros H50 Hg. unfold or_else. rewrite Hg. simpl. rewrite H50. simpl. lia.
  - intros H0 Hg. unfold or_else. rewrite Hg. simpl. rewrite H0. simpl. lia.
Qed.

(** ** The search *)

Lemma like_percent_cons p a s :
  Sql.like_match ("%"%char :: p) (a :: s)
  = Sql.like_match p (a :: s) || Sql.like_match ("%"%char :: p) s.
Proof. reflexivity. Qed.

Lemma like_percent p s :
  Sql.like_match ("%"%char :: p) s = true
  ↔ ∃ pre post, s = (pre ++ post)%list ∧ Sql.like_match p post = true.
Proof.
  induction s as [|a s IH].
  - change (Sql.like_match ("%"%char :: p) []) with (Sql.like_match p [] || false).
    rewrite orb_false_r. split.
    + intros H. by exists [], [].
    + intros (pre & post & Hs & H). symmetry in Hs.
      apply app_eq_nil in Hs as [-> ->]. done.
  - rewrite like_percent_cons, orb_true_iff, IH. split.
    + intros [H | (pre & post & -> & H)].
      * by exists [], (a :: s).
      * by exists (a :: pre), post.
    + intros ([|b pre] & post & Hs & H); simpl in Hs.
      * left. by subst post.
      * right. injection Hs as -> ->. by exists pre, post.
Qed.

Lemma like_literal c p s :
  literal c →
  Sql.like_match (c :: p) s = true
  ↔ ∃ d s', s = d :: s' ∧ Sql.lower d = Sql.lower c ∧ Sql.like_match p s' = true.
Proof.
  intros [Hp Hu]. simpl.
  apply Ascii.eqb_neq in Hp. apply Ascii.eqb_neq in Hu. rewrite Hp, Hu.
  destruct s as [|d s]; simpl.
  - split; [done | by intros (? & ? & ? & _)].
  - rewrite andb_true_iff, Ascii.eqb_eq. split.
    + intros [Hc H]. by exists d, s.
    + intros (d' & s' & [= <- <-] & Hc & H). done.
Qed.

Lemma like_literals term p s :
  Forall literal term →
  Sql.like_match (term ++ p)%list s = true
  ↔ ∃ mid post, s = (mid ++ post)%list ∧ same_letters term mid
                ∧ Sql.like_match p post = true.
Proof.
  intros Hterm. revert s. induction Hterm as [|c term Hc _ IH]; intros s.
  - split.
    + intros H. by exists [], s.
    + intros (mid & post & -> & Hmid & H). unfold same_letters in Hmid.
      apply fmap_nil_inv in Hmid as ->. done.
  - change ((c :: term) ++ p)%list with (c :: (term ++ p))%list.
    rewrite (like_literal _ _ _ Hc). split.
    + intros (d & s' & -> & Hd & (mid & post & -> & Hmid & H)%IH).
      exists (d :: mid), post. split_and!; [done| |done].
      unfold same_letters in *. rewrite !fmap_cons. congruence.
    + intros ([|d mid] & post & -> & Hmid & H); unfold same_letters in Hmid;
        [done|].
      rewrite !fmap_cons in Hmid. injection Hmid as Hd Hmid.
      exists d, (mid ++ post)%list. split_and!; [done..|].
      apply IH. by exists mid, post.
Qed.

Lemma list_ascii_of_string_app s1 s2 :
  list_ascii_of_string (s1 +:+ s2)
  = (list_ascii_of_string s1 ++ list_ascii_of_string s2)%list.
Proof. induction s1 as [|c s1 IH]; [done|]. simpl. by rewrite IH. Qed.

Lemma searchHit_pattern term field :
  searchHit term field
  ↔ Sql.like_match
      ("%"%char :: (list_ascii_of_string term ++ ["%"%char]))%list
      (list_ascii_of_string field) = true.
Proof.
  unfold searchHit.
  change ("%" +:+ term +:+ "%") with (String "%"%char (term +:+ "%")).
  simpl list_ascii_of_string at 1. by rewrite list_ascii_of_string_app.
Qed.

(** X22. The search is a substring match that ignores the case of the
    ASCII letters: for a term without the characters [%] and [_], a field
    is hit exactly when the term occurs in it, somewhere, up to case.
    The term is not escaped: [%] as a term hits every field, and [_]
    hits every field that is not empty. *)
Theorem search_is_substring (term field : string)
    (Hterm : Forall literal (list_ascii_of_string term)) :
  (searchHit term field
   ↔ ∃ pre mid post,
       list_ascii_of_string field = (pre ++ mid ++ post)%list
       ∧ same_letters (list_ascii_of_string term) mid)
  ∧ searchHit "%" field
  ∧ (searchHit "_" field ↔ field ≠ "").
Proof.
  split_and!.
  - rewrite searchHit_pattern, like_percent. split.
    + intros (pre & rest & Hf & (mid & post & -> & Hmid & _)%like_literals); [|done].
      by exists pre, mid, post.
    + intros (pre & mid & post & Hf & Hmid).
      exists pre, (mid ++ post)%list. split; [done|].
      apply like_literals; [done|]. exists mid, post. split_and!; [done..|].
      apply like_percent. exists post, []. split; [by rewrite app_nil_r | done].
  - rewrite searchHit_pattern. apply like_percent.
    exists [], (list_ascii_of_string field). split; [done|].
    apply like_percent. exists (list_ascii_of_string field), [].
    split; [by rewrite app_nil_r | done].
  - rewrite searchHit_pattern, like_percent. split.
    + intros (pre & post & Hf & H) ->. simpl in Hf. symmetry in Hf.
      apply app_eq_nil in Hf as [-> ->]. done.
    + intros Hne. destruct field as [|c field]; [done|].
      exists [], (c :: list_ascii_of_string field). split; [done|].
      change (list_ascii_of_string "_" ++ ["%"%char])%list
        with ["_"%char; "%"%char].
      change (Sql.like_match ["_"%char; "%"%char] (c :: list_ascii_of_string field))
        with (true && Sql.like_match ["%"%char] (list_ascii_of_string field)).
      apply like_percent. exists (list_ascii_of_string field), [].
      split; [by rewrite app_nil_r | done].
Qed.

(** A search for [bike] finds the title [Mountain Bike]. *)
Lemma search_is_substring_witness :
  searchHit "bike" "Mountain Bike" ∧ searchHit "%" "" ∧ ¬ searchHit "_" "".
Proof.
  assert (Forall literal (list_ascii_of_string "bike")) as Hterm.
  { repeat constructor; discriminate. }
  destruct (search_is_substring "bike" "Mountain Bike" Hterm) as (Hhit & _ & _).
  destruct (search_is_substring "bike" "" Hterm) as (_ & Hall & Hone).
  split_and!.
  - apply Hhit. exists (list_ascii_of_string "Mountain "),
      (list_ascii_of_string "Bike"), []. split; reflexivity.
  - exact Hall.
  - intros H. by apply Hone in H.
Defined.

(** ** The checks of an uploaded file *)

(** X23. The two checks of an upload read the size of the buffer and
    leave the world alone. An image passes with at most 1 MiB and one of
    the three types; a thumbnail passes with 1 KiB to 150 KiB. So a
    buffer that passes as a thumbnail passes as an image of each of the
    three types, while an image may be too small or too large for a
    thumbnail: the empty buffer passes as a JPEG image and fails as a
    thumbnail. *)
Theorem upload_checks (byteLength : Z) (mimeType : string) (w : World) :
  ∃ image thumbnail,
    ImageService.validateImageFile byteLength mimeType w = (inr image, w)
    ∧ ImageService.validateThumbnailFile byteLength w = (inr thumbnail, w)
    ∧ (image = true
       ↔ byteLength <= 1024 * 1024
         ∧ mimeType ∈ ["image/jpeg"; "image/png"; "image/webp"])
    ∧ (thumbnail = true ↔ 1024 <= byteLength <= 150 * 1024)
    ∧ (thumbnail = true →
       (image = true ↔ mimeType ∈ ["image/jpeg"; "image/png"; "image/webp"]))
    ∧ (byteLength < 1024 → thumbnail = false)
    ∧ (byteLength <= 0 → mimeType = "image/jpeg" → image = true ∧ thumbnail = false).
Proof.
  unfold ImageService.validateImageFile, ImageService.validateThumbnailFile.
  cbv zeta.
  destruct (Z.ltb_spec (1024 * 1024) byteLength) as [Hbig|Hbig];
    destruct (Z.ltb_spec byteLength 1024) as [Hsmall|Hsmall];
    destruct (Z.leb_spec byteLength (150 * 1024)) as [Hle|Hle];
    try lia;
    try (case_bool_decide as Hty; rewrite !elem_of_cons, elem_of_nil in Hty);
    cbn [negb];
    (eexists _, _; split; [reflexivity|]; split; [reflexivity|]);
    split_and!; rewrite ?elem_of_cons, ?elem_of_nil;
    try (split; intros; try done; try lia; try tauto);
    try (intros; try done; try lia; try tauto);
    try (intros; subst; tauto).
Qed.

(** X24. [getCategoryById] finds a category for exactly the ten ids of
    [CATEGORIES], and the category found is the one that carries the id:
    the ids of the table are distinct, so every category of the table is
    found under its own id. *)
Theorem category_lookup (id : string) :
  (∀ cat, FrontendConstants.getCategoryById id = Some cat
          ↔ cat ∈ FrontendConstants.CATEGORIES ∧ FrontendConstants.cat_id cat = id)
  ∧ (FrontendConstants.getCategoryById id = None
     ↔ id ∉ FrontendConstants.cat_id <$> FrontendConstants.CATEGORIES)
  ∧ NoDup (FrontendConstants.cat_id <$> FrontendConstants.CATEGORIES).
Proof.
  split_and!.
  - intros cat. unfold FrontendConstants.getCategoryById. split.
    + intros [Hin Hid%bool_decide_eq_true]%find_some.
      split; [by apply list_elem_of_In | done].
    + intros [Hin <-]. unfold FrontendConstants.CATEGORIES in Hin.
      rewrite !elem_of_cons in Hin. rewrite elem_of_nil in Hin.
      destruct Hin as [->|[->|[->|[->|[->|[->|[->|[->|[->|[->|[]]]]]]]]]]];
        reflexivity.
  - unfold FrontendConstants.getCategoryById. split.
    + intros Hnone (cat & -> & Hin)%list_elem_of_fmap.
      apply list_elem_of_In in Hin.
      apply (find_none _ _ Hnone) in Hin. by case_bool_decide.
    + intros Hnot. destruct (find _ _) as [cat|] eqn:Hfind; [|done].
      apply find_some in Hfind as [Hin Hid%bool_decide_eq_true].
      destruct Hnot. apply list_elem_of_fmap. exists cat.
      split; [done | by apply list_elem_of_In].
  - apply (bool_decide_unpack _). vm_compute. exact I.
Qed.

(** ** The pagination of an answer *)

Lemma limit_offset_last {R : Type} (n m : Z) (t : list R) :
  0 <= n → 0 <= m →
  Z.of_nat (length (Sql.limit_offset n m t)) ≠ n →
  Sql.limit_offset n (m + n) t = [].
Proof.
  intros Hn Hm. unfold Sql.limit_offset, Sql.limit, Sql.offset.
  destruct (Z.ltb_spec n 0); [lia|].
  rewrite length_take, length_drop. intros Hlen.
  rewrite (drop_ge t (Z.to_nat (m + n))) by lia. by rewrite take_nil.
Qed.

(** X25. The flag [hasMore] of a list answer is set exactly when the page
    of [getListingsWithImages] is full. When it is not set there is no
    more: the next page, [limit] rows further, is empty. *)
Theorem no_more_is_right (input : GetListingsInput) (w : World) (n m : Z) :
  0 <= n → 0 <= m →
  ∃ rows next limit' offset' hasMore,
    ListingService.getListingsWithImages (page input n m) w = (inr rows, w)
    ∧ ListingService.getListingsWithImages (page input n (m + n)) w = (inr next, w)
    ∧ Api.createPaginationResponse rows n m = ListingsBody rows limit' offset' hasMore
    ∧ limit' = n ∧ offset' = m
    ∧ (hasMore = true ↔ Z.of_nat (length rows) = n)
    ∧ (hasMore = false → next = []).
Proof.
  intros Hn Hm. destruct (getListingsWithImages_pages input w) as (t & Ht).
  rewrite !Ht. unfold Api.createPaginationResponse.
  eexists _, _, _, _, _. split_and!; try reflexivity.
  - apply bool_decide_eq_true.
  - intros Hno%bool_decide_eq_false. rewrite !length_fmap in Hno.
    by rewrite (limit_offset_last n m t Hn Hm Hno).
Qed.

(** The market in pages of two rows: the second page is short, and the
    third is empty. *)
Lemma no_more_is_right_witness :
  ∃ rows next hasMore,
    ListingService.getListingsWithImages (page Sample.no_filters 2 2) Sample.market
    = (inr rows, Sample.market)
    ∧ ListingService.getListingsWithImages (page Sample.no_filters 2 4) Sample.market
      = (inr next, Sample.market)
    ∧ Api.createPaginationResponse rows 2 2 = ListingsBody rows 2 2 hasMore
    ∧ (hasMore = false → next = []).
Proof.
  destruct (no_more_is_right Sample.no_filters Sample.market 2 2)
    as (rows & next & l & o & h & H1 & H2 & H3 & -> & -> & _ & Hno); [lia..|].
  exists rows, next, h. split_and!; [exact H1 | exact H2 | exact H3 | exact Hno].
Defined.
